(** * ai-web-searcher: sessions, query engine, action parser, scratchpad

  A shallow embedding of the Python sources

    - [web_searcher/agents/nodes.py]  ([parse])
    - [web_searcher/agents/edge.py]   ([update_scratchpad])
    - [web_searcher/session.py]       ([SessionInfo], [SessionManager])
    - [web_searcher/api/routes.py]    ([query_agent], [process_query])

  together with the properties of them that the specification states.

  Conventions of the embedding (CPython 3.11, Unicode 14.0).
    - A Python [str] is the [string] of the bytes of its UTF-8 encoding.
      Splitting at an ASCII character, [startswith], [in] and stripping
      ASCII characters work on the bytes as they do on the characters.
      [str.strip()] and the [\d] of [re] look at characters: they go by
      the encodings of the whitespace characters ([PyStr.whitespace]) and
      of the decimal digits ([PyStr.decimal_digits]) of Unicode; [repr]
      goes by the code points that are not printable
      ([PyStr.unprintable]). A lone surrogate is written with the three
      bytes that the encoding scheme gives its code point.
    - A Python [int] is a [Z]. The interpreter's limit of 4300 digits on
      the conversions between [int] and [str] is modelled where the
      number can be of any size: the numbers read back from the text of
      the scratchpad ([Edge.int], [Edge.str]) and the bound of a request
      in the message of the error ([Routes.max_steps_message]). The
      position of an element in a list is written without it.
    - A Python exception is a value of [exn]; code that may raise returns
      an [outcome].
    - [datetime] values are [Z] counts of microseconds; a [timedelta]
      holds at most 999999999 days either way. *)

From Stdlib Require Import String Ascii ZArith NArith List Lia Bool.
From Stdlib Require Import DecimalString DecimalPos DecimalN DecimalFacts.
From stdpp Require Import gmap strings.

Import ListNotations.

#[local] Arguments String.append : simpl nomatch.

(** ** Python exceptions and results *)

Inductive exn : Type :=
| IndexError
| ValueError
| KeyError
| AttributeError
| OverflowError
| TypeError (msg : string)
| HTTPException (status_code : Z) (detail : string)
| Exception (msg : string).

Inductive outcome (A : Type) : Type :=
| Ok (a : A)
| Raise (e : exn).

Arguments Ok {A} a.
Arguments Raise {A} e.

(** Sequencing: the first exception raised ends the computation. It is
  written [x ← r; k] below. *)
#[global] Instance outcome_bind : MBind outcome :=
  fun A B (k : A -> outcome B) (r : outcome A) =>
    match r with
    | Ok a => k a
    | Raise e => Raise e
    end.

(** ** The string methods the sources use *)

Module PyStr.

(** *** Characters *)

(** The UTF-8 encoding of the character with code point [cp]. *)
Definition utf8 (cp : N) : string :=
  (if cp <? 128 then String (ascii_of_N cp) ""
   else if cp <? 2048 then
     String (ascii_of_N (192 + cp / 64))
       (String (ascii_of_N (128 + cp mod 64)) "")
   else if cp <? 65536 then
     String (ascii_of_N (224 + cp / 4096))
       (String (ascii_of_N (128 + (cp / 64) mod 64))
          (String (ascii_of_N (128 + cp mod 64)) ""))
   else
     String (ascii_of_N (240 + cp / 262144))
       (String (ascii_of_N (128 + (cp / 4096) mod 64))
          (String (ascii_of_N (128 + (cp / 64) mod 64))
             (String (ascii_of_N (128 + cp mod 64)) ""))))%N.

(** The code points [c] for which [chr(c).isspace()] holds. *)
Definition whitespace_codes : list N :=
  [9; 10; 11; 12; 13; 28; 29; 30;
   31; 32; 133; 160; 5760; 8192; 8193; 8194;
   8195; 8196; 8197; 8198; 8199; 8200; 8201; 8202;
   8232; 8233; 8239; 8287; 12288]%N.

(** The whitespace characters: what [str.strip()] removes. *)
Definition whitespace : list string := map utf8 whitespace_codes.

(** The code points of the digits zero of Unicode (category Nd); the
    digits one to nine of a script follow its zero. *)
Definition digit_zeros : list N :=
  [48; 1632; 1776; 1984; 2406; 2534; 2662; 2790;
   2918; 3046; 3174; 3302; 3430; 3558; 3664; 3792;
   3872; 4160; 4240; 6112; 6160; 6470; 6608; 6784;
   6800; 6992; 7088; 7232; 7248; 42528; 43216; 43264;
   43472; 43504; 43600; 44016; 65296; 66720; 68912; 69734;
   69872; 69942; 70096; 70384; 70736; 70864; 71248; 71360;
   71472; 71904; 72016; 72784; 73040; 73120; 92768; 92864;
   93008; 120782; 120792; 120802; 120812; 120822; 123200; 123632;
   125264; 130032]%N.

(** The decimal digits, each with its value: what [\d] matches and
    [int] reads. *)
Definition decimal_digits : list (string * N) :=
  flat_map (fun zero => map (fun v => (utf8 (zero + v), v))
                            [0; 1; 2; 3; 4; 5; 6; 7; 8; 9]%N)
           digit_zeros.

Definition digit_tokens : list string := decimal_digits.*1.

Definition digit_value (d : string) : N :=
  match find (fun kv => String.eqb kv.1 d) decimal_digits with
  | Some kv => kv.2
  | None => 0
  end.

Definition to_digit (v : N) (u : Decimal.uint) : Decimal.uint :=
  match v with
  | 0 => Decimal.D0 u | 1 => Decimal.D1 u | 2 => Decimal.D2 u
  | 3 => Decimal.D3 u | 4 => Decimal.D4 u | 5 => Decimal.D5 u
  | 6 => Decimal.D6 u | 7 => Decimal.D7 u | 8 => Decimal.D8 u
  | _ => Decimal.D9 u
  end%N.

(** The decimal numeral that the digits [m] write, and its number. *)
Definition numeral (m : list string) : Decimal.uint :=
  fold_right (fun d u => to_digit (digit_value d) u) Decimal.Nil m.

Definition number (m : list string) : Z := Z.of_N (N.of_uint (numeral m)).

(** The rest of [s] after [p], when [s] starts with [p]. *)
Fixpoint after_prefix (p s : string) : option string :=
  match p, s with
  | EmptyString, _ => Some s
  | String a p', String b s' =>
      if Ascii.eqb a b then after_prefix p' s' else None
  | String _ _, EmptyString => None
  end.

(** The character of [chars] that [s] starts with, and the rest of [s]. *)
Fixpoint match_token (chars : list string) (s : string)
  : option (string * string) :=
  match chars with
  | [] => None
  | t :: ts =>
      match after_prefix t s with
      | Some r => Some (t, r)
      | None => match_token ts s
      end
  end.

(** The characters of [chars] that [s] starts with, as many as there
    are, and what comes after them. A character has one byte at least,
    so that the length of [s] is fuel enough. *)
Fixpoint take_tokens (chars : list string) (fuel : nat) (s : string)
  : list string * string :=
  match fuel with
  | O => ([], s)
  | S n =>
      match match_token chars s with
      | Some (t, r) =>
          let '(ts, r') := take_tokens chars n r in (t :: ts, r')
      | None => ([], s)
      end
  end.

(** No character of [chars] is the start of another one, and none is
    empty: as in every table of UTF-8 encodings. *)
Definition prefix_free (chars : list string) : Prop :=
  forall t t' r r',
    In t chars -> In t' chars -> t +:+ r = t' +:+ r' -> t = t'.

Definition prefix_freeb (chars : list string) : bool :=
  forallb (fun t =>
    forallb (fun t' => String.eqb t t' || negb (String.prefix t t')) chars)
    chars.

Definition nonempty (chars : list string) : Prop :=
  Forall (fun t => t <> EmptyString) chars.

(** The characters of an ASCII [s], as [list(s)] gives them. *)
Definition chars (s : string) : list string :=
  map (fun c => String c EmptyString) (list_ascii_of_string s).

(** The bytes of [s] from the last to the first. *)
Fixpoint srev (s : string) : string :=
  match s with
  | EmptyString => EmptyString
  | String c s' => srev s' +:+ String c EmptyString
  end.

(** ["".join(l)] *)
Definition cat (l : list string) : string := fold_right String.append "" l.

(** The number of bytes of the character that begins with the byte [c]. *)
Definition char_width (c : ascii) : nat :=
  let n := nat_of_ascii c in
  if n <? 192 then 1 else if n <? 224 then 2 else if n <? 240 then 3 else 4.

(** [s[:n]], counted in bytes. *)
Fixpoint take (n : nat) (s : string) : string :=
  match n, s with
  | O, _ => EmptyString
  | S _, EmptyString => EmptyString
  | S n', String c s' => String c (take n' s')
  end.

(** [s[0]] for an [s] that is not empty: its first character. *)
Definition first_char (s : string) : string :=
  match s with
  | EmptyString => EmptyString
  | String c _ => take (char_width c) s
  end.

(** [s[n:]], counted in bytes. *)
Fixpoint drop (n : nat) (s : string) : string :=
  match n, s with
  | O, _ => s
  | S _, EmptyString => EmptyString
  | S n', String _ s' => drop n' s'
  end.

(** [list(s)]: the characters of [s], each with the bytes that its first
    byte announces. A character has one byte at least, so that the
    length of [s] is fuel enough. *)
Fixpoint characters (fuel : nat) (s : string) : list string :=
  match fuel, s with
  | O, _ => []
  | S _, EmptyString => []
  | S n, String c _ =>
      take (char_width c) s :: characters n (drop (char_width c) s)
  end.

(** [ord(c)]: the code point that the bytes of the character [c]
    encode. *)
Definition code_point (c : string) : N :=
  match map N_of_ascii (list_ascii_of_string c) with
  | [a] => a
  | [a; b] => (a mod 32) * 64 + b mod 64
  | [a; b; c] => (a mod 16) * 4096 + (b mod 64) * 64 + c mod 64
  | [a; b; c; d] =>
      (a mod 8) * 262144 + (b mod 64) * 4096 + (c mod 64) * 64 + d mod 64
  | _ => 0
  end%N.

(** The code points [c] for which [chr(c).isprintable()] does not hold,
    in ranges from a first to a last one. *)
Definition unprintable : list (N * N) :=
  [(0, 31); (127, 160); (173, 173); (888, 889); (896, 899); (907, 907);
   (909, 909); (930, 930); (1328, 1328); (1367, 1368); (1419, 1420);
   (1424, 1424); (1480, 1487); (1515, 1518); (1525, 1541); (1564, 1564);
   (1757, 1757); (1806, 1807); (1867, 1868); (1970, 1983); (2043, 2044);
   (2094, 2095); (2111, 2111); (2140, 2141); (2143, 2143); (2155, 2159);
   (2191, 2199); (2274, 2274); (2436, 2436); (2445, 2446); (2449, 2450);
   (2473, 2473); (2481, 2481); (2483, 2485); (2490, 2491); (2501, 2502);
   (2505, 2506); (2511, 2518); (2520, 2523); (2526, 2526); (2532, 2533);
   (2559, 2560); (2564, 2564); (2571, 2574); (2577, 2578); (2601, 2601);
   (2609, 2609); (2612, 2612); (2615, 2615); (2618, 2619); (2621, 2621);
   (2627, 2630); (2633, 2634); (2638, 2640); (2642, 2648); (2653, 2653);
   (2655, 2661); (2679, 2688); (2692, 2692); (2702, 2702); (2706, 2706);
   (2729, 2729); (2737, 2737); (2740, 2740); (2746, 2747); (2758, 2758);
   (2762, 2762); (2766, 2767); (2769, 2783); (2788, 2789); (2802, 2808);
   (2816, 2816); (2820, 2820); (2829, 2830); (2833, 2834); (2857, 2857);
   (2865, 2865); (2868, 2868); (2874, 2875); (2885, 2886); (2889, 2890);
   (2894, 2900); (2904, 2907); (2910, 2910); (2916, 2917); (2936, 2945);
   (2948, 2948); (2955, 2957); (2961, 2961); (2966, 2968); (2971, 2971);
   (2973, 2973); (2976, 2978); (2981, 2983); (2987, 2989); (3002, 3005);
   (3011, 3013); (3017, 3017); (3022, 3023); (3025, 3030); (3032, 3045);
   (3067, 3071); (3085, 3085); (3089, 3089); (3113, 3113); (3130, 3131);
   (3141, 3141); (3145, 3145); (3150, 3156); (3159, 3159); (3163, 3164);
   (3166, 3167); (3172, 3173); (3184, 3190); (3213, 3213); (3217, 3217);
   (3241, 3241); (3252, 3252); (3258, 3259); (3269, 3269); (3273, 3273);
   (3278, 3284); (3287, 3292); (3295, 3295); (3300, 3301); (3312, 3312);
   (3315, 3327); (3341, 3341); (3345, 3345); (3397, 3397); (3401, 3401);
   (3408, 3411); (3428, 3429); (3456, 3456); (3460, 3460); (3479, 3481);
   (3506, 3506); (3516, 3516); (3518, 3519); (3527, 3529); (3531, 3534);
   (3541, 3541); (3543, 3543); (3552, 3557); (3568, 3569); (3573, 3584);
   (3643, 3646); (3676, 3712); (3715, 3715); (3717, 3717); (3723, 3723);
   (3748, 3748); (3750, 3750); (3774, 3775); (3781, 3781); (3783, 3783);
   (3790, 3791); (3802, 3803); (3808, 3839); (3912, 3912); (3949, 3952);
   (3992, 3992); (4029, 4029); (4045, 4045); (4059, 4095); (4294, 4294);
   (4296, 4300); (4302, 4303); (4681, 4681); (4686, 4687); (4695, 4695);
   (4697, 4697); (4702, 4703); (4745, 4745); (4750, 4751); (4785, 4785);
   (4790, 4791); (4799, 4799); (4801, 4801); (4806, 4807); (4823, 4823);
   (4881, 4881); (4886, 4887); (4955, 4956); (4989, 4991); (5018, 5023);
   (5110, 5111); (5118, 5119); (5760, 5760); (5789, 5791); (5881, 5887);
   (5910, 5918); (5943, 5951); (5972, 5983); (5997, 5997); (6001, 6001);
   (6004, 6015); (6110, 6111); (6122, 6127); (6138, 6143); (6158, 6158);
   (6170, 6175); (6265, 6271); (6315, 6319); (6390, 6399); (6431, 6431);
   (6444, 6447); (6460, 6463); (6465, 6467); (6510, 6511); (6517, 6527);
   (6572, 6575); (6602, 6607); (6619, 6621); (6684, 6685); (6751, 6751);
   (6781, 6782); (6794, 6799); (6810, 6815); (6830, 6831); (6863, 6911);
   (6989, 6991); (7039, 7039); (7156, 7163); (7224, 7226); (7242, 7244);
   (7305, 7311); (7355, 7356); (7368, 7375); (7419, 7423); (7958, 7959);
   (7966, 7967); (8006, 8007); (8014, 8015); (8024, 8024); (8026, 8026);
   (8028, 8028); (8030, 8030); (8062, 8063); (8117, 8117); (8133, 8133);
   (8148, 8149); (8156, 8156); (8176, 8177); (8181, 8181); (8191, 8207);
   (8232, 8239); (8287, 8303); (8306, 8307); (8335, 8335); (8349, 8351);
   (8385, 8399); (8433, 8447); (8588, 8591); (9255, 9279); (9291, 9311);
   (11124, 11125); (11158, 11158); (11508, 11512); (11558, 11558);
   (11560, 11564); (11566, 11567); (11624, 11630); (11633, 11646);
   (11671, 11679); (11687, 11687); (11695, 11695); (11703, 11703);
   (11711, 11711); (11719, 11719); (11727, 11727); (11735, 11735);
   (11743, 11743); (11870, 11903); (11930, 11930); (12020, 12031);
   (12246, 12271); (12284, 12288); (12352, 12352); (12439, 12440);
   (12544, 12548); (12592, 12592); (12687, 12687); (12772, 12783);
   (12831, 12831); (42125, 42127); (42183, 42191); (42540, 42559);
   (42744, 42751); (42955, 42959); (42962, 42962); (42964, 42964);
   (42970, 42993); (43053, 43055); (43066, 43071); (43128, 43135);
   (43206, 43213); (43226, 43231); (43348, 43358); (43389, 43391);
   (43470, 43470); (43482, 43485); (43519, 43519); (43575, 43583);
   (43598, 43599); (43610, 43611); (43715, 43738); (43767, 43776);
   (43783, 43784); (43791, 43792); (43799, 43807); (43815, 43815);
   (43823, 43823); (43884, 43887); (44014, 44015); (44026, 44031);
   (55204, 55215); (55239, 55242); (55292, 63743); (64110, 64111);
   (64218, 64255); (64263, 64274); (64280, 64284); (64311, 64311);
   (64317, 64317); (64319, 64319); (64322, 64322); (64325, 64325);
   (64451, 64466); (64912, 64913); (64968, 64974); (64976, 65007);
   (65050, 65055); (65107, 65107); (65127, 65127); (65132, 65135);
   (65141, 65141); (65277, 65280); (65471, 65473); (65480, 65481);
   (65488, 65489); (65496, 65497); (65501, 65503); (65511, 65511);
   (65519, 65531); (65534, 65535); (65548, 65548); (65575, 65575);
   (65595, 65595); (65598, 65598); (65614, 65615); (65630, 65663);
   (65787, 65791); (65795, 65798); (65844, 65846); (65935, 65935);
   (65949, 65951); (65953, 65999); (66046, 66175); (66205, 66207);
   (66257, 66271); (66300, 66303); (66340, 66348); (66379, 66383);
   (66427, 66431); (66462, 66462); (66500, 66503); (66518, 66559);
   (66718, 66719); (66730, 66735); (66772, 66775); (66812, 66815);
   (66856, 66863); (66916, 66926); (66939, 66939); (66955, 66955);
   (66963, 66963); (66966, 66966); (66978, 66978); (66994, 66994);
   (67002, 67002); (67005, 67071); (67383, 67391); (67414, 67423);
   (67432, 67455); (67462, 67462); (67505, 67505); (67515, 67583);
   (67590, 67591); (67593, 67593); (67638, 67638); (67641, 67643);
   (67645, 67646); (67670, 67670); (67743, 67750); (67760, 67807);
   (67827, 67827); (67830, 67834); (67868, 67870); (67898, 67902);
   (67904, 67967); (68024, 68027); (68048, 68049); (68100, 68100);
   (68103, 68107); (68116, 68116); (68120, 68120); (68150, 68151);
   (68155, 68158); (68169, 68175); (68185, 68191); (68256, 68287);
   (68327, 68330); (68343, 68351); (68406, 68408); (68438, 68439);
   (68467, 68471); (68498, 68504); (68509, 68520); (68528, 68607);
   (68681, 68735); (68787, 68799); (68851, 68857); (68904, 68911);
   (68922, 69215); (69247, 69247); (69290, 69290); (69294, 69295);
   (69298, 69375); (69416, 69423); (69466, 69487); (69514, 69551);
   (69580, 69599); (69623, 69631); (69710, 69713); (69750, 69758);
   (69821, 69821); (69827, 69839); (69865, 69871); (69882, 69887);
   (69941, 69941); (69960, 69967); (70007, 70015); (70112, 70112);
   (70133, 70143); (70162, 70162); (70207, 70271); (70279, 70279);
   (70281, 70281); (70286, 70286); (70302, 70302); (70314, 70319);
   (70379, 70383); (70394, 70399); (70404, 70404); (70413, 70414);
   (70417, 70418); (70441, 70441); (70449, 70449); (70452, 70452);
   (70458, 70458); (70469, 70470); (70473, 70474); (70478, 70479);
   (70481, 70486); (70488, 70492); (70500, 70501); (70509, 70511);
   (70517, 70655); (70748, 70748); (70754, 70783); (70856, 70863);
   (70874, 71039); (71094, 71095); (71134, 71167); (71237, 71247);
   (71258, 71263); (71277, 71295); (71354, 71359); (71370, 71423);
   (71451, 71452); (71468, 71471); (71495, 71679); (71740, 71839);
   (71923, 71934); (71943, 71944); (71946, 71947); (71956, 71956);
   (71959, 71959); (71990, 71990); (71993, 71994); (72007, 72015);
   (72026, 72095); (72104, 72105); (72152, 72153); (72165, 72191);
   (72264, 72271); (72355, 72367); (72441, 72703); (72713, 72713);
   (72759, 72759); (72774, 72783); (72813, 72815); (72848, 72849);
   (72872, 72872); (72887, 72959); (72967, 72967); (72970, 72970);
   (73015, 73017); (73019, 73019); (73022, 73022); (73032, 73039);
   (73050, 73055); (73062, 73062); (73065, 73065); (73103, 73103);
   (73106, 73106); (73113, 73119); (73130, 73439); (73465, 73647);
   (73649, 73663); (73714, 73726); (74650, 74751); (74863, 74863);
   (74869, 74879); (75076, 77711); (77811, 77823); (78895, 82943);
   (83527, 92159); (92729, 92735); (92767, 92767); (92778, 92781);
   (92863, 92863); (92874, 92879); (92910, 92911); (92918, 92927);
   (92998, 93007); (93018, 93018); (93026, 93026); (93048, 93052);
   (93072, 93759); (93851, 93951); (94027, 94030); (94088, 94094);
   (94112, 94175); (94181, 94191); (94194, 94207); (100344, 100351);
   (101590, 101631); (101641, 110575); (110580, 110580); (110588, 110588);
   (110591, 110591); (110883, 110927); (110931, 110947); (110952, 110959);
   (111356, 113663); (113771, 113775); (113789, 113791); (113801, 113807);
   (113818, 113819); (113824, 118527); (118574, 118575); (118599, 118607);
   (118724, 118783); (119030, 119039); (119079, 119080); (119155, 119162);
   (119275, 119295); (119366, 119519); (119540, 119551); (119639, 119647);
   (119673, 119807); (119893, 119893); (119965, 119965); (119968, 119969);
   (119971, 119972); (119975, 119976); (119981, 119981); (119994, 119994);
   (119996, 119996); (120004, 120004); (120070, 120070); (120075, 120076);
   (120085, 120085); (120093, 120093); (120122, 120122); (120127, 120127);
   (120133, 120133); (120135, 120137); (120145, 120145); (120486, 120487);
   (120780, 120781); (121484, 121498); (121504, 121504); (121520, 122623);
   (122655, 122879); (122887, 122887); (122905, 122906); (122914, 122914);
   (122917, 122917); (122923, 123135); (123181, 123183); (123198, 123199);
   (123210, 123213); (123216, 123535); (123567, 123583); (123642, 123646);
   (123648, 124895); (124903, 124903); (124908, 124908); (124911, 124911);
   (124927, 124927); (125125, 125126); (125143, 125183); (125260, 125263);
   (125274, 125277); (125280, 126064); (126133, 126208); (126270, 126463);
   (126468, 126468); (126496, 126496); (126499, 126499); (126501, 126502);
   (126504, 126504); (126515, 126515); (126520, 126520); (126522, 126522);
   (126524, 126529); (126531, 126534); (126536, 126536); (126538, 126538);
   (126540, 126540); (126544, 126544); (126547, 126547); (126549, 126550);
   (126552, 126552); (126554, 126554); (126556, 126556); (126558, 126558);
   (126560, 126560); (126563, 126563); (126565, 126566); (126571, 126571);
   (126579, 126579); (126584, 126584); (126589, 126589); (126591, 126591);
   (126602, 126602); (126620, 126624); (126628, 126628); (126634, 126634);
   (126652, 126703); (126706, 126975); (127020, 127023); (127124, 127135);
   (127151, 127152); (127168, 127168); (127184, 127184); (127222, 127231);
   (127406, 127461); (127491, 127503); (127548, 127551); (127561, 127567);
   (127570, 127583); (127590, 127743); (128728, 128732); (128749, 128751);
   (128765, 128767); (128884, 128895); (128985, 128991); (129004, 129007);
   (129009, 129023); (129036, 129039); (129096, 129103); (129114, 129119);
   (129160, 129167); (129198, 129199); (129202, 129279); (129620, 129631);
   (129646, 129647); (129653, 129655); (129661, 129663); (129671, 129679);
   (129709, 129711); (129723, 129727); (129734, 129743); (129754, 129759);
   (129768, 129775); (129783, 129791); (129939, 129939); (129995, 130031);
   (130042, 131071); (173792, 173823); (177977, 177983); (178206, 178207);
   (183970, 183983); (191457, 194559); (195102, 196607); (201547, 917759);
   (918000, 1114111)]%N.

(** [chr(cp).isprintable()] *)
Definition isprintable (cp : N) : bool :=
  negb (existsb (fun r => (r.1 <=? cp) && (cp <=? r.2))%N unprintable).

(** *** Methods *)

Fixpoint mem (c : ascii) (chars : string) : bool :=
  match chars with
  | EmptyString => false
  | String d chars' => Ascii.eqb c d || mem c chars'
  end.

Fixpoint lstrip_with (p : ascii -> bool) (s : string) : string :=
  match s with
  | EmptyString => EmptyString
  | String c s' => if p c then lstrip_with p s' else s
  end.

Fixpoint rstrip_with (p : ascii -> bool) (s : string) : string :=
  match s with
  | EmptyString => EmptyString
  | String c s' =>
      match rstrip_with p s' with
      | EmptyString => if p c then EmptyString else String c EmptyString
      | r => String c r
      end
  end.

Definition strip_with (p : ascii -> bool) (s : string) : string :=
  lstrip_with p (rstrip_with p s).

(** [s.lstrip()], [s.rstrip()] and [s.strip()]: the whitespace
    characters at the start, at the end, and at both ends are removed. *)
Definition lstrip (s : string) : string :=
  (take_tokens whitespace (String.length s) s).2.

Definition rstrip (s : string) : string :=
  srev (take_tokens (map srev whitespace) (String.length s) (srev s)).2.

Definition strip (s : string) : string := lstrip (rstrip s).

(** [s.strip(chars)], for ASCII [chars] *)
Definition strip_chars (chars : string) (s : string) : string :=
  strip_with (fun c => mem c chars) s.

(** Put a character in front of the first piece of a split. *)
Definition cons_head (c : ascii) (l : list string) : list string :=
  match l with
  | [] => [String c EmptyString]
  | p :: ps => String c p :: ps
  end.

(** [s.split(sep)] and [s.split(sep, maxsplit)] for a separator of one
    character; [limit = None] is the call without [maxsplit]. *)
Fixpoint split_limit (sep : ascii) (limit : option nat) (s : string)
  : list string :=
  match s with
  | EmptyString => [EmptyString]
  | String c s' =>
      if Ascii.eqb c sep then
        match limit with
        | None => EmptyString :: split_limit sep None s'
        | Some (S k) => EmptyString :: split_limit sep (Some k) s'
        | Some O => [s]
        end
      else cons_head c (split_limit sep limit s')
  end.

Definition split (sep : ascii) (s : string) : list string :=
  split_limit sep None s.

Definition split_max (sep : ascii) (maxsplit : nat) (s : string)
  : list string :=
  split_limit sep (Some maxsplit) s.

(** [s.rsplit(sep, 1)]: at most one split, at the last separator. *)
Fixpoint rsplit1 (sep : ascii) (s : string) : list string :=
  match s with
  | EmptyString => [EmptyString]
  | String c s' =>
      if Ascii.eqb c sep && negb (mem sep s')
      then [EmptyString; s']
      else cons_head c (rsplit1 sep s')
  end.

(** [l[-1]] *)
Fixpoint last_item {A : Type} (l : list A) : outcome A :=
  match l with
  | [] => Raise IndexError
  | [x] => Ok x
  | _ :: l' => last_item l'
  end.

(** [s.startswith(p)] *)
Definition startswith (p s : string) : bool := String.prefix p s.

(** [sub in s] *)
Fixpoint contains (sub s : string) : bool :=
  String.prefix sub s ||
  match s with
  | EmptyString => false
  | String _ s' => contains sub s'
  end.

Fixpoint count_char (c : ascii) (s : string) : nat :=
  match s with
  | EmptyString => O
  | String d s' => (if Ascii.eqb d c then 1 else 0) + count_char c s'
  end.

(** The decimal numeral of [n]: [str(n)] for an [int] within the limit
    on the number of digits. *)
Definition of_int (n : Z) : string := NilZero.string_of_int (Z.to_int n).

End PyStr.

(** ** [agents/nodes.py] *)

Module Nodes.
Import PyStr.

(** The value under ["args"]: [None], a list of strings, or (for a retry)
    one string. *)
Inductive Args : Type :=
| ArgsNone
| ArgsList (l : list string)
| ArgsStr (s : string).

(** The dict [{"action": ..., "args": ...}]. *)
Record Prediction : Type := mkPrediction {
  action : string;
  args : Args
}.

Definition action_prefix : string := "Action: ".

Definition newline : ascii := "010"%char.
Definition space : ascii := " "%char.
Definition semicolon : ascii := ";"%char.
Definition tab : ascii := "009"%char.

(** [text.strip().split("\n")[-1]] *)
Definition last_line (text : string) : outcome string :=
  last_item (split newline (strip text)).

(** [[inp.strip().strip("[]") for inp in action_input.strip().split(";")]] *)
Definition parse_args (action_input : string) : list string :=
  map (fun inp => strip_chars "[]" (strip inp))
      (split semicolon (strip action_input)).

Definition parse (text : string) : outcome Prediction :=
  line ← last_line text;
  if negb (startswith action_prefix line) then
    Ok {| action := "retry";
          args := ArgsStr ("Could not parse LLM Output: " +:+ text) |}
  else
    action_block ← last_line text;
    let action_str := drop (String.length action_prefix) action_block in
    let split_output := split_max space 1 action_str in
    '(action, action_input) ←
      match split_output with
      | [a] => Ok (a, None)
      | [a; b] => Ok (a, Some b)
      | _ => Raise ValueError
      end;
    let action := strip action in
    Ok {| action := action;
          args := match action_input with
                  | None => ArgsNone
                  | Some i => ArgsList (parse_args i)
                  end |}.

End Nodes.

(** ** [agents/edge.py] *)

Module Edge.
Import PyStr.

(** The keys of the agent state that [update_scratchpad] reads and writes;
    a message is modelled by its [content], and every other key is carried
    over unchanged by [{**state, ...}]. *)
Record AgentState : Type := mkAgentState {
  scratchpad : option (list string);
  observation : string
}.

Definition newline : ascii := "010"%char.

(** The decimal digits that [s] starts with. *)
Definition digits_prefix (s : string) : list string :=
  (take_tokens digit_tokens (String.length s) s).1.

(** What [re.match(r"\d+", s)] matches, as the list of its characters,
    or [None]. *)
Definition re_match_digits (s : string) : option (list string) :=
  match digits_prefix s with
  | [] => None
  | m => Some m
  end.

(** [sys.get_int_max_str_digits()] *)
Definition max_str_digits : nat := 4300.

(** [int(m)] for decimal digits [m]: beyond the limit on their number it
    raises ValueError. *)
Definition int (m : list string) : outcome Z :=
  if max_str_digits <? length m then Raise ValueError else Ok (number m).

(** [str(n)], as in [f"{n}"], for an [n] that is not negative, under the
    same limit. *)
Definition str (n : Z) : outcome string :=
  if max_str_digits <? String.length (of_int n) then Raise ValueError
  else Ok (of_int n).

Definition header : string :=
  "Previous action observations:" +:+ String newline "".

(** [f"\n{step}. {observation}"], for a [step] within the limit *)
Definition entry (step : Z) (obs : string) : string :=
  String newline (of_int step +:+ ". " +:+ obs).

Definition update_scratchpad (state : AgentState) : outcome AgentState :=
  '(txt, step) ←
    match scratchpad state with
    | Some (old0 :: _) =>
        let txt := old0 in
        last_line ← last_item (rsplit1 newline txt);
        m ← match re_match_digits last_line with
            | Some m => Ok m
            | None => Raise AttributeError
            end;
        n ← int m;
        Ok (txt, (n + 1)%Z)
    | _ => Ok (header, 1%Z)
    end;
  shown ← str step;
  let txt := txt +:+ String newline (shown +:+ ". " +:+ observation state) in
  Ok {| scratchpad := Some [txt]; observation := observation state |}.

End Edge.

(** ** [session.py] *)

Module Session.

(** A Playwright page, as far as the sources look at it. *)
Record Page : Type := mkPage {
  page_id : nat;
  url : string
}.

Record SessionInfo : Type := mkSessionInfo {
  session_id : string;
  page : option Page;
  graph : nat;
  status : string;
  current_query : option string;
  result : option string;
  error : option string;
  current_step : option Z;
  current_action : option string;
  created_at : Z;
  last_accessed : Z;
  timeout_minutes : Z
}.

(** [SessionInfo(session_id=..., page=..., graph=..., timeout_minutes=...)]:
    the two [datetime.now] defaults are two readings of the clock. *)
Definition new_session (sid : string) (pg : option Page) (g : nat)
    (timeout : Z) (now_created now_accessed : Z) : SessionInfo :=
  {| session_id := sid; page := pg; graph := g;
     status := "active";
     current_query := None; result := None; error := None;
     current_step := None; current_action := None;
     created_at := now_created; last_accessed := now_accessed;
     timeout_minutes := timeout |}.

Definition set_last_accessed (t : Z) (s : SessionInfo) : SessionInfo :=
  {| session_id := session_id s; page := page s; graph := graph s;
     status := status s;
     current_query := current_query s; result := result s; error := error s;
     current_step := current_step s; current_action := current_action s;
     created_at := created_at s; last_accessed := t;
     timeout_minutes := timeout_minutes s |}.

Definition set_status (v : string) (s : SessionInfo) : SessionInfo :=
  {| session_id := session_id s; page := page s; graph := graph s;
     status := v;
     current_query := current_query s; result := result s; error := error s;
     current_step := current_step s; current_action := current_action s;
     created_at := created_at s; last_accessed := last_accessed s;
     timeout_minutes := timeout_minutes s |}.

Definition set_current_query (v : option string) (s : SessionInfo)
  : SessionInfo :=
  {| session_id := session_id s; page := page s; graph := graph s;
     status := status s;
     current_query := v; result := result s; error := error s;
     current_step := current_step s; current_action := current_action s;
     created_at := created_at s; last_accessed := last_accessed s;
     timeout_minutes := timeout_minutes s |}.

Definition set_result (v : option string) (s : SessionInfo) : SessionInfo :=
  {| session_id := session_id s; page := page s; graph := graph s;
     status := status s;
     current_query := current_query s; result := v; error := error s;
     current_step := current_step s; current_action := current_action s;
     created_at := created_at s; last_accessed := last_accessed s;
     timeout_minutes := timeout_minutes s |}.

Definition set_error (v : option string) (s : SessionInfo) : SessionInfo :=
  {| session_id := session_id s; page := page s; graph := graph s;
     status := status s;
     current_query := current_query s; result := result s; error := v;
     current_step := current_step s; current_action := current_action s;
     created_at := created_at s; last_accessed := last_accessed s;
     timeout_minutes := timeout_minutes s |}.

Definition set_current_step (v : option Z) (s : SessionInfo) : SessionInfo :=
  {| session_id := session_id s; page := page s; graph := graph s;
     status := status s;
     current_query := current_query s; result := result s; error := error s;
     current_step := v; current_action := current_action s;
     created_at := created_at s; last_accessed := last_accessed s;
     timeout_minutes := timeout_minutes s |}.

Definition set_current_action (v : option string) (s : SessionInfo)
  : SessionInfo :=
  {| session_id := session_id s; page := page s; graph := graph s;
     status := status s;
     current_query := current_query s; result := result s; error := error s;
     current_step := current_step s; current_action := v;
     created_at := created_at s; last_accessed := last_accessed s;
     timeout_minutes := timeout_minutes s |}.

(** [m] minutes in microseconds. *)
Definition minutes (m : Z) : Z := (m * 60000000)%Z.

(** [timedelta(minutes=m)]: the minutes are brought to days (rounding
    down) and a rest, and more than 999999999 days either way raise
    OverflowError. *)
Definition timedelta_minutes (m : Z) : outcome Z :=
  if (999999999 <? Z.abs (m / 1440))%Z then Raise OverflowError
  else Ok (minutes m).

(** [update_last_accessed], at clock reading [now]. *)
Definition update_last_accessed (now : Z) (s : SessionInfo) : SessionInfo :=
  set_last_accessed now s.

(** [is_expired], at clock reading [now]. *)
Definition is_expired (now : Z) (s : SessionInfo) : outcome bool :=
  limit ← timedelta_minutes (timeout_minutes s);
  Ok (limit <? now - last_accessed s)%Z.

(** The manager's [_sessions] dict, the coroutines it has handed to
    [asyncio.create_task] and not yet run (each a [_cleanup_session] of
    one id), and the pages on which [close()] has been called. The values
    of [_sessions] stand for the session objects themselves: a record
    returned by a lookup and then mutated is written back under its id. *)
Record SessionManager : Type := mkSessionManager {
  _sessions : gmap string SessionInfo;
  created_tasks : list string;
  closed_pages : list Page
}.

Definition with_sessions (m : gmap string SessionInfo) (w : SessionManager)
  : SessionManager :=
  {| _sessions := m; created_tasks := created_tasks w;
     closed_pages := closed_pages w |}.

(** [create_session] once the browser has delivered the page: the fresh
    id, the page and the graph come from outside. *)
Definition create_session (sid : string) (pg : Page) (g : nat) (timeout : Z)
    (now_created now_accessed : Z) (w : SessionManager)
  : SessionManager * SessionInfo :=
  let session := new_session sid (Some pg) g timeout now_created now_accessed in
  (with_sessions (<[sid := session]> (_sessions w)) w, session).

(** [get_session]; [now_check] is the clock read by [is_expired] and
    [now_touch] the one read by [update_last_accessed]. An exception of
    [is_expired] leaves the method before anything is done. *)
Definition get_session (now_check now_touch : Z) (sid : string)
    (w : SessionManager) : SessionManager * outcome SessionInfo :=
  match _sessions w !! sid with
  | None => (w, Raise (HTTPException 404 "Session not found"))
  | Some session =>
      match is_expired now_check session with
      | Raise e => (w, Raise e)
      | Ok true =>
          ({| _sessions := _sessions w;
              created_tasks := created_tasks w ++ [sid];
              closed_pages := closed_pages w |},
           Raise (HTTPException 404 "Session expired"))
      | Ok false =>
          let session := update_last_accessed now_touch session in
          (with_sessions (<[sid := session]> (_sessions w)) w, Ok session)
      end
  end.

(** [close_session] has three parts, separated by the [await] on the page:
    the lookup under the lock, the closing of the page (an exception of
    which is logged and dropped), and the [del] under the lock. *)
Definition close_page (session : SessionInfo) (w : SessionManager)
  : SessionManager :=
  match page session with
  | Some pg => {| _sessions := _sessions w;
                  created_tasks := created_tasks w;
                  closed_pages := closed_pages w ++ [pg] |}
  | None => w
  end.

Definition del_session (sid : string) (w : SessionManager)
  : outcome SessionManager :=
  match _sessions w !! sid with
  | Some _ => Ok (with_sessions (delete sid (_sessions w)) w)
  | None => Raise KeyError
  end.

(** [close_session] when nothing else runs at its [await]. *)
Definition close_session (sid : string) (w : SessionManager)
  : SessionManager * outcome bool :=
  match _sessions w !! sid with
  | None => (w, Ok false)
  | Some session =>
      let w1 := close_page session w in
      match del_session sid w1 with
      | Ok w2 => (w2, Ok true)
      | Raise e => (w1, Raise e)
      end
  end.

(** [_cleanup_session]: an exception of [close_session] is logged. *)
Definition _cleanup_session (sid : string) (w : SessionManager)
  : SessionManager :=
  fst (close_session sid w).

Definition get_session_count (w : SessionManager) : nat := size (_sessions w).

End Session.

(** ** [models/schemas.py] *)

Module Schemas.

Record QueryRequest : Type := mkQueryRequest {
  question : string;
  max_steps : Z
}.

Record QueryResponse : Type := mkQueryResponse {
  session_id : string;
  status : string;
  answer : option string;
  error : option string;
  current_step : option Z;
  current_action : option string
}.

End Schemas.

(** ** [api/routes.py] *)

Module Routes.
Import PyStr Session.

(** *** Rendering of [f"{action}: {action_input}"] *)

Definition quote1 : ascii := "039"%char.
Definition quote2 : ascii := "034"%char.
Definition backslash : ascii := "092"%char.

Definition hex_digit (n : N) : ascii :=
  if (n <? 10)%N then ascii_of_N (48 + n) else ascii_of_N (87 + n).

(** ["%0{width}x" % n] *)
Fixpoint hex (width : nat) (n : N) : string :=
  match width with
  | O => EmptyString
  | S w => hex w (n / 16) +:+ String (hex_digit (n mod 16)) EmptyString
  end.

(** One character of [repr(s)], inside the quotes [q]: the quote and
    the backslash are escaped, tab, line feed and carriage return are
    written with their letters, a character that is not printable with
    its code in hexadecimal, and a printable one stays as it is. *)
Definition repr_char (q : ascii) (c : string) : string :=
  let n := code_point c in
  if String.eqb c (String q EmptyString)
     || String.eqb c (String backslash EmptyString)
  then String backslash c
  else if (n =? 9)%N then String backslash "t"
  else if (n =? 10)%N then String backslash "n"
  else if (n =? 13)%N then String backslash "r"
  else if isprintable n then c
  else if (n <? 256)%N then String backslash (String "x" (hex 2 n))
  else if (n <? 65536)%N then String backslash (String "u" (hex 4 n))
  else String backslash (String "U" (hex 8 n)).

(** [repr(s)] for a [str]: in double quotes when [s] has a single quote
    and no double one, in single quotes otherwise. *)
Definition repr_str (s : string) : string :=
  let q := if mem quote1 s && negb (mem quote2 s) then quote2 else quote1 in
  String q
    (cat (map (repr_char q) (characters (String.length s) s))
       +:+ String q EmptyString).

Fixpoint join (sep : string) (l : list string) : string :=
  match l with
  | [] => EmptyString
  | [x] => x
  | x :: l' => x +:+ sep +:+ join sep l'
  end.

(** [str(l)] for a list of [str]. *)
Definition str_list (l : list string) : string :=
  "[" +:+ join ", " (map repr_str l) +:+ "]".

Definition format_action (action : option string) : string :=
  match action with
  | None => "None"
  | Some a => a
  end.

Definition format_args (action_input : Nodes.Args) : string :=
  match action_input with
  | Nodes.ArgsNone => "None"
  | Nodes.ArgsList l => str_list l
  | Nodes.ArgsStr s => s
  end.

(** *** The decision stream *)

(** What [event["agent"]] holds: the agent node's output, of which the
    loop reads the key ["prediction"] (absent or empty: [None]). *)
Record AgentOutput : Type := mkAgentOutput {
  prediction : option Nodes.Prediction
}.

(** One event of [graph.astream]: a dict from node names to outputs, of
    which the loop reads the key ["agent"] ([None]: the key is absent). *)
Record Event : Type := mkEvent {
  agent : option AgentOutput
}.

(** What one [await] on the stream delivers: an event, or an exception
    whose [str] is [msg]. The end of the list is the end of the stream. *)
Inductive Item : Type :=
| Yield (event : Event)
| Fail (msg : string).

(** [action_input[0] if action_input else None] *)
Definition first_arg (action_input : Nodes.Args) : option string :=
  match action_input with
  | Nodes.ArgsNone => None
  | Nodes.ArgsList [] => None
  | Nodes.ArgsList (a :: _) => Some a
  | Nodes.ArgsStr EmptyString => None
  | Nodes.ArgsStr s => Some (first_char s)
  end.

(** How one pass through the body of the [async for] ends. *)
Inductive Control : Type :=
| Continue (step_count : Z)
| Break (final_answer : option string)
| Raised (msg : string).

(** [str(e)] of the ValueError that the conversion of an integer of more
    digits than the limit raises. *)
Definition max_str_digits_message : string :=
  "Exceeds the limit (4300 digits) for integer string conversion; " +:+
  "use sys.set_int_max_str_digits() to increase the limit".

(** [str(e)] of what line 88 raises: the Exception with the message
    [f"Max steps ({max_steps}) exceeded"], or, when the bound has more
    digits than the limit (the sign is not counted), the ValueError of
    the conversion in that f-string. *)
Definition max_steps_message (max_steps : Z) : string :=
  match Edge.str (Z.abs max_steps) with
  | Ok _ => "Max steps (" +:+ of_int max_steps +:+ ") exceeded"
  | Raise _ => max_str_digits_message
  end.

Definition none_not_iterable : string :=
  "argument of type 'NoneType' is not iterable".

(** Lines 80 and 81. *)
Definition update_progress (step_count : Z) (action : option string)
    (action_input : Nodes.Args) (session : SessionInfo) : SessionInfo :=
  set_current_action
    (Some (format_action action +:+ ": " +:+ format_args action_input))
    (set_current_step (Some step_count) session).

(** The body of the [async for], lines 71 to 88. *)
Definition loop_body (max_steps : Z) (step_count : Z) (event : Event)
    (session : SessionInfo) : SessionInfo * Control :=
  match agent event with
  | None => (session, Continue step_count)
  | Some out =>
      let step_count := (step_count + 1)%Z in
      let action := Nodes.action <$> prediction out in
      let action_input :=
        match prediction out with
        | Some pred => Nodes.args pred
        | None => Nodes.ArgsNone
        end in
      let session := update_progress step_count action action_input session in
      match action with
      | None => (session, Raised none_not_iterable)
      | Some a =>
          if contains "ANSWER" a then (session, Break (first_arg action_input))
          else if (max_steps <? step_count)%Z
               then (session, Raised (max_steps_message max_steps))
               else (session, Continue step_count)
      end
  end.

(** Lines 90 and 91. *)
Definition complete (final_answer : option string) (session : SessionInfo)
  : SessionInfo :=
  set_result final_answer (set_status "completed" session).

(** The [except] branch, lines 94 and 95. *)
Definition fail (msg : string) (session : SessionInfo) : SessionInfo :=
  set_error (Some msg) (set_status "error" session).

(** A running [process_query]: its request, its local [step_count] and
    what its stream has still to deliver. *)
Record Task : Type := mkTask {
  request : Schemas.QueryRequest;
  step_count : Z;
  stream : list Item
}.

(** [process_query] from one [await] on the stream to the next one, or to
    its end ([None]). *)
Definition task_step (t : Task) (session : SessionInfo)
  : SessionInfo * option Task :=
  match stream t with
  | [] => (complete None session, None)
  | Fail msg :: _ => (fail msg session, None)
  | Yield event :: rest =>
      match loop_body (Schemas.max_steps (request t)) (step_count t) event session with
      | (session, Continue n) =>
          (session, Some {| request := request t; step_count := n; stream := rest |})
      | (session, Break final_answer) => (complete final_answer session, None)
      | (session, Raised msg) => (fail msg session, None)
      end
  end.

(** [process_query] run from a given point to its end with nothing else
    touching the session. *)
Fixpoint process_query_from (max_steps : Z) (step_count : Z)
    (items : list Item) (session : SessionInfo) : SessionInfo :=
  match items with
  | [] => complete None session
  | Fail msg :: _ => fail msg session
  | Yield event :: rest =>
      match loop_body max_steps step_count event session with
      | (session, Continue n) => process_query_from max_steps n rest session
      | (session, Break final_answer) => complete final_answer session
      | (session, Raised msg) => fail msg session
      end
  end.

Definition process_query (req : Schemas.QueryRequest) (items : list Item)
    (session : SessionInfo) : SessionInfo :=
  process_query_from (Schemas.max_steps req) 0 items session.

(** Lines 51 to 54 of [query_agent]. *)
Definition start_query (question : string) (session : SessionInfo)
  : SessionInfo :=
  set_error None
    (set_result None
       (set_current_query (Some question)
          (set_status "processing" session))).

(** The application: the session manager and the tasks handed to
    [background_tasks.add_task], each with the id of its session. *)
Record App : Type := mkApp {
  manager : SessionManager;
  background_tasks : list (string * Task)
}.

(** [query_agent]; [items] is what the stream made by [graph.astream] for
    this request is going to deliver. *)
Definition query_agent (now_check now_touch : Z) (sid : string)
    (req : Schemas.QueryRequest) (items : list Item) (app : App)
  : App * outcome Schemas.QueryResponse :=
  match get_session now_check now_touch sid (manager app) with
  | (w, Raise e) =>
      ({| manager := w; background_tasks := background_tasks app |}, Raise e)
  | (w, Ok session) =>
      let session := start_query (Schemas.question req) session in
      let w := with_sessions (<[sid := session]> (_sessions w)) w in
      let t := {| request := req; step_count := 0; stream := items |} in
      ({| manager := w;
          background_tasks := background_tasks app ++ [(sid, t)] |},
       Ok {| Schemas.session_id := sid;
             Schemas.status := "processing";
             Schemas.answer := None;
             Schemas.error := None;
             Schemas.current_step := None;
             Schemas.current_action := None |})
  end.

(** *** One session object and the runs of [process_query] that hold it *)

Record Obj : Type := mkObj {
  record : SessionInfo;
  running : list Task
}.

Definition put_task (i : nat) (t : option Task) (l : list Task) : list Task :=
  match t with
  | Some t' => <[i := t']> l
  | None => delete i l
  end.

(** What can happen to a session object: a lookup that finds it alive
    touches it, a query submitted to it resets it and starts a run, and a
    run that is at an [await] goes on to its next one. *)
Inductive step : Obj -> Obj -> Prop :=
| step_lookup (o : Obj) (now_check now_touch : Z) :
    is_expired now_check (record o) = Ok false ->
    step o {| record := update_last_accessed now_touch (record o);
              running := running o |}
| step_query (o : Obj) (now_check now_touch : Z)
    (req : Schemas.QueryRequest) (items : list Item) :
    is_expired now_check (record o) = Ok false ->
    step o {| record := start_query (Schemas.question req)
                          (update_last_accessed now_touch (record o));
              running := running o ++
                [{| request := req; step_count := 0; stream := items |}] |}
| step_task (o : Obj) (i : nat) (t : Task) :
    running o !! i = Some t ->
    step o {| record := fst (task_step t (record o));
              running := put_task i (snd (task_step t (record o))) (running o) |}.

(** The same, for a client that submits a query to the session only when
    no run of an earlier one is left. *)
Inductive serial_step : Obj -> Obj -> Prop :=
| serial_lookup (o : Obj) (now_check now_touch : Z) :
    is_expired now_check (record o) = Ok false ->
    serial_step o {| record := update_last_accessed now_touch (record o);
                     running := running o |}
| serial_query (o : Obj) (now_check now_touch : Z)
    (req : Schemas.QueryRequest) (items : list Item) :
    running o = [] ->
    is_expired now_check (record o) = Ok false ->
    serial_step o {| record := start_query (Schemas.question req)
                                 (update_last_accessed now_touch (record o));
                     running :=
                       [{| request := req; step_count := 0; stream := items |}] |}
| serial_task (o : Obj) (i : nat) (t : Task) :
    running o !! i = Some t ->
    serial_step o {| record := fst (task_step t (record o));
                     running := put_task i (snd (task_step t (record o))) (running o) |}.

(** A session object as [create_session] makes it. *)
Definition created (o : Obj) : Prop :=
  exists sid pg g timeout now_created now_accessed,
    o = {| record := new_session sid pg g timeout now_created now_accessed;
           running := [] |}.

Definition reachable (o : Obj) : Prop :=
  exists o0, created o0 /\ rtc step o0 o.

Definition serial_reachable (o : Obj) : Prop :=
  exists o0, created o0 /\ rtc serial_step o0 o.

Definition terminal (st : string) : Prop :=
  st = "completed" \/ st = "error".

End Routes.

(** ** The specification's own wording, for comparison *)

Module Spec.
Import PyStr.

(** *** Whitespace, and what stripping a text of it means *)

(** [s] is made of whitespace characters and of nothing else (it may be
    empty). *)
Definition blank (s : string) : Prop :=
  exists ts, Forall (fun t => In t whitespace) ts /\ s = cat ts.

Definition starts_blank (s : string) : Prop :=
  exists t r, In t whitespace /\ s = t +:+ r.

Definition ends_blank (s : string) : Prop :=
  exists t r, In t whitespace /\ s = r +:+ t.

(** [body] is [text] without the whitespace at its end. *)
Definition rstripped (text body : string) : Prop :=
  exists trail, text = body +:+ trail /\ blank trail /\ ~ ends_blank body.

(** [core] is [body] without the whitespace at its start. *)
Definition lstripped (body core : string) : Prop :=
  exists lead, body = lead +:+ core /\ blank lead /\ ~ starts_blank core.

(** [core] is [text] without the whitespace around it. *)
Definition stripped (text core : string) : Prop :=
  exists body, rstripped text body /\ lstripped body core.

(** [s] starts with [p]. *)
Definition starts_with (p s : string) : Prop := exists rest, s = p +:+ rest.

(** [line] is the last line of [txt]. *)
Definition is_last_line (txt line : string) : Prop :=
  mem Edge.newline line = false /\
  (txt = line \/ exists before, txt = before +:+ String Edge.newline line).

(** [line] is the last line of [text] once [text] is stripped of the
    whitespace around it. *)
Definition last_line_stripped (text line : string) : Prop :=
  exists core, stripped text core /\ is_last_line core line.

(** [line] is the last line of [text] that is not blank: a whole line of
    [text], not blank, with nothing but blank lines after it. *)
Definition last_nonblank_line (text line : string) : Prop :=
  exists before after,
    text = before +:+ line +:+ after /\
    (before = EmptyString \/
     exists b, before = b +:+ String Nodes.newline EmptyString) /\
    (after = EmptyString \/ exists a, after = String Nodes.newline a) /\
    blank after /\
    mem Nodes.newline line = false /\
    ~ blank line.

(** *** The parser as section 4.3 words it *)

(** "split the remainder on the first whitespace run into [name] and an
    optional remainder string" *)
Fixpoint split_first_whitespace (s : string) : string * option string :=
  match s with
  | EmptyString => (EmptyString, None)
  | String c s' =>
      match match_token whitespace s with
      | Some _ => (EmptyString, Some (lstrip s))
      | None => let '(name, rest) := split_first_whitespace s' in
                (String c name, rest)
      end
  end.

Fixpoint drop_last_if (c : ascii) (s : string) : option string :=
  match s with
  | EmptyString => None
  | String d EmptyString => if Ascii.eqb d c then Some EmptyString else None
  | String d s' => String d <$> drop_last_if c s'
  end.

(** "a single layer of enclosing [[] []] characters" *)
Definition strip_one_layer (piece : string) : string :=
  match piece with
  | String c r =>
      if Ascii.eqb c "["%char then
        match drop_last_if "]"%char r with
        | Some inner => inner
        | None => piece
        end
      else piece
  | EmptyString => piece
  end.

(** The action that section 4.3 describes for a last line
    ["Action: " + block]. *)
Definition parse_block (block : string) : Nodes.Prediction :=
  let '(name, rest) := split_first_whitespace block in
  {| Nodes.action := strip name;
     Nodes.args :=
       match rest with
       | None => Nodes.ArgsNone
       | Some r =>
           Nodes.ArgsList
             (map (fun piece => strip_one_layer (strip piece))
                  (split Nodes.semicolon r))
       end |}.

(** The parser does what section 4.3 describes, on a text whose last
    non-empty line starts with the marker. *)
Definition parse_as_described : Prop :=
  forall text block : string,
    last_nonblank_line text (Nodes.action_prefix +:+ block) ->
    Nodes.parse text = Ok (parse_block block).

(** The parser asks for a retry, as section 4.3 describes, on a text
    whose last non-empty line does not start with the marker. *)
Definition retry_as_described : Prop :=
  forall text line : string,
    last_nonblank_line text line ->
    ~ starts_with Nodes.action_prefix line ->
    Nodes.parse text =
      Ok {| Nodes.action := "retry";
            Nodes.args :=
              Nodes.ArgsStr ("Could not parse LLM Output: " +:+ text) |}.

(** [s] has [sub] inside. *)
Definition mentions (s sub : string) : Prop :=
  exists before after, s = before +:+ sub +:+ after.

Definition head_char (s : string) : option ascii :=
  match s with
  | EmptyString => None
  | String c _ => Some c
  end.

Fixpoint last_char (s : string) : option ascii :=
  match s with
  | EmptyString => None
  | String c EmptyString => Some c
  | String _ s' => last_char s'
  end.

Definition is_bracket (c : ascii) : bool := mem c "[]".

(** Neither end of [s] is a bracket. *)
Definition bare (s : string) : Prop :=
  (forall c, head_char s = Some c -> is_bracket c = false) /\
  (forall c, last_char s = Some c -> is_bracket c = false).

(** *** The scratchpad *)

(** [line] starts with the decimal digits [ds], one at least, and what
    comes after them starts with no decimal digit. *)
Definition begins_with_digits (line : string) (ds : list string) : Prop :=
  exists rest,
    line = cat ds +:+ rest /\ ds <> [] /\
    Forall (fun d => In d digit_tokens) ds /\
    (forall d r, In d digit_tokens -> rest <> d +:+ r).


(** [line] begins with an integer that [int] reads: [n], written with
    no more digits than the limit on the digits of a conversion. *)
Definition begins_with_parsable_int (line : string) (n : Z) : Prop :=
  exists ds,
    begins_with_digits line ds /\ length ds <= Edge.max_str_digits /\
    n = number ds.

(** The numeral of [n] is within that limit. *)
Definition within_limit (n : Z) : Prop :=
  String.length (of_int n) <= Edge.max_str_digits.



(** *** Sessions *)

(** [now - last_accessed > timeout], the timeout in minutes. *)
Definition idle_too_long (now : Z) (session : Session.SessionInfo) : Prop :=
  (now - Session.last_accessed session >
     Session.timeout_minutes session * 60000000)%Z.

(** A number of minutes that [timedelta] takes: between -999999999 days
    and 999999999 days, 23 hours and 59 minutes. *)
Definition timedelta_ok (m : Z) : Prop :=
  (-1439999998560 <= m <= 1439999999999)%Z.

(** Two records that differ at most in [last_accessed]. *)
Definition same_but_last_accessed (s s' : Session.SessionInfo) : Prop :=
  Session.session_id s' = Session.session_id s /\
  Session.page s' = Session.page s /\
  Session.graph s' = Session.graph s /\
  Session.status s' = Session.status s /\
  Session.current_query s' = Session.current_query s /\
  Session.result s' = Session.result s /\
  Session.error s' = Session.error s /\
  Session.current_step s' = Session.current_step s /\
  Session.current_action s' = Session.current_action s /\
  Session.created_at s' = Session.created_at s /\
  Session.timeout_minutes s' = Session.timeout_minutes s.

(** Two records that differ at most in [current_step] and
    [current_action]. *)
Definition same_but_progress (s s' : Session.SessionInfo) : Prop :=
  Session.session_id s' = Session.session_id s /\
  Session.page s' = Session.page s /\
  Session.graph s' = Session.graph s /\
  Session.status s' = Session.status s /\
  Session.current_query s' = Session.current_query s /\
  Session.result s' = Session.result s /\
  Session.error s' = Session.error s /\
  Session.created_at s' = Session.created_at s /\
  Session.last_accessed s' = Session.last_accessed s /\
  Session.timeout_minutes s' = Session.timeout_minutes s.

(** What section 4.1 says of a lookup of an expired session. *)
Definition expired_lookup_as_described : Prop :=
  forall (now_check now_touch : Z) (sid : string)
         (w : Session.SessionManager) (session : Session.SessionInfo),
    Session._sessions w !! sid = Some session ->
    idle_too_long now_check session ->
    let r := Session.get_session now_check now_touch sid w in
    r.2 = Raise (HTTPException 404 "Session expired") /\
    Session._sessions r.1 !! sid = None /\
    In sid (Session.created_tasks r.1).

(** What is said of a lookup of a session that is present and not
    expired: it returns the record, touched and otherwise as it was. *)
Definition live_lookup_as_described : Prop :=
  forall (now_check now_touch : Z) (sid : string)
         (w : Session.SessionManager) (session : Session.SessionInfo),
    Session._sessions w !! sid = Some session ->
    ~ idle_too_long now_check session ->
    let r := Session.get_session now_check now_touch sid w in
    exists session',
      r.2 = Ok session' /\
      Session.last_accessed session' = now_touch /\
      same_but_last_accessed session session'.

(** *** The engine *)

(** The stream delivers this item as an event, and the event is not an
    answer: it has no ["agent"] key, or its prediction names an action
    without ["ANSWER"] in it. *)
Definition no_answer (item : Routes.Item) : Prop :=
  match item with
  | Routes.Yield event =>
      match Routes.agent event with
      | None => True
      | Some out =>
          match Routes.prediction out with
          | Some pred => contains "ANSWER" (Nodes.action pred) = false
          | None => False
          end
      end
  | Routes.Fail _ => False
  end.

(** The events of the agent node among the items. *)
Fixpoint agent_steps (items : list Routes.Item) : Z :=
  match items with
  | [] => 0
  | Routes.Yield event :: rest =>
      match Routes.agent event with
      | Some _ => 1 + agent_steps rest
      | None => agent_steps rest
      end
  | Routes.Fail _ :: rest => agent_steps rest
  end.




(** "exactly one is set" *)
Definition exactly_one_set (session : Session.SessionInfo) : Prop :=
  (is_Some (Session.result session) /\ Session.error session = None) \/
  (Session.result session = None /\ is_Some (Session.error session)).

(** What section 3 says of [result] and [error] in a terminal record. *)
Definition payload_as_described : Prop :=
  forall o : Routes.Obj,
    Routes.reachable o ->
    Routes.terminal (Session.status (Routes.record o)) ->
    exactly_one_set (Routes.record o).

(** What a session object looks like between the steps of a client that
    keeps to one query at a time: either no run is left and the record is
    fresh or terminal, or one run is left and the record is processing. *)
Definition settled (o : Routes.Obj) : Prop :=
  let s := Routes.record o in
  (Routes.running o = [] /\
   ((Session.status s = "active" /\
     Session.result s = None /\ Session.error s = None) \/
    (Session.status s = "completed" /\ Session.error s = None) \/
    (Session.status s = "error" /\
     is_Some (Session.error s) /\ Session.result s = None))) \/
  (exists t, Routes.running o = [t] /\
     Session.status s = "processing" /\
     Session.result s = None /\ Session.error s = None).

(** What sections 4.2 and 8 say of a query submitted to a session that is
    processing: it is refused and the record is left as it was. *)
Definition second_query_as_described : Prop :=
  forall (now_check now_touch : Z) (sid : string)
         (req : Schemas.QueryRequest) (items : list Routes.Item)
         (app : Routes.App) (session : Session.SessionInfo),
    Session._sessions (Routes.manager app) !! sid = Some session ->
    Session.status session = "processing" ->
    ~ idle_too_long now_check session ->
    let r := Routes.query_agent now_check now_touch sid req items app in
    (exists e, r.2 = Raise e) /\
    exists session',
      Session._sessions (Routes.manager r.1) !! sid = Some session' /\
      Session.status session' = Session.status session /\
      Session.current_query session' = Session.current_query session /\
      Session.result session' = Session.result session /\
      Session.error session' = Session.error session /\
      Session.current_step session' = Session.current_step session /\
      Session.current_action session' = Session.current_action session.

End Spec.

(** ** Sample data *)

Module Examples.
Import Session Routes.

Definition a_page : Page := {| page_id := 1; url := "https://www.duckduckgo.com" |}.

(** A session created at time 0 with a timeout of one minute. *)
Definition short_session : SessionInfo :=
  new_session "s1" (Some a_page) 0 1 0 0.

Definition one_session : SessionManager :=
  {| _sessions := {[ "s1" := short_session ]};
     created_tasks := [];
     closed_pages := [] |}.

(** 61 minutes, in microseconds. *)
Definition after_61_minutes : Z := minutes 61.

(** The agent's event with the given prediction. *)
Definition agent_event (action : string) (args : Nodes.Args) : Item :=
  Yield {| agent := Some {| prediction :=
    Some {| Nodes.action := action; Nodes.args := args |} |} |}.

Definition a_request (q : string) : Schemas.QueryRequest :=
  {| Schemas.question := q; Schemas.max_steps := 150 |}.

(** The session after a first query has been submitted and its run has
    taken three steps. *)
Definition busy_session : SessionInfo :=
  update_progress 3 (Some "Click") (Nodes.ArgsList ["14"])
    (start_query "first question" short_session).

Definition busy_app : App :=
  {| manager := {| _sessions := {[ "s1" := busy_session ]};
                   created_tasks := [];
                   closed_pages := [] |};
     background_tasks :=
       [("s1", {| request := a_request "first question"; step_count := 3;
                  stream := [agent_event "ANSWER" (Nodes.ArgsList ["42"])] |})] |}.

Definition fresh : Obj := {| record := short_session; running := [] |}.

(** One query, answered without arguments. *)
Definition answered_bare : Obj :=
  {| record :=
       complete None
         (update_progress 1 (Some "ANSWER") Nodes.ArgsNone
            (start_query "q" (update_last_accessed 5 short_session)));
     running := [] |}.

(** Two queries at once: the first run fails, the second one answers. *)
Definition answered_after_failure : Obj :=
  {| record :=
       complete (Some "x")
         (update_progress 1 (Some "ANSWER") (Nodes.ArgsList ["x"])
            (fail "boom"
               (start_query "q2"
                  (update_last_accessed 6
                     (start_query "q1"
                        (update_last_accessed 5 short_session))))));
     running := [] |}.

(** A run of 151 steps none of which answers. *)
Definition clicks_151 : list Item :=
  repeat (agent_event "Click" (Nodes.ArgsList ["14"])) 151.

End Examples.

(** ** [agents/edge.py]: [select_tool], and the scratchpad over a run *)

Module Router.
Import PyStr.

(** [langgraph.graph.END] *)
Definition END : string := "__end__".

(** [select_tool]; [None] is a state without the key ["prediction"]. *)
Definition select_tool (prediction : option Nodes.Prediction) : outcome string :=
  match prediction with
  | None => Raise KeyError
  | Some pred =>
      let action := Nodes.action pred in
      if String.eqb action "ANSWER" then Ok END
      else if String.eqb action "retry" then Ok "agent"
      else Ok action
  end.

(** The agent node's [... | StrOutputParser() | parse] followed by the
    conditional edge [select_tool] (graph.py, lines 20 to 22 and 46). *)
Definition route_output (text : string) : outcome string :=
  pred ← Nodes.parse text;
  select_tool (Some pred).

(** The tool nodes of graph.py (lines 39 to 44) put each tool's result
    under ["observation"] and go on to [update_scratchpad]; this is the
    state after the results [observations], one after the other. *)
Fixpoint observe (state : Edge.AgentState) (observations : list string)
  : outcome Edge.AgentState :=
  match observations with
  | [] => Ok state
  | obs :: rest =>
      state' ← Edge.update_scratchpad
                 {| Edge.scratchpad := Edge.scratchpad state;
                    Edge.observation := obs |};
      observe state' rest
  end.

(** The lines ["{k}. {obs}"] for the observations, numbered from [k]. *)
Fixpoint numbered (k : Z) (observations : list string) : string :=
  match observations with
  | [] => EmptyString
  | obs :: rest => Edge.entry k obs +:+ numbered (k + 1) rest
  end.

End Router.

(** ** [agents/nodes.py]: [format_descriptions] *)

Module Descriptions.
Import PyStr.

(** A bounding box, as far as [format_descriptions] reads it; a key that
    is absent (or, for ["ariaLabel"] and ["type"], holds [None]) is
    [None]. *)
Record BBox : Type := mkBBox {
  ariaLabel : option string;
  text : option string;
  type : option string
}.

Definition quote : ascii := "034"%char.

(** The body of the loop for the box of index [i]. *)
Definition label (i : nat) (bbox : BBox) : outcome string :=
  let aria := match ariaLabel bbox with Some a => a | None => EmptyString end in
  t ← match strip aria with
      | EmptyString =>
          match text bbox with
          | Some t => Ok t
          | None => Raise KeyError
          end
      | _ => Ok aria
      end;
  let el_type := match type bbox with Some ty => ty | None => "None" end in
  Ok (of_int (Z.of_nat i) +:+ " (<" +:+ el_type +:+ "/>): " +:+
      String quote (t +:+ String quote EmptyString)).

(** The loop over [enumerate(state["bboxes"])], from index [i] on. *)
Fixpoint labels_from (i : nat) (bboxes : list BBox) : outcome (list string) :=
  match bboxes with
  | [] => Ok []
  | bbox :: rest =>
      l ← label i bbox;
      ls ← labels_from (S i) rest;
      Ok (l :: ls)
  end.

Definition heading : string :=
  String Nodes.newline ("Valid Bounding Boxes:" +:+ String Nodes.newline EmptyString).

(** The value stored under ["bbox_descriptions"]. *)
Definition format_descriptions (bboxes : list BBox) : outcome string :=
  labels ← labels_from 0 bboxes;
  Ok (heading +:+ Routes.join (String Nodes.newline EmptyString) labels).

(** The box has a label to show: an ["ariaLabel"] that is not blank, or
    a ["text"]. *)
Definition describable (bbox : BBox) : Prop :=
  (exists a, ariaLabel bbox = Some a /\ ~ Spec.blank a) \/
  text bbox <> None.

End Descriptions.

(** ** [session.py]: the registry over several operations *)

Module Registry.
Import Session.

(** [get_session] called for the same id once for each pair of clock
    readings; the outcomes are given in the order of the calls. *)
Fixpoint lookups (sid : string) (times : list (Z * Z)) (w : SessionManager)
  : SessionManager * list (outcome SessionInfo) :=
  match times with
  | [] => (w, [])
  | (now_check, now_touch) :: rest =>
      let '(w1, r) := get_session now_check now_touch sid w in
      let '(w2, rs) := lookups sid rest w1 in
      (w2, r :: rs)
  end.

(** [close_session] for each id in turn, what it returns or raises being
    dropped, as [_cleanup_session] and [gather(..., return_exceptions=True)]
    do. *)
Definition close_each (ids : list string) (w : SessionManager) : SessionManager :=
  foldl (fun w sid => _cleanup_session sid w) w ids.

(** The scan of [_cleanup_expired_sessions] over the items of the dict:
    the ids found expired, or the exception of [is_expired] that ends the
    scan; [clock sid] is the reading of the clock when the session [sid]
    is examined. *)
Fixpoint collect_expired (clock : string -> Z)
    (items : list (string * SessionInfo)) : outcome (list string) :=
  match items with
  | [] => Ok []
  | (sid, session) :: rest =>
      expired ← is_expired (clock sid) session;
      ids ← collect_expired clock rest;
      Ok (if expired : bool then sid :: ids else ids)
  end.

(** The order in which a dict is gone through is not modelled: the items
    come in the order of the map. *)
Definition expired_ids (clock : string -> Z) (w : SessionManager)
  : outcome (list string) :=
  collect_expired clock (map_to_list (_sessions w)).

(** One round of [_cleanup_expired_sessions] after its sleep, with nothing
    else running at its [await]s. An exception of the scan is caught and
    logged by the round's [except], before any session is cleaned up. *)
Definition sweep (clock : string -> Z) (w : SessionManager) : SessionManager :=
  match expired_ids clock w with
  | Ok ids => close_each ids w
  | Raise _ => w
  end.

(** [close_all_sessions], as far as the sessions go. The closes that
    [gather] runs side by side call [page.close()] in the order of the ids
    and delete different keys, which gives the state of closing one after
    the other. *)
Definition close_all_sessions (w : SessionManager) : SessionManager :=
  close_each (map_to_list (_sessions w)).*1 w.

(** Each lookup comes at most [limit] after the touch before it, [last]
    being the time of the touch before the first one. *)
Fixpoint in_time (limit last : Z) (times : list (Z * Z)) : Prop :=
  match times with
  | [] => True
  | (now_check, now_touch) :: rest =>
      (now_check - last <= limit)%Z /\ in_time limit now_touch rest
  end.

(** The time of the last touch. *)
Fixpoint last_touch (last : Z) (times : list (Z * Z)) : Z :=
  match times with
  | [] => last
  | (_, now_touch) :: rest => last_touch now_touch rest
  end.

(** The pages of the sessions that satisfy [keep]. *)
Definition pages_where (keep : string -> SessionInfo -> Prop)
    (w : SessionManager) (pg : Page) : Prop :=
  exists sid session,
    _sessions w !! sid = Some session /\ keep sid session /\
    page session = Some pg.

End Registry.

(** ** More sample data *)

Module Samples.
Import Session Routes.

Definition labelled : Descriptions.BBox :=
  {| Descriptions.ariaLabel := Some "Search";
     Descriptions.text := None;
     Descriptions.type := Some "input" |}.

Definition unlabelled : Descriptions.BBox :=
  {| Descriptions.ariaLabel := Some " ";
     Descriptions.text := Some "Sign in";
     Descriptions.type := None |}.

Definition nameless : Descriptions.BBox :=
  {| Descriptions.ariaLabel := None;
     Descriptions.text := None;
     Descriptions.type := Some "a" |}.

(** A second session, created at time 0 with a timeout of 30 minutes. *)
Definition long_session : SessionInfo :=
  new_session "s2" (Some {| page_id := 2; url := "https://www.duckduckgo.com" |})
    0 30 0 0.

Definition two_sessions : SessionManager :=
  {| _sessions := <["s2" := long_session]> {[ "s1" := Examples.short_session ]};
     created_tasks := [];
     closed_pages := [] |}.

Definition empty_manager : SessionManager :=
  {| _sessions := ∅; created_tasks := []; closed_pages := [] |}.

(** A session created at time 0 with a timeout of 1440000000000 minutes,
    which is 1000000000 days. *)
Definition endless_session : SessionInfo :=
  new_session "s9" (Some Examples.a_page) 0 1440000000000 0 0.

Definition endless_manager : SessionManager :=
  {| _sessions := {[ "s9" := endless_session ]};
     created_tasks := [];
     closed_pages := [] |}.

(** A session created at time 0 with a timeout of -1439999998561 minutes,
    which is one minute beyond -999999999 days. *)
Definition overdue_session : SessionInfo :=
  new_session "s8" (Some Examples.a_page) 0 (-1439999998561) 0 0.

Definition overdue_manager : SessionManager :=
  {| _sessions := {[ "s8" := overdue_session ]};
     created_tasks := [];
     closed_pages := [] |}.

(** A box whose label is a no-break space. *)
Definition blank_label : Descriptions.BBox :=
  {| Descriptions.ariaLabel := Some (PyStr.utf8 160);
     Descriptions.text := None;
     Descriptions.type := Some "a" |}.



End Samples.

(** ** Facts about the string methods *)

Module PyStrFacts.
Import PyStr Spec.

Lemma append_nil_r (s : string) : s +:+ "" = s.
Proof. induction s as [|c s IH]; simpl; [reflexivity | now rewrite IH]. Qed.

Lemma append_assoc (s1 s2 s3 : string) :
  (s1 +:+ s2) +:+ s3 = s1 +:+ (s2 +:+ s3).
Proof. induction s1 as [|c s1 IH]; simpl; [reflexivity | now rewrite IH]. Qed.

Lemma mem_append (c : ascii) (s1 s2 : string) :
  mem c (s1 +:+ s2) = mem c s1 || mem c s2.
Proof.
  induction s1 as [|d s1 IH]; simpl; [reflexivity|].
  rewrite IH. now rewrite orb_assoc.
Qed.

Lemma cons_head_nonempty (c : ascii) (l : list string) : cons_head c l <> [].
Proof. destruct l; discriminate. Qed.

Lemma split_limit_nonempty (sep : ascii) (limit : option nat) (s : string) :
  split_limit sep limit s <> [].
Proof.
  destruct s as [|c s]; simpl; [discriminate|].
  destruct (Ascii.eqb c sep).
  - destruct limit as [[|k]|]; discriminate.
  - apply cons_head_nonempty.
Qed.

Lemma last_item_ok {A : Type} (l : list A) :
  l <> [] -> exists x, last_item l = Ok x.
Proof.
  induction l as [|a l IH]; intros Hne; [congruence|].
  destruct l as [|b l].
  - exists a. reflexivity.
  - destruct IH as [x Hx]; [discriminate|]. exists x. exact Hx.
Qed.

Lemma cons_head_length (c : ascii) (l : list string) :
  l <> [] -> length (cons_head c l) = length l.
Proof. destruct l; [congruence | reflexivity]. Qed.

Lemma split_limit_length_le (sep : ascii) (k : nat) (s : string) :
  length (split_limit sep (Some k) s) <= S k.
Proof.
  revert k. induction s as [|c s IH]; intros k; simpl; [lia|].
  destruct (Ascii.eqb c sep).
  - destruct k as [|k]; simpl; [lia|]. specialize (IH k). lia.
  - rewrite cons_head_length by apply split_limit_nonempty. apply IH.
Qed.

Lemma split_limit_no_sep (sep : ascii) (limit : option nat) (s : string) :
  mem sep s = false -> split_limit sep limit s = [s].
Proof.
  induction s as [|c s IH]; simpl; [reflexivity|].
  intros H. apply orb_false_elim in H as [Hc Hs].
  rewrite Ascii.eqb_sym, Hc. rewrite (IH Hs). reflexivity.
Qed.

Lemma split_limit_zero (sep : ascii) (s : string) :
  split_limit sep (Some 0) s = [s].
Proof.
  induction s as [|c s IH]; simpl; [reflexivity|].
  destruct (Ascii.eqb c sep); [reflexivity|]. now rewrite IH.
Qed.

Lemma split_limit_one (sep : ascii) (name rest : string) :
  mem sep name = false ->
  split_limit sep (Some 1) (name +:+ String sep rest) = [name; rest].
Proof.
  induction name as [|c name IH]; simpl.
  - intros _. rewrite Ascii.eqb_refl. now rewrite split_limit_zero.
  - intros H. apply orb_false_elim in H as [Hc Hs].
    rewrite Ascii.eqb_sym, Hc. rewrite (IH Hs). reflexivity.
Qed.

Lemma split_length (sep : ascii) (s : string) :
  length (split sep s) = S (count_char sep s).
Proof.
  unfold split. induction s as [|c s IH]; simpl; [reflexivity|].
  destruct (Ascii.eqb c sep); simpl.
  - now rewrite IH.
  - rewrite cons_head_length by apply split_limit_nonempty. exact IH.
Qed.

Lemma prefix_append (p s : string) : String.prefix p (p +:+ s) = true.
Proof.
  induction p as [|c p IH]; simpl.
  - now destruct s.
  - destruct (ascii_dec c c); [exact IH | congruence].
Qed.

Lemma prefix_split (p s : string) :
  String.prefix p s = true -> s = p +:+ drop (String.length p) s.
Proof.
  revert s. induction p as [|c p IH]; intros s; simpl; [reflexivity|].
  destruct s as [|d s]; simpl; [discriminate|].
  destruct (ascii_dec c d) as [<-|]; [|discriminate].
  intros H. f_equal. exact (IH s H).
Qed.

Lemma drop_append (p s : string) : drop (String.length p) (p +:+ s) = s.
Proof. induction p as [|c p IH]; simpl; [reflexivity | exact IH]. Qed.

Lemma lstrip_head (p : ascii -> bool) (s : string) (c : ascii) :
  head_char (lstrip_with p s) = Some c -> p c = false.
Proof.
  induction s as [|d s IH]; simpl; [discriminate|].
  destruct (p d) eqn:Hd; [exact IH|].
  simpl. intros [= <-]. exact Hd.
Qed.

Lemma rstrip_last (p : ascii -> bool) (s : string) (c : ascii) :
  last_char (rstrip_with p s) = Some c -> p c = false.
Proof.
  induction s as [|d s IH]; simpl; [discriminate|].
  destruct (rstrip_with p s) as [|e r] eqn:Hr.
  - destruct (p d) eqn:Hd; simpl; [discriminate|].
    intros [= <-]. exact Hd.
  - simpl. exact IH.
Qed.

Lemma lstrip_last (p : ascii -> bool) (s : string) (c : ascii) :
  last_char (lstrip_with p s) = Some c -> last_char s = Some c.
Proof.
  induction s as [|d s IH]; simpl; [discriminate|].
  destruct (p d).
  - intros H. specialize (IH H). destruct s; [discriminate | exact IH].
  - simpl. trivial.
Qed.

Lemma last_item_app {A : Type} (l : list A) (x : A) :
  last_item (l ++ [x]) = Ok x.
Proof.
  induction l as [|a l IH]; [reflexivity|].
  simpl. destruct (l ++ [x]) eqn:E; [destruct l; discriminate E | exact IH].
Qed.

Lemma split_append_sep (sep : ascii) (x line : string) :
  mem sep line = false ->
  exists a l, split sep (x +:+ String sep line) = (a :: l) ++ [line].
Proof.
  intros Hl. unfold split. induction x as [|c x (a & l & IH)]; simpl.
  - rewrite Ascii.eqb_refl. rewrite split_limit_no_sep by exact Hl.
    exists EmptyString, []. reflexivity.
  - rewrite IH. destruct (Ascii.eqb c sep).
    + exists EmptyString, (a :: l). reflexivity.
    + exists (String c a), l. reflexivity.
Qed.

Lemma split_last (sep : ascii) (x line : string) :
  mem sep line = false ->
  last_item (split sep (x +:+ String sep line)) = Ok line.
Proof.
  intros Hl. destruct (split_append_sep sep x line Hl) as (a & l & ->).
  apply last_item_app.
Qed.

Lemma strip_with_bare (p : ascii -> bool) (s : string) :
  (forall c, head_char (strip_with p s) = Some c -> p c = false) /\
  (forall c, last_char (strip_with p s) = Some c -> p c = false).
Proof.
  unfold strip_with. split; intros c H.
  - eapply lstrip_head; eauto.
  - eapply rstrip_last. eapply lstrip_last; eauto.
Qed.

Lemma length_append (a b : string) :
  String.length (a +:+ b) = String.length a + String.length b.
Proof. induction a as [|c a IH]; simpl; [reflexivity | now rewrite IH]. Qed.

Lemma append_inv_head (p a b : string) : p +:+ a = p +:+ b -> a = b.
Proof.
  induction p as [|c p IH]; simpl; [trivial|]. intros [= H]. exact (IH H).
Qed.

Lemma append_inv_tail (a b p : string) : a +:+ p = b +:+ p -> a = b.
Proof.
  revert b. induction a as [|c a IH]; intros [|d b]; simpl; intros H.
  - reflexivity.
  - apply (f_equal String.length) in H. simpl in H.
    rewrite length_append in H. lia.
  - apply (f_equal String.length) in H. simpl in H.
    rewrite length_append in H. lia.
  - injection H as -> H. f_equal. exact (IH _ H).
Qed.

(** *** Reversal *)

Lemma srev_append (a b : string) : srev (a +:+ b) = srev b +:+ srev a.
Proof.
  induction a as [|c a IH]; simpl.
  - now rewrite append_nil_r.
  - now rewrite IH, append_assoc.
Qed.

Lemma srev_involutive (s : string) : srev (srev s) = s.
Proof.
  induction s as [|c s IH]; simpl; [reflexivity|].
  rewrite srev_append, IH. reflexivity.
Qed.

Lemma srev_length (s : string) : String.length (srev s) = String.length s.
Proof.
  induction s as [|c s IH]; simpl; [reflexivity|].
  rewrite length_append, IH. simpl. lia.
Qed.

Lemma srev_inj (a b : string) : srev a = srev b -> a = b.
Proof.
  intros H. rewrite <- (srev_involutive a), <- (srev_involutive b).
  now rewrite H.
Qed.

(** *** Characters at the start of a string *)

Lemma after_prefix_spec (p s r : string) :
  after_prefix p s = Some r <-> s = p +:+ r.
Proof.
  revert s. induction p as [|a p IH]; intros s; simpl.
  - split; [now intros [= ->] | now intros ->].
  - destruct s as [|b s]; [split; discriminate|].
    destruct (Ascii.eqb_spec a b) as [->|Hne].
    + rewrite IH. split; [now intros -> | now intros [= ->]].
    + split; [discriminate | intros [= -> _]; congruence].
Qed.

Lemma match_token_some (chars : list string) (s t r : string) :
  match_token chars s = Some (t, r) -> In t chars /\ s = t +:+ r.
Proof.
  induction chars as [|t0 chars IH]; simpl; [discriminate|].
  destruct (after_prefix t0 s) as [r0|] eqn:E.
  - intros [= <- <-]. split; [now left | now apply after_prefix_spec].
  - intros H. destruct (IH H) as [Hin Hs]. split; [now right | exact Hs].
Qed.

Lemma match_token_none (chars : list string) (s : string) :
  match_token chars s = None <->
  forall t r, In t chars -> s <> t +:+ r.
Proof.
  induction chars as [|t0 chars IH]; simpl.
  - split; [intros _ t r [] | reflexivity].
  - destruct (after_prefix t0 s) as [r0|] eqn:E.
    + split; [discriminate|]. intros H. exfalso.
      apply (H t0 r0); [now left | now apply after_prefix_spec].
    + rewrite IH. split.
      * intros H t r [<-|Hin]; [|now apply H].
        intros Hs. apply after_prefix_spec in Hs. congruence.
      * intros H t r Hin. apply H. now right.
Qed.

Lemma append_eq_prefix (t t' r r' : string) :
  t +:+ r = t' +:+ r' ->
  String.prefix t t' = true \/ String.prefix t' t = true.
Proof.
  revert t'. induction t as [|c t IH]; intros t' H.
  - left. now destruct t'.
  - destruct t' as [|d t']; [right; reflexivity|].
    simpl in H. injection H as -> H. simpl.
    destruct (ascii_dec d d); [|congruence]. exact (IH _ H).
Qed.

Lemma prefix_freeb_sound (chars : list string) :
  prefix_freeb chars = true -> prefix_free chars.
Proof.
  unfold prefix_freeb. rewrite forallb_forall. intros H t t' r r' Ht Ht' E.
  pose proof (H t Ht) as H1. rewrite forallb_forall in H1.
  pose proof (H t' Ht') as H2. rewrite forallb_forall in H2.
  specialize (H1 t' Ht'). specialize (H2 t Ht).
  destruct (String.eqb_spec t t') as [|Hne]; [assumption|].
  destruct (String.eqb_spec t' t) as [|_]; [congruence|].
  simpl in H1, H2.
  destruct (append_eq_prefix _ _ _ _ E) as [Hp|Hp]; rewrite Hp in *;
    discriminate.
Qed.

Lemma match_token_hit (chars : list string) (t r : string) :
  prefix_free chars -> In t chars ->
  match_token chars (t +:+ r) = Some (t, r).
Proof.
  intros Hpf Hin.
  destruct (match_token chars (t +:+ r)) as [[t0 r0]|] eqn:E.
  - destruct (match_token_some _ _ _ _ E) as [Hin0 Hs].
    pose proof (Hpf _ _ _ _ Hin Hin0 Hs) as <-.
    now rewrite (append_inv_head _ _ _ Hs).
  - exfalso. exact (proj1 (match_token_none _ _) E t r Hin eq_refl).
Qed.

Lemma nonempty_in (chars : list string) (t : string) :
  nonempty chars -> In t chars -> t <> EmptyString.
Proof.
  intros H Hin. unfold nonempty in H. rewrite List.Forall_forall in H.
  now apply H.
Qed.

Lemma take_tokens_spec (chars : list string) (fuel : nat) :
  forall s ts r,
    take_tokens chars fuel s = (ts, r) ->
    s = cat ts +:+ r /\ Forall (fun t => In t chars) ts.
Proof.
  induction fuel as [|n IH]; intros s ts r; simpl.
  - intros [= <- <-]. split; [reflexivity | constructor].
  - destruct (match_token chars s) as [[t r0]|] eqn:E.
    + destruct (take_tokens chars n r0) as [ts' r'] eqn:E'.
      intros [= <- <-]. destruct (IH _ _ _ E') as [Hs Hall].
      destruct (match_token_some _ _ _ _ E) as [Hin ->].
      split; [|now constructor].
      simpl. now rewrite append_assoc, <- Hs.
    + intros [= <- <-]. split; [reflexivity | constructor].
Qed.

Lemma take_tokens_stops (chars : list string) (fuel : nat) :
  nonempty chars ->
  forall s ts r,
    String.length s <= fuel ->
    take_tokens chars fuel s = (ts, r) ->
    match_token chars r = None.
Proof.
  intros Hne. induction fuel as [|n IH]; intros s ts r Hlen; simpl.
  - intros [= <- <-]. destruct s; [|simpl in Hlen; lia].
    apply match_token_none. intros t r Hin Hs.
    apply (nonempty_in _ _ Hne Hin). destruct t; [reflexivity | discriminate].
  - destruct (match_token chars s) as [[t r0]|] eqn:E.
    + destruct (take_tokens chars n r0) as [ts' r'] eqn:E'.
      intros [= <- <-]. refine (IH _ _ _ _ E').
      destruct (match_token_some _ _ _ _ E) as [Hin ->].
      rewrite length_append in Hlen.
      pose proof (nonempty_in _ _ Hne Hin) as Ht.
      destruct t; [congruence|]. simpl in Hlen. lia.
    + intros [= <- <-]. exact E.
Qed.

Lemma take_tokens_found (chars : list string) (ts : list string) :
  prefix_free chars -> nonempty chars ->
  Forall (fun t => In t chars) ts ->
  forall fuel r,
    match_token chars r = None ->
    String.length (cat ts +:+ r) <= fuel ->
    take_tokens chars fuel (cat ts +:+ r) = (ts, r).
Proof.
  intros Hpf Hne. induction 1 as [|t ts Hin _ IH]; intros fuel r Hr Hlen.
  - simpl. destruct fuel; simpl; [reflexivity | now rewrite Hr].
  - simpl in *. rewrite append_assoc in *.
    pose proof (nonempty_in _ _ Hne Hin) as Ht.
    destruct fuel as [|n].
    + rewrite length_append in Hlen. destruct t; [congruence|].
      simpl in Hlen. lia.
    + simpl. rewrite (match_token_hit _ _ _ Hpf Hin).
      rewrite (IH n r Hr); [reflexivity|].
      rewrite length_append in Hlen. destruct t; [congruence|].
      simpl in Hlen. lia.
Qed.

(** *** The whitespace table *)

Lemma whitespace_nonempty : nonempty whitespace.
Proof. unfold nonempty. rewrite List.Forall_forall. intros t Hin.
  vm_compute in Hin. intuition (subst; discriminate). Qed.

Lemma whitespace_prefix_free : prefix_free whitespace.
Proof. apply prefix_freeb_sound. vm_compute. reflexivity. Qed.

Lemma whitespace_rev_nonempty : nonempty (map srev whitespace).
Proof. unfold nonempty. rewrite List.Forall_forall. intros t Hin.
  vm_compute in Hin. intuition (subst; discriminate). Qed.

Lemma whitespace_rev_prefix_free : prefix_free (map srev whitespace).
Proof. apply prefix_freeb_sound. vm_compute. reflexivity. Qed.

Lemma cat_app (l1 l2 : list string) : cat (l1 ++ l2) = cat l1 +:+ cat l2.
Proof.
  induction l1 as [|x l1 IH]; simpl; [reflexivity|].
  now rewrite IH, append_assoc.
Qed.

Lemma srev_cat (l : list string) : srev (cat l) = cat (rev (map srev l)).
Proof.
  induction l as [|x l IH]; simpl; [reflexivity|].
  rewrite srev_append, IH, cat_app. simpl. now rewrite append_nil_r.
Qed.

Lemma blank_nil : blank "".
Proof. exists []. split; [constructor | reflexivity]. Qed.

Lemma blank_append (a b : string) : blank a -> blank b -> blank (a +:+ b).
Proof.
  intros (ta & Ha & ->) (tb & Hb & ->). exists (ta ++ tb).
  split; [now apply Forall_app | now rewrite cat_app].
Qed.

Lemma lstrip_spec (s : string) : lstripped s (lstrip s).
Proof.
  unfold lstrip.
  destruct (take_tokens whitespace (String.length s) s) as [ts r] eqn:E.
  destruct (take_tokens_spec _ _ _ _ _ E) as [Hs Hall].
  pose proof (take_tokens_stops _ _ whitespace_nonempty _ _ _ (le_n _) E) as Hr.
  exists (cat ts). split; [exact Hs|]. split; [now exists ts|].
  intros (t & r' & Hin & Hr'). cbn [snd] in Hr'.
  exact (proj1 (match_token_none _ _) Hr t r' Hin Hr').
Qed.

Lemma lstrip_unique (body core : string) :
  lstripped body core -> lstrip body = core.
Proof.
  intros (lead & -> & (ts & Hall & ->) & Hc). unfold lstrip.
  rewrite (take_tokens_found whitespace ts whitespace_prefix_free
             whitespace_nonempty Hall); [reflexivity| |lia].
  apply match_token_none. intros t r Hin Hs. apply Hc. now exists t, r.
Qed.

Lemma rstrip_spec (s : string) : rstripped s (rstrip s).
Proof.
  unfold rstrip.
  destruct (take_tokens (map srev whitespace) (String.length s) (srev s))
    as [ts r] eqn:E.
  destruct (take_tokens_spec _ _ _ _ _ E) as [Hs Hall].
  assert (Hlen : String.length (srev s) <= String.length s)
    by (rewrite srev_length; lia).
  pose proof (take_tokens_stops _ _ whitespace_rev_nonempty _ _ _ Hlen E) as Hr.
  cbn [snd]. exists (srev (cat ts)). split; [|split].
  - rewrite <- srev_append, <- Hs. now rewrite srev_involutive.
  - exists (rev (map srev ts)). split; [|apply srev_cat].
    apply Forall_rev, Forall_map.
    eapply Forall_impl; [exact Hall|]. intros t Hin. cbn.
    apply in_map_iff in Hin as (w & <- & Hw). now rewrite srev_involutive.
  - intros (t & r' & Hin & Hr').
    apply (proj1 (match_token_none _ _) Hr (srev t) (srev r')).
    + now apply in_map.
    + rewrite <- srev_append, <- Hr'. now rewrite srev_involutive.
Qed.

Lemma rstrip_unique (text body : string) :
  rstripped text body -> rstrip text = body.
Proof.
  intros (trail & -> & (ts & Hall & ->) & Hb). unfold rstrip.
  rewrite srev_append, srev_cat.
  rewrite (take_tokens_found (map srev whitespace) (rev (map srev ts))
             whitespace_rev_prefix_free whitespace_rev_nonempty).
  - cbn [snd]. apply srev_involutive.
  - apply Forall_rev, Forall_map.
    eapply Forall_impl; [exact Hall|]. intros t Hin.
    exact (in_map srev _ _ Hin).
  - apply match_token_none. intros t r Hin Hs. apply Hb.
    apply in_map_iff in Hin as (w & <- & Hw).
    exists w, (srev r). split; [exact Hw|].
    apply srev_inj. rewrite srev_append, srev_involutive. exact Hs.
  - rewrite <- srev_cat, <- srev_append, srev_length. lia.
Qed.

Lemma strip_spec (s : string) : stripped s (strip s).
Proof. exists (rstrip s). split; [apply rstrip_spec | apply lstrip_spec]. Qed.

Lemma strip_unique (text core : string) : stripped text core -> strip text = core.
Proof.
  intros (body & Hr & Hl). unfold strip.
  rewrite (rstrip_unique _ _ Hr). now apply lstrip_unique.
Qed.

End PyStrFacts.

(** ** The action parser *)

Module NodesFacts.
Import PyStr Spec Nodes PyStrFacts.

Lemma last_line_ok (text : string) : exists line, last_line text = Ok line.
Proof. apply last_item_ok, split_limit_nonempty. Qed.

Lemma is_last_line_exists (s : string) : exists line, is_last_line s line.
Proof.
  induction s as [|c s (line & Hn & Hs)].
  - exists "". split; [reflexivity | now left].
  - destruct Hs as [->|[before ->]].
    + destruct (Ascii.eqb_spec c Edge.newline) as [->|Hne].
      * exists line. split; [exact Hn|]. right. now exists "".
      * exists (String c line). split; [|now left].
        change (Ascii.eqb Edge.newline c || mem Edge.newline line = false).
        rewrite Hn, orb_false_r. apply Ascii.eqb_neq. congruence.
    + exists line. split; [exact Hn|]. right. now exists (String c before).
Qed.

Lemma is_last_line_found (core line : string) :
  is_last_line core line -> last_item (split newline core) = Ok line.
Proof.
  intros [Hn [->|[before ->]]].
  - unfold split. now rewrite split_limit_no_sep.
  - now apply split_last.
Qed.

(** [text.strip().split("\n")[-1]] is the last line of the stripped
    text, and nothing else is. *)
Lemma last_line_stripped_iff (text line : string) :
  last_line_stripped text line <-> last_line text = Ok line.
Proof.
  unfold last_line. split.
  - intros (core & Hc & Hl). rewrite (strip_unique _ _ Hc).
    now apply is_last_line_found.
  - intros H. exists (strip text). split; [apply strip_spec|].
    destruct (is_last_line_exists (strip text)) as [line' Hl].
    rewrite (is_last_line_found _ _ Hl) in H. now injection H as <-.
Qed.

Lemma last_line_stripped_exists (text : string) :
  exists line, last_line_stripped text line.
Proof.
  destruct (last_line_ok text) as [line Hl]. exists line.
  now apply last_line_stripped_iff.
Qed.

Lemma starts_with_iff (p s : string) :
  starts_with p s <-> startswith p s = true.
Proof.
  split.
  - intros [rest ->]. apply prefix_append.
  - intros H. eexists. now apply prefix_split.
Qed.

Lemma blank_lstrip (s : string) : blank s -> lstrip s = EmptyString.
Proof.
  intros Hb. apply lstrip_unique. exists s.
  split; [now rewrite append_nil_r|]. split; [exact Hb|].
  intros (t & r & Hin & Hs).
  apply (nonempty_in _ _ whitespace_nonempty Hin).
  destruct t; [reflexivity | discriminate].
Qed.

Lemma blank_strip (s : string) : blank s <-> strip s = EmptyString.
Proof.
  split.
  - intros Hb. apply strip_unique. exists "". split.
    + exists s. split; [reflexivity|]. split; [exact Hb|].
      intros (t & r & Hin & Hs).
      apply (nonempty_in _ _ whitespace_nonempty Hin).
      destruct r; simpl in Hs; [now symmetry | discriminate Hs].
    + exists "". split; [reflexivity|]. split; [apply blank_nil|].
      intros (t & r & Hin & Hs).
      apply (nonempty_in _ _ whitespace_nonempty Hin).
      destruct t; [reflexivity | discriminate].
  - intros H. pose proof (strip_spec s) as (body & Hr & Hl).
    rewrite H in Hl. destruct Hr as (trail & -> & Ht & _).
    destruct Hl as (lead & -> & Hl & _). rewrite append_nil_r.
    now apply blank_append.
Qed.

(** Unpacking [split_output] cannot fail: [split(" ", 1)] gives one or two
    pieces. *)
Lemma split_output_shape (s : string) :
  (exists a, split_max space 1 s = [a]) \/
  (exists a b, split_max space 1 s = [a; b]).
Proof.
  unfold split_max.
  pose proof (split_limit_length_le space 1 s) as Hle.
  pose proof (split_limit_nonempty space (Some 1) s) as Hne.
  destruct (split_limit space (Some 1) s) as [|a [|b [|c l]]]; simpl in Hle.
  - congruence.
  - left. eauto.
  - right. eauto.
  - lia.
Qed.

Lemma parse_retry (text line : string) :
  last_line text = Ok line ->
  startswith action_prefix line = false ->
  parse text =
    Ok {| action := "retry";
          args := ArgsStr ("Could not parse LLM Output: " +:+ text) |}.
Proof.
  intros Hl Hp. unfold parse. rewrite Hl. cbn [mbind outcome_bind].
  rewrite Hp. reflexivity.
Qed.

Lemma parse_marked (text block : string) :
  last_line text = Ok (action_prefix +:+ block) ->
  parse text =
    match split_max space 1 block with
    | [a] => Ok {| action := strip a; args := ArgsNone |}
    | [a; b] => Ok {| action := strip a; args := ArgsList (parse_args b) |}
    | _ => Raise ValueError
    end.
Proof.
  intros Hl. unfold parse. rewrite Hl. cbn [mbind outcome_bind].
  unfold startswith. rewrite prefix_append. cbn [negb mbind outcome_bind].
  rewrite drop_append.
  destruct (split_max space 1 block) as [|a [|b [|c l]]]; reflexivity.
Qed.

Lemma not_starts_with (p s : string) :
  ~ starts_with p s -> startswith p s = false.
Proof.
  intros H. destruct (startswith p s) eqn:E; [|reflexivity].
  destruct H. now apply starts_with_iff.
Qed.

(** A line of the text that is taken whole. *)
Lemma whole_line_nonblank (line : string) :
  mem newline line = false ->
  lstrip line <> EmptyString ->
  last_nonblank_line line line.
Proof.
  intros Hn Hl. exists "", "". split; [simpl; now rewrite append_nil_r|].
  split; [now left|]. split; [now left|]. split; [apply blank_nil|].
  split; [exact Hn|]. intros Hb. apply Hl. now apply blank_lstrip.
Qed.

(** C7, as the specification words it, fails: the parser looks at the
    last line of the text after the text has been stripped of the
    whitespace around it, not at the last non-empty line as it stands. On
    the one line [" Action: Click 1"], which starts with a space and not
    with the marker, the parser does not ask for a retry: it returns the
    action ["Click"]. *)
Lemma retry_not_as_described :
  last_nonblank_line " Action: Click 1" " Action: Click 1" /\
  ~ starts_with action_prefix " Action: Click 1" /\
  parse " Action: Click 1" =
    Ok {| action := "Click"; args := ArgsList ["1"] |} /\
  ~ retry_as_described.
Proof.
  assert (Hl : last_nonblank_line " Action: Click 1" " Action: Click 1")
    by (apply whole_line_nonblank; [reflexivity | vm_compute; discriminate]).
  assert (Hs : ~ starts_with action_prefix " Action: Click 1")
    by (intros [rest H]; discriminate H).
  split; [exact Hl|]. split; [exact Hs|]. split; [reflexivity|].
  intros H. specialize (H _ _ Hl Hs). vm_compute in H. discriminate H.
Qed.

(** C7, amended. The parser is total: on every text it returns a
    prediction and raises nothing. The text, stripped of the whitespace
    around it, has a last line; whenever that line does not start with
    ["Action: "], the prediction is the retry one, and its diagnostic is
    ["Could not parse LLM Output: "] followed by the text as it came. *)
Theorem parse_total (text : string) :
  (exists pred, parse text = Ok pred) /\
  (exists line, last_line_stripped text line) /\
  (forall line,
      last_line_stripped text line ->
      ~ starts_with action_prefix line ->
      parse text =
        Ok {| action := "retry";
              args := ArgsStr ("Could not parse LLM Output: " +:+ text) |} /\
      mentions ("Could not parse LLM Output: " +:+ text) text).
Proof.
  split; [|split].
  - destruct (last_line_ok text) as [line Hl].
    destruct (startswith action_prefix line) eqn:Hp.
    + apply prefix_split in Hp.
      rewrite Hp in Hl. rewrite (parse_marked _ _ Hl).
      destruct (split_output_shape (drop (String.length action_prefix) line))
        as [[a ->]|[a [b ->]]]; eauto.
    + rewrite (parse_retry _ _ Hl Hp). eauto.
  - apply last_line_stripped_exists.
  - intros line Hl Hp. apply last_line_stripped_iff in Hl.
    apply not_starts_with in Hp.
    split; [exact (parse_retry _ _ Hl Hp)|].
    exists "Could not parse LLM Output: ", "". now rewrite append_nil_r.
Qed.

Lemma parse_total_witness :
  parse "no marker here" =
    Ok {| action := "retry";
          args := ArgsStr "Could not parse LLM Output: no marker here" |} /\
  mentions "Could not parse LLM Output: no marker here" "no marker here".
Proof.
  apply (proj2 (proj2 (parse_total "no marker here")) "no marker here").
  - apply last_line_stripped_iff. reflexivity.
  - intros [rest H]. discriminate H.
Defined.

(** C6, as the specification words it, fails in three ways. The parser
    splits the action from its input at the first space character only (a
    tab does not split): on ["Action: Type<TAB>3"] it gives the action
    ["Type<TAB>3"] without arguments where a split at whitespace would
    give ["Type"] and ["3"]. [strip("[]")] removes every bracket at
    either end of a piece, not one layer: on ["Action: Type [[3]]"] the
    parser gives the argument ["3"] where one layer less would leave
    ["[3]"]. And the marker is looked for in the last line of the
    stripped text: the line ["Action: "] starts with the marker, but
    stripped it is ["Action:"], and the parser asks for a retry. *)
Lemma parse_not_as_described :
  parse "Action: Type [[3]]" =
    Ok {| action := "Type"; args := ArgsList ["3"] |} /\
  parse_block "Type [[3]]" =
    {| action := "Type"; args := ArgsList ["[3]"] |} /\
  parse ("Action: Type" +:+ String tab "3") =
    Ok {| action := "Type" +:+ String tab "3"; args := ArgsNone |} /\
  parse_block ("Type" +:+ String tab "3") =
    {| action := "Type"; args := ArgsList ["3"] |} /\
  last_nonblank_line "Action: " (action_prefix +:+ "") /\
  parse "Action: " =
    Ok {| action := "retry";
          args := ArgsStr "Could not parse LLM Output: Action: " |} /\
  parse_block "" = {| action := ""; args := ArgsNone |} /\
  last_nonblank_line "Action: Type [[3]]" (action_prefix +:+ "Type [[3]]") /\
  ~ parse_as_described.
Proof.
  assert (Hl : last_nonblank_line "Action: Type [[3]]"
                 (action_prefix +:+ "Type [[3]]"))
    by (apply whole_line_nonblank; [reflexivity | vm_compute; discriminate]).
  repeat split; try reflexivity; try exact Hl.
  - apply whole_line_nonblank; [reflexivity | vm_compute; discriminate].
  - intros H. specialize (H "Action: Type [[3]]" "Type [[3]]" Hl).
    vm_compute in H. discriminate H.
Qed.

(** C6, amended. When the last line of the text, the text stripped of
    the whitespace around it, is ["Action: "] followed by [block], the
    parser splits [block] at its first space character. Without a space
    the action is [block], stripped, and args is None. Otherwise the
    action is the part before that space, stripped, and args is the list
    of the pieces of the stripped rest between the [";"], in their order
    and with repetitions, one piece more than there are [";"], each piece
    stripped of whitespace and then of every ["["] and ["]"] at its two
    ends. What [strip] gives is the text without the whitespace around
    it ([strip_spec], [strip_unique]). *)
Theorem parse_action_line (text block : string) :
  last_line_stripped text (action_prefix +:+ block) ->
  (mem space block = false ->
   parse text = Ok {| action := strip block; args := ArgsNone |}) /\
  (forall name rest,
      block = name +:+ String space rest ->
      mem space name = false ->
      exists l,
        parse text = Ok {| action := strip name; args := ArgsList l |} /\
        l = map (fun piece => strip_chars "[]" (strip piece))
                (split semicolon (strip rest)) /\
        length l = S (count_char semicolon (strip rest)) /\
        Forall bare l /\
        Forall2 (fun piece arg =>
                   exists core, stripped piece core /\
                                arg = strip_chars "[]" core)
                (split semicolon (strip rest)) l) /\
  stripped block (strip block).
Proof.
  intros Hl. apply last_line_stripped_iff in Hl.
  rewrite (parse_marked _ _ Hl). split; [|split].
  - intros Hb. unfold split_max. now rewrite split_limit_no_sep.
  - intros name rest -> Hn. unfold split_max.
    rewrite split_limit_one by exact Hn.
    eexists. split; [reflexivity|]. split; [reflexivity|]. split; [|split].
    + unfold parse_args. now rewrite length_map, split_length.
    + unfold parse_args. apply Forall_map, Forall_forall. intros piece _.
      exact (strip_with_bare (fun c => mem c "[]") (strip piece)).
    + apply Forall2_fmap_r, Forall_Forall2_diag, Forall_forall.
      intros piece _. exists (strip piece).
      split; [apply strip_spec | reflexivity].
  - apply strip_spec.
Qed.

Lemma parse_action_line_witness :
  parse "Action: Type 3; hello world" =
    Ok {| action := "Type"; args := ArgsList ["3"; "hello world"] |}.
Proof.
  destruct (proj1 (proj2 (parse_action_line "Action: Type 3; hello world"
                     "Type 3; hello world"
                     (proj2 (last_line_stripped_iff
                               "Action: Type 3; hello world"
                               (action_prefix +:+ "Type 3; hello world"))
                            eq_refl)))
                  "Type" "3; hello world" eq_refl eq_refl)
    as [l [H [-> _]]].
  exact H.
Defined.

End NodesFacts.

(** ** The scratchpad *)

Module EdgeFacts.
Import PyStr Spec Edge PyStrFacts.

Lemma rsplit1_no_sep (sep : ascii) (line : string) :
  mem sep line = false -> rsplit1 sep line = [line].
Proof.
  induction line as [|c line IH]; simpl; [reflexivity|].
  intros H. apply orb_false_elim in H as [Hc Hl].
  rewrite Ascii.eqb_sym, Hc. simpl. now rewrite (IH Hl).
Qed.

Lemma rsplit1_at_last (sep : ascii) (before line : string) :
  mem sep line = false ->
  rsplit1 sep (before +:+ String sep line) = [before; line].
Proof.
  intros Hl. induction before as [|c before IH]; simpl.
  - now rewrite Ascii.eqb_refl, Hl.
  - rewrite mem_append. simpl. rewrite Ascii.eqb_refl.
    rewrite orb_true_r. simpl. rewrite andb_false_r.
    now rewrite IH.
Qed.

Lemma last_line_found (txt line : string) :
  is_last_line txt line -> last_item (rsplit1 newline txt) = Ok line.
Proof.
  intros [Hn [->|[before ->]]].
  - now rewrite rsplit1_no_sep.
  - now rewrite rsplit1_at_last.
Qed.

(** *** The table of the decimal digits *)

Lemma digits_nonempty : nonempty digit_tokens.
Proof.
  unfold nonempty. apply List.Forall_forall. intros t Hin.
  assert (H : forallb (fun t => negb (String.eqb t "")) digit_tokens = true)
    by (vm_compute; reflexivity).
  rewrite forallb_forall in H. specialize (H t Hin).
  intros ->. discriminate H.
Qed.

Lemma digits_prefix_free : prefix_free digit_tokens.
Proof. apply prefix_freeb_sound. vm_compute. reflexivity. Qed.

Lemma in_by_eqb (x : string) (l : list string) :
  existsb (String.eqb x) l = true -> In x l.
Proof.
  intros H. apply existsb_exists in H as (y & Hy & E).
  apply String.eqb_eq in E. now subst.
Qed.

Lemma digits_prefix_found (line : string) (ds : list string) :
  begins_with_digits line ds -> digits_prefix line = ds.
Proof.
  intros (rest & -> & _ & Hall & Hr). unfold digits_prefix.
  rewrite (take_tokens_found digit_tokens ds digits_prefix_free
             digits_nonempty Hall); [reflexivity| |lia].
  apply match_token_none. exact Hr.
Qed.


(** *** Numerals *)

Lemma chars_cons (c : ascii) (s : string) :
  chars (String c s) = String c "" :: chars s.
Proof. reflexivity. Qed.

Lemma chars_cat (s : string) : cat (chars s) = s.
Proof.
  induction s as [|c s IH]; [reflexivity|].
  rewrite chars_cons. cbn [cat fold_right]. fold (cat (chars s)).
  now rewrite IH.
Qed.

Lemma chars_length (s : string) : length (chars s) = String.length s.
Proof.
  induction s as [|c s IH]; [reflexivity|].
  rewrite chars_cons. simpl. now rewrite IH.
Qed.

Lemma numeral_cons (d : string) (m : list string) :
  numeral (d :: m) = to_digit (digit_value d) (numeral m).
Proof. reflexivity. Qed.

Lemma numeral_of_uint (d : Decimal.uint) :
  Forall (fun t => In t digit_tokens) (chars (NilEmpty.string_of_uint d)) /\
  numeral (chars (NilEmpty.string_of_uint d)) = d.
Proof.
  induction d as [|d [IH1 IH2]|d [IH1 IH2]|d [IH1 IH2]|d [IH1 IH2]
                  |d [IH1 IH2]|d [IH1 IH2]|d [IH1 IH2]|d [IH1 IH2]
                  |d [IH1 IH2]|d [IH1 IH2]];
    [split; [constructor | reflexivity]|..];
    cbn [NilEmpty.string_of_uint]; rewrite chars_cons;
    (split;
     [constructor; [apply in_by_eqb; vm_compute; reflexivity | exact IH1]
     |rewrite numeral_cons, IH2;
      match goal with |- context [digit_value ?x] =>
        let v := eval vm_compute in (digit_value x) in
        change (digit_value x) with v
      end; reflexivity]).
Qed.

Lemma no_newline_of_uint (d : Decimal.uint) :
  mem newline (NilEmpty.string_of_uint d) = false.
Proof. induction d; simpl; auto. Qed.

Lemma length_of_uint (d : Decimal.uint) :
  String.length (NilEmpty.string_of_uint d) = Decimal.nb_digits d.
Proof. induction d; simpl; auto. Qed.

Lemma of_int_of_N (n : N) :
  of_int (Z.of_N n) = NilZero.string_of_uint (N.to_uint n).
Proof. destruct n; reflexivity. Qed.

Lemma to_uint_nonnil (n : N) : N.to_uint n <> Decimal.Nil.
Proof.
  destruct n; simpl; [discriminate|].
  apply DecimalPos.Unsigned.to_uint_nonnil.
Qed.

Lemma of_int_as_uint (n : Z) :
  (0 <= n)%Z ->
  of_int n = NilEmpty.string_of_uint (N.to_uint (Z.to_N n)).
Proof.
  intros Hn. rewrite <- (Z2N.id n Hn) at 1. rewrite of_int_of_N.
  pose proof (to_uint_nonnil (Z.to_N n)) as Hnil.
  destruct (N.to_uint (Z.to_N n)); [congruence|reflexivity..].
Qed.

(** The numeral of a number that is not negative is made of decimal
    digits, has no line break in it, and writes that number. *)
Lemma of_int_digits (n : Z) :
  (0 <= n)%Z ->
  Forall (fun t => In t digit_tokens) (chars (of_int n)) /\
  number (chars (of_int n)) = n /\
  chars (of_int n) <> [] /\
  mem newline (of_int n) = false.
Proof.
  intros Hn. rewrite (of_int_as_uint n Hn).
  destruct (numeral_of_uint (N.to_uint (Z.to_N n))) as [H1 H2].
  split; [exact H1|]. split; [|split].
  - unfold number. rewrite H2, DecimalN.Unsigned.of_to. now apply Z2N.id.
  - pose proof (to_uint_nonnil (Z.to_N n)) as Hnil.
    destruct (N.to_uint (Z.to_N n)); [congruence|discriminate..].
  - apply no_newline_of_uint.
Qed.

Lemma number_nonneg (ds : list string) : (0 <= number ds)%Z.
Proof. unfold number. lia. Qed.

Lemma nb_digits_succ (d : Decimal.uint) :
  Decimal.nb_digits d <= Decimal.nb_digits (Decimal.Little.succ d).
Proof. induction d; simpl; lia. Qed.

Lemma of_int_length (k : N) :
  String.length (of_int (Z.of_N k)) =
    Decimal.nb_digits (DecimalPos.Unsigned.to_lu k).
Proof.
  rewrite of_int_as_uint by lia. rewrite N2Z.id, length_of_uint.
  destruct k as [|p]; [reflexivity|].
  apply nb_digits_rev.
Qed.

(** A smaller number has no more digits. *)
Lemma within_limit_mono (j k : Z) :
  (0 <= j <= k)%Z -> within_limit k -> within_limit j.
Proof.
  intros Hjk. unfold within_limit.
  assert (H : String.length (of_int j) <= String.length (of_int k));
    [|lia].
  replace k with (Z.of_N (Z.to_N j + Z.to_N (k - j))) by lia.
  replace j with (Z.of_N (Z.to_N j)) at 1 by lia.
  rewrite !of_int_length.
  induction (Z.to_N (k - j)) as [|m IH] using N.peano_ind.
  - now rewrite N.add_0_r.
  - rewrite N.add_succ_r, DecimalPos.Unsigned.to_lu_succ.
    pose proof (nb_digits_succ
                  (DecimalPos.Unsigned.to_lu (Z.to_N j + m))). lia.
Qed.

Lemma no_digit_after_numeral (obs : string) :
  match_token digit_tokens (". " +:+ obs) = None.
Proof. vm_compute. reflexivity. Qed.

(** The line that [update_scratchpad] writes for the step [k] begins with
    [k]. *)
Lemma numbered_line (k : Z) (obs : string) :
  (0 <= k)%Z -> within_limit k ->
  begins_with_parsable_int (of_int k +:+ ". " +:+ obs) k /\
  mem newline (of_int k) = false.
Proof.
  intros Hk Hlim. destruct (of_int_digits k Hk) as (Hall & Hnum & Hne & Hnl).
  split; [|exact Hnl]. exists (chars (of_int k)). split; [|split].
  - exists (". " +:+ obs). split; [now rewrite chars_cat|].
    split; [exact Hne|]. split; [exact Hall|].
    apply match_token_none, no_digit_after_numeral.
  - rewrite chars_length. exact Hlim.
  - now rewrite Hnum.
Qed.

(** *** [update_scratchpad] *)

Lemma int_ok (ds : list string) :
  length ds <= max_str_digits -> int ds = Ok (number ds).
Proof. intros H. unfold int. now rewrite (proj2 (Nat.ltb_ge _ _) H). Qed.


Lemma str_ok (n : Z) : within_limit n -> str n = Ok (of_int n).
Proof. intros H. unfold str. now rewrite (proj2 (Nat.ltb_ge _ _) H). Qed.


Lemma update_scratchpad_fresh (old : option (list string)) (obs : string) :
  old = None \/ old = Some [] ->
  update_scratchpad {| scratchpad := old; observation := obs |} =
    Ok {| scratchpad := Some [header +:+ entry 1 obs]; observation := obs |}.
Proof. intros [->| ->]; reflexivity. Qed.

Lemma update_scratchpad_matched (txt : string) (more : list string)
    (obs line : string) (ds : list string) :
  last_item (rsplit1 newline txt) = Ok line ->
  begins_with_digits line ds ->
  update_scratchpad {| scratchpad := Some (txt :: more); observation := obs |} =
    (n ← int ds;
     shown ← str (n + 1);
     Ok {| scratchpad := Some [txt +:+ String newline (shown +:+ ". " +:+ obs)];
           observation := obs |}).
Proof.
  intros Hl Hb. unfold update_scratchpad. cbn [scratchpad observation].
  rewrite Hl. cbn [mbind outcome_bind]. unfold re_match_digits.
  rewrite (digits_prefix_found _ _ Hb).
  destruct Hb as (_ & _ & Hne & _). destruct ds as [|d ds]; [congruence|].
  cbn [mbind outcome_bind]. destruct (int (d :: ds)); reflexivity.
Qed.

Lemma update_scratchpad_next (txt : string) (more : list string)
    (obs line : string) (n : Z) :
  last_item (rsplit1 newline txt) = Ok line ->
  begins_with_parsable_int line n ->
  within_limit (n + 1) ->
  update_scratchpad {| scratchpad := Some (txt :: more); observation := obs |} =
    Ok {| scratchpad := Some [txt +:+ entry (n + 1) obs]; observation := obs |}.
Proof.
  intros Hl (ds & Hb & Hlen & ->) Hlim.
  rewrite (update_scratchpad_matched txt more obs line ds Hl Hb).
  rewrite (int_ok ds Hlen). cbn [mbind outcome_bind].
  rewrite (str_ok _ Hlim). reflexivity.
Qed.







End EdgeFacts.

(** ** The session registry *)

Module SessionFacts.
Import Spec Session.

Lemma timedelta_ok_or_not (m : Z) : timedelta_ok m \/ ~ timedelta_ok m.
Proof. unfold timedelta_ok. lia. Qed.

(** [timedelta] takes the minutes from -1439999998560 to 1439999999999
    and no others. *)
Lemma timedelta_minutes_ok (m : Z) :
  timedelta_ok m -> timedelta_minutes m = Ok (minutes m).
Proof.
  unfold timedelta_ok, timedelta_minutes. intros H.
  pose proof (Z.div_mod m 1440 ltac:(lia)) as Hd.
  pose proof (Z.mod_pos_bound m 1440 ltac:(lia)) as Hr.
  destruct (Z.ltb_spec 999999999 (Z.abs (m / 1440))) as [Hlt|_];
    [lia | reflexivity].
Qed.

Lemma timedelta_minutes_overflow (m : Z) :
  ~ timedelta_ok m -> timedelta_minutes m = Raise OverflowError.
Proof.
  unfold timedelta_ok, timedelta_minutes. intros H.
  pose proof (Z.div_mod m 1440 ltac:(lia)) as Hd.
  pose proof (Z.mod_pos_bound m 1440 ltac:(lia)) as Hr.
  destruct (Z.ltb_spec 999999999 (Z.abs (m / 1440))) as [_|Hge];
    [reflexivity | lia].
Qed.

Lemma is_expired_true (now : Z) (session : SessionInfo) :
  timedelta_ok (timeout_minutes session) ->
  idle_too_long now session ->
  is_expired now session = Ok true.
Proof.
  intros Hok He. unfold is_expired. rewrite (timedelta_minutes_ok _ Hok).
  cbn [mbind outcome_bind]. f_equal.
  unfold idle_too_long, minutes in *. apply Z.ltb_lt. lia.
Qed.

Lemma is_expired_false (now : Z) (session : SessionInfo) :
  timedelta_ok (timeout_minutes session) ->
  ~ idle_too_long now session ->
  is_expired now session = Ok false.
Proof.
  intros Hok He. unfold is_expired. rewrite (timedelta_minutes_ok _ Hok).
  cbn [mbind outcome_bind]. f_equal.
  unfold idle_too_long, minutes in *. apply Z.ltb_ge. lia.
Qed.

Lemma is_expired_overflow (now : Z) (session : SessionInfo) :
  ~ timedelta_ok (timeout_minutes session) ->
  is_expired now session = Raise OverflowError.
Proof.
  intros Hok. unfold is_expired.
  now rewrite (timedelta_minutes_overflow _ Hok).
Qed.

Lemma is_expired_raise (now : Z) (session : SessionInfo) (e : exn) :
  is_expired now session = Raise e -> e = OverflowError.
Proof.
  unfold is_expired, timedelta_minutes.
  destruct (999999999 <? Z.abs (timeout_minutes session / 1440))%Z;
    cbn [mbind outcome_bind]; intros [=]. congruence.
Qed.

Lemma idle_or_not (now : Z) (session : SessionInfo) :
  idle_too_long now session \/ ~ idle_too_long now session.
Proof. unfold idle_too_long. lia. Qed.

(** What an answer of [is_expired] tells. *)
Lemma is_expired_inv (now : Z) (session : SessionInfo) (b : bool) :
  is_expired now session = Ok b ->
  timedelta_ok (timeout_minutes session) /\
  (b = true <-> idle_too_long now session).
Proof.
  intros H.
  destruct (timedelta_ok_or_not (timeout_minutes session)) as [Hok|Hno].
  - split; [exact Hok|].
    unfold is_expired in H. rewrite (timedelta_minutes_ok _ Hok) in H.
    cbn [mbind outcome_bind] in H. injection H as <-.
    unfold idle_too_long, minutes. rewrite Z.ltb_lt. lia.
  - rewrite (is_expired_overflow _ _ Hno) in H. discriminate H.
Qed.

Lemma lookup_expired_eq (now_check now_touch : Z) (sid : string)
    (w : SessionManager) (session : SessionInfo) :
  _sessions w !! sid = Some session ->
  is_expired now_check session = Ok true ->
  get_session now_check now_touch sid w =
    ({| _sessions := _sessions w;
        created_tasks := created_tasks w ++ [sid];
        closed_pages := closed_pages w |},
     Raise (HTTPException 404 "Session expired")).
Proof. intros Hs He. unfold get_session. now rewrite Hs, He. Qed.

Lemma lookup_live_eq (now_check now_touch : Z) (sid : string)
    (w : SessionManager) (session : SessionInfo) :
  _sessions w !! sid = Some session ->
  is_expired now_check session = Ok false ->
  get_session now_check now_touch sid w =
    (with_sessions
       (<[sid := update_last_accessed now_touch session]> (_sessions w)) w,
     Ok (update_last_accessed now_touch session)).
Proof. intros Hs He. unfold get_session. now rewrite Hs, He. Qed.

Lemma lookup_overflow_eq (now_check now_touch : Z) (sid : string)
    (w : SessionManager) (session : SessionInfo) :
  _sessions w !! sid = Some session ->
  ~ timedelta_ok (timeout_minutes session) ->
  get_session now_check now_touch sid w = (w, Raise OverflowError).
Proof.
  intros Hs He. unfold get_session.
  now rewrite Hs, (is_expired_overflow _ _ He).
Qed.

Lemma cleanup_removes (sid : string) (w : SessionManager)
    (session : SessionInfo) :
  _sessions w !! sid = Some session ->
  _sessions (_cleanup_session sid w) = delete sid (_sessions w) /\
  created_tasks (_cleanup_session sid w) = created_tasks w /\
  closed_pages (_cleanup_session sid w) =
    closed_pages w ++ match page session with Some pg => [pg] | None => [] end.
Proof.
  intros Hs. unfold _cleanup_session, close_session. rewrite Hs.
  unfold del_session, close_page.
  destruct (page session) as [pg|]; simpl; rewrite Hs; simpl.
  - auto.
  - rewrite app_nil_r. auto.
Qed.

(** C9, as the specification words it, fails in two ways. The lookup of
    an expired session raises "Session expired" and creates the cleanup
    task, but it does not remove the record: the record is still
    registered when the lookup returns. Here the session of one minute's
    timeout is looked up after 61 minutes. And a timeout that [timedelta]
    does not take makes [is_expired] raise: the session created with a
    timeout of -1439999998561 minutes is idle too long at once, and its
    lookup raises OverflowError and creates no task. *)
Lemma expired_lookup_keeps_record :
  let r := get_session Examples.after_61_minutes Examples.after_61_minutes
             "s1" Examples.one_session in
  (r.2 = Raise (HTTPException 404 "Session expired") /\
   _sessions r.1 !! "s1" = Some Examples.short_session /\
   created_tasks r.1 = ["s1"] /\
   closed_pages r.1 = []) /\
  (_sessions Samples.overdue_manager !! "s8" = Some Samples.overdue_session /\
   idle_too_long 1 Samples.overdue_session /\
   get_session 1 1 "s8" Samples.overdue_manager =
     (Samples.overdue_manager, Raise OverflowError)) /\
  ~ expired_lookup_as_described.
Proof.
  assert (Hs : _sessions Examples.one_session !! "s1" = Some Examples.short_session)
    by apply lookup_singleton_eq.
  assert (He : is_expired Examples.after_61_minutes Examples.short_session =
               Ok true) by reflexivity.
  assert (Hi : idle_too_long Examples.after_61_minutes Examples.short_session)
    by (vm_compute; reflexivity).
  split; [|split].
  - cbv zeta. rewrite (lookup_expired_eq _ _ _ _ _ Hs He).
    cbn [fst snd _sessions created_tasks closed_pages].
    split; [reflexivity|]. split; [exact Hs|]. split; reflexivity.
  - split; [apply lookup_singleton_eq|]. split; [vm_compute; reflexivity|].
    apply (lookup_overflow_eq 1 1 "s8" _ Samples.overdue_session).
    + apply lookup_singleton_eq.
    + unfold timedelta_ok. cbn. lia.
  - intros H.
    specialize (H Examples.after_61_minutes Examples.after_61_minutes "s1"
                  Examples.one_session Examples.short_session Hs Hi).
    cbv zeta in H. rewrite (lookup_expired_eq _ _ _ _ _ Hs He) in H.
    cbn [fst snd _sessions] in H.
    destruct H as (_ & H & _). rewrite Hs in H. discriminate H.
Qed.

(** C9, amended. For every registered session that is expired and whose
    timeout is one that [timedelta] takes, a lookup by its id raises the
    404 "Session expired", leaves the registry as it is (the record is
    still registered when the lookup returns) and creates one task that
    is to clean the session up; when that task runs, it closes the
    session's page and removes the record, and no other record. *)
Theorem get_session_expired (now_check now_touch : Z) (sid : string)
    (w : SessionManager) (session : SessionInfo) :
  _sessions w !! sid = Some session ->
  idle_too_long now_check session ->
  timedelta_ok (timeout_minutes session) ->
  let r := get_session now_check now_touch sid w in
  r.2 = Raise (HTTPException 404 "Session expired") /\
  _sessions r.1 = _sessions w /\
  created_tasks r.1 = created_tasks w ++ [sid] /\
  closed_pages r.1 = closed_pages w /\
  let w' := _cleanup_session sid r.1 in
  _sessions w' !! sid = None /\
  (forall sid', sid' <> sid -> _sessions w' !! sid' = _sessions w !! sid') /\
  closed_pages w' =
    closed_pages w ++ match page session with Some pg => [pg] | None => [] end.
Proof.
  intros Hs He Hok. apply (is_expired_true _ _ Hok) in He. cbv zeta.
  rewrite (lookup_expired_eq _ _ _ _ _ Hs He). simpl.
  repeat (split; [reflexivity|]).
  match goal with |- context [_cleanup_session sid ?w1] =>
    destruct (cleanup_removes sid w1 session Hs) as (Hd & _ & Hc)
  end.
  rewrite Hd, Hc. simpl. split; [apply lookup_delete_eq|].
  split; [|reflexivity].
  intros sid' Hne. now apply lookup_delete_ne.
Qed.

Lemma get_session_expired_witness :
  let r := get_session Examples.after_61_minutes Examples.after_61_minutes
             "s1" Examples.one_session in
  r.2 = Raise (HTTPException 404 "Session expired") /\
  _sessions r.1 = _sessions Examples.one_session /\
  created_tasks r.1 = created_tasks Examples.one_session ++ ["s1"] /\
  closed_pages r.1 = closed_pages Examples.one_session /\
  let w' := _cleanup_session "s1" r.1 in
  _sessions w' !! "s1" = None /\
  (forall sid', sid' <> "s1" ->
     _sessions w' !! sid' = _sessions Examples.one_session !! sid') /\
  closed_pages w' =
    closed_pages Examples.one_session ++
      match page Examples.short_session with Some pg => [pg] | None => [] end.
Proof.
  apply (get_session_expired Examples.after_61_minutes
           Examples.after_61_minutes "s1" Examples.one_session
           Examples.short_session).
  - reflexivity.
  - vm_compute. reflexivity.
  - unfold timedelta_ok. cbn. lia.
Defined.

(** C10, as it is worded, fails on a timeout that [timedelta] does not
    take: the session created with a timeout of 1440000000000 minutes is
    present and, one microsecond later, not expired, but its lookup
    raises OverflowError; no record is returned and [last_accessed] is
    not set. *)
Lemma live_lookup_overflows :
  _sessions Samples.endless_manager !! "s9" = Some Samples.endless_session /\
  ~ idle_too_long 1 Samples.endless_session /\
  get_session 1 2 "s9" Samples.endless_manager =
    (Samples.endless_manager, Raise OverflowError) /\
  ~ live_lookup_as_described.
Proof.
  assert (Hs : _sessions Samples.endless_manager !! "s9" =
               Some Samples.endless_session) by apply lookup_singleton_eq.
  assert (Hi : ~ idle_too_long 1 Samples.endless_session)
    by (vm_compute; discriminate).
  assert (Hr : get_session 1 2 "s9" Samples.endless_manager =
               (Samples.endless_manager, Raise OverflowError)).
  { apply (lookup_overflow_eq 1 2 "s9" _ Samples.endless_session Hs).
    unfold timedelta_ok. cbn. lia. }
  split; [exact Hs|]. split; [exact Hi|]. split; [exact Hr|].
  intros H. specialize (H 1%Z 2%Z "s9" _ _ Hs Hi). cbv zeta in H.
  rewrite Hr in H. destruct H as (s' & H & _). discriminate H.
Qed.

(** C10, amended. A lookup of a session that is registered and not
    expired, and whose timeout is one that [timedelta] takes, returns the
    record with [last_accessed] set to the current time and every other
    field as it was; the registry holds that record under the id, every
    other entry is unchanged, and no task is created and no page
    closed. *)
Theorem get_session_live (now_check now_touch : Z) (sid : string)
    (w : SessionManager) (session : SessionInfo) :
  _sessions w !! sid = Some session ->
  ~ idle_too_long now_check session ->
  timedelta_ok (timeout_minutes session) ->
  let r := get_session now_check now_touch sid w in
  exists session',
    r.2 = Ok session' /\
    last_accessed session' = now_touch /\
    same_but_last_accessed session session' /\
    _sessions r.1 !! sid = Some session' /\
    (forall sid', sid' <> sid -> _sessions r.1 !! sid' = _sessions w !! sid') /\
    created_tasks r.1 = created_tasks w /\
    closed_pages r.1 = closed_pages w.
Proof.
  intros Hs He Hok. apply (is_expired_false _ _ Hok) in He. cbv zeta.
  rewrite (lookup_live_eq _ _ _ _ _ Hs He). simpl.
  exists (update_last_accessed now_touch session).
  split; [reflexivity|]. split; [reflexivity|].
  split; [repeat split|].
  split; [apply lookup_insert_eq|].
  split; [|split; reflexivity].
  intros sid' Hne. now apply lookup_insert_ne.
Qed.

Lemma get_session_live_witness :
  let r := get_session 30000000 30000001 "s1" Examples.one_session in
  exists session',
    r.2 = Ok session' /\
    last_accessed session' = 30000001%Z /\
    same_but_last_accessed Examples.short_session session' /\
    _sessions r.1 !! "s1" = Some session' /\
    (forall sid', sid' <> "s1" ->
       _sessions r.1 !! sid' = _sessions Examples.one_session !! sid') /\
    created_tasks r.1 = created_tasks Examples.one_session /\
    closed_pages r.1 = closed_pages Examples.one_session.
Proof.
  apply (get_session_live 30000000 30000001 "s1" Examples.one_session
           Examples.short_session).
  - reflexivity.
  - vm_compute. discriminate.
  - unfold timedelta_ok. cbn. lia.
Defined.

End SessionFacts.

(** ** The query engine *)

Module RoutesFacts.
Import PyStr Spec Session Routes PyStrFacts.

Lemma same_but_progress_refl (s : SessionInfo) : same_but_progress s s.
Proof. repeat split. Qed.

Lemma same_but_progress_trans (s1 s2 s3 : SessionInfo) :
  same_but_progress s1 s2 -> same_but_progress s2 s3 ->
  same_but_progress s1 s3.
Proof.
  unfold same_but_progress. intros H1 H2.
  repeat match goal with H : _ /\ _ |- _ => destruct H end.
  repeat split; congruence.
Qed.

Lemma update_progress_frame (n : Z) (action : option string)
    (action_input : Nodes.Args) (s : SessionInfo) :
  same_but_progress s (update_progress n action action_input s).
Proof. repeat split. Qed.

Lemma loop_body_skip (max_steps n : Z) (event : Event) (s : SessionInfo) :
  agent event = None -> loop_body max_steps n event s = (s, Continue n).
Proof. intros H. unfold loop_body. now rewrite H. Qed.

Lemma loop_body_answer (max_steps n : Z) (event : Event)
    (pred : Nodes.Prediction) (s : SessionInfo) :
  agent event = Some {| prediction := Some pred |} ->
  contains "ANSWER" (Nodes.action pred) = true ->
  loop_body max_steps n event s =
    (update_progress (n + 1) (Some (Nodes.action pred)) (Nodes.args pred) s,
     Break (first_arg (Nodes.args pred))).
Proof.
  intros He Ha. unfold loop_body. rewrite He. cbn [prediction fmap option_fmap option_map].
  now rewrite Ha.
Qed.

Lemma loop_body_no_answer (max_steps n : Z) (event : Event) (out : AgentOutput)
    (s : SessionInfo) :
  no_answer (Yield event) ->
  agent event = Some out ->
  exists s',
    same_but_progress s s' /\
    current_step s' = Some (n + 1)%Z /\
    loop_body max_steps n event s =
      (s', if (max_steps <? n + 1)%Z
           then Raised (max_steps_message max_steps)
           else Continue (n + 1)).
Proof.
  intros Hno He. unfold no_answer in Hno. rewrite He in Hno.
  destruct out as [[pred|]]; cbn [prediction] in Hno; [|contradiction].
  eexists. split; [apply update_progress_frame|]. split; [reflexivity|].
  unfold loop_body. rewrite He.
  cbn [prediction fmap option_fmap option_map]. rewrite Hno.
  destruct (max_steps <? n + 1)%Z; reflexivity.
Qed.

Lemma loop_body_frame (max_steps n : Z) (event : Event) (s : SessionInfo) :
  same_but_progress s (loop_body max_steps n event s).1.
Proof.
  unfold loop_body. destruct (agent event) as [out|].
  - destruct (Nodes.action <$> prediction out) as [a|]; cbn [fst].
    + destruct (contains "ANSWER" a); [apply update_progress_frame|].
      destruct (max_steps <? n + 1)%Z; apply update_progress_frame.
    + apply update_progress_frame.
  - apply same_but_progress_refl.
Qed.

Lemma agent_steps_nonneg (items : list Item) : (0 <= agent_steps items)%Z.
Proof.
  induction items as [|[event|msg] items IH]; simpl; [lia| |exact IH].
  destruct (agent event); lia.
Qed.

(** The loop passes a prefix of events that are no answers as long as
    their steps stay within the bound. *)
Lemma run_prefix (max_steps : Z) (pre rest : list Item) :
  Forall no_answer pre ->
  forall (n : Z) (s : SessionInfo),
    (agent_steps pre = 0 \/ n + agent_steps pre <= max_steps)%Z ->
    exists s',
      same_but_progress s s' /\
      process_query_from max_steps n (pre ++ rest) s =
        process_query_from max_steps (n + agent_steps pre) rest s'.
Proof.
  induction 1 as [|item pre Hitem Hpre IH]; intros n s Hle.
  - exists s. split; [apply same_but_progress_refl|].
    simpl. now rewrite Z.add_0_r.
  - destruct item as [event|msg]; [|contradiction].
    cbn [agent_steps] in Hle. cbn [app process_query_from agent_steps].
    pose proof (agent_steps_nonneg pre) as Hnn.
    destruct (agent event) as [out|] eqn:He.
    + destruct (loop_body_no_answer max_steps n event out s Hitem He)
        as (s1 & Hf & _ & ->).
      destruct (Z.ltb_spec max_steps (n + 1)) as [Hlt|_]; [lia|].
      destruct (IH (n + 1)%Z s1) as (s2 & Hf2 & ->); [lia|].
      exists s2. split; [eapply same_but_progress_trans; eauto|].
      f_equal. lia.
    + rewrite (loop_body_skip _ _ _ _ He). apply IH, Hle.
Qed.


(** An event of the agent whose prediction is absent is not skipped: the
    step is counted and shown, and the test of the action raises, which
    ends the run with status "error". The agent node as [create_agent_graph]
    wires it always assigns a prediction. *)
Lemma missing_prediction_raises (req : Schemas.QueryRequest) (n : Z)
    (rest : list Item) (session : SessionInfo) :
  process_query_from (Schemas.max_steps req) n
    (Yield {| agent := Some {| prediction := None |} |} :: rest) session =
    fail none_not_iterable
      (update_progress (n + 1) None Nodes.ArgsNone session).
Proof. reflexivity. Qed.




(** C2. When the stream delivers an event of the agent whose action has
    ["ANSWER"] in it, after events that are no answers and whose steps, if
    there are any, are within the bound, the run ends there with status "completed" and with
    the result [action_input[0] if action_input else None]: the first
    element of the argument list, and null when there is no argument
    list. What the stream would deliver after the answer is not read. *)
Theorem answer_completes (req : Schemas.QueryRequest) (pre rest : list Item)
    (event : Event) (pred : Nodes.Prediction) (session : SessionInfo) :
  Forall no_answer pre ->
  (agent_steps pre = 0 \/ agent_steps pre <= Schemas.max_steps req)%Z ->
  agent event = Some {| prediction := Some pred |} ->
  contains "ANSWER" (Nodes.action pred) = true ->
  let s' := process_query req (pre ++ Yield event :: rest) session in
  status s' = "completed" /\
  result s' = first_arg (Nodes.args pred) /\
  (forall a l, Nodes.args pred = Nodes.ArgsList (a :: l) -> result s' = Some a) /\
  (Nodes.args pred = Nodes.ArgsNone -> result s' = None) /\
  error s' = error session /\
  current_step s' = Some (agent_steps pre + 1)%Z.
Proof.
  intros Hpre Hle He Ha. unfold process_query.
  destruct (run_prefix (Schemas.max_steps req) pre (Yield event :: rest)
              Hpre 0%Z session) as (s1 & Hf & Hrun); [lia|].
  cbv zeta. rewrite Hrun. cbn [process_query_from].
  rewrite (loop_body_answer _ _ _ _ _ He Ha).
  destruct Hf as (_ & _ & _ & _ & _ & _ & Herr & _).
  assert (Hres : result (complete (first_arg (Nodes.args pred))
            (update_progress (0 + agent_steps pre + 1) (Some (Nodes.action pred))
               (Nodes.args pred) s1)) = first_arg (Nodes.args pred))
    by reflexivity.
  split; [reflexivity|]. split; [exact Hres|].
  split; [intros a l Hl; rewrite Hres, Hl; reflexivity|].
  split; [intros Hl; rewrite Hres, Hl; reflexivity|].
  split; [exact Herr|].
  replace (0 + agent_steps pre + 1)%Z with (agent_steps pre + 1)%Z by lia.
  reflexivity.
Qed.

Lemma answer_completes_witness :
  let s' := process_query (Examples.a_request "q")
              ([Examples.agent_event "Click" (Nodes.ArgsList ["14"]);
                Yield {| agent := None |}] ++
               Yield {| agent := Some {| prediction :=
                 Some {| Nodes.action := "ANSWER";
                         Nodes.args := Nodes.ArgsList ["42"] |} |} |} :: [])
              (start_query "q" Examples.short_session) in
  status s' = "completed" /\
  result s' = Some "42" /\
  (forall a l, Nodes.ArgsList ["42"] = Nodes.ArgsList (a :: l) ->
               result s' = Some a) /\
  (Nodes.ArgsList ["42"] = Nodes.ArgsNone -> result s' = None) /\
  error s' = None /\
  current_step s' = Some 2%Z.
Proof.
  apply (answer_completes (Examples.a_request "q")
           [Examples.agent_event "Click" (Nodes.ArgsList ["14"]);
            Yield {| agent := None |}] []
           {| agent := Some {| prediction :=
                Some {| Nodes.action := "ANSWER";
                        Nodes.args := Nodes.ArgsList ["42"] |} |} |}
           {| Nodes.action := "ANSWER"; Nodes.args := Nodes.ArgsList ["42"] |}
           (start_query "q" Examples.short_session)).
  - repeat constructor.
  - right. vm_compute. discriminate.
  - reflexivity.
  - reflexivity.
Defined.







Lemma submit_live_eq (now_check now_touch : Z) (sid : string)
    (req : Schemas.QueryRequest) (items : list Item) (app : App)
    (session : SessionInfo) :
  _sessions (manager app) !! sid = Some session ->
  is_expired now_check session = Ok false ->
  let session' :=
    start_query (Schemas.question req) (update_last_accessed now_touch session) in
  query_agent now_check now_touch sid req items app =
    ({| manager :=
          with_sessions
            (<[sid := session']>
               (<[sid := update_last_accessed now_touch session]>
                  (_sessions (manager app))))
            (manager app);
        background_tasks :=
          background_tasks app ++
            [(sid, {| request := req; step_count := 0; stream := items |})] |},
     Ok {| Schemas.session_id := sid;
           Schemas.status := "processing";
           Schemas.answer := None;
           Schemas.error := None;
           Schemas.current_step := None;
           Schemas.current_action := None |}).
Proof.
  intros Hs He. unfold query_agent.
  rewrite (SessionFacts.lookup_live_eq _ _ _ _ _ Hs He). reflexivity.
Qed.

(** C1, as the specification words it, fails: [query_agent] has no check
    of the status. A second query for the session that is processing its
    first one is accepted, answers with status "processing", replaces
    [current_query] in the record and adds a second run. *)
Lemma second_query_accepted :
  let r := query_agent 10 11 "s1" (Examples.a_request "second question") []
             Examples.busy_app in
  (status Examples.busy_session = "processing" /\
   current_query Examples.busy_session = Some "first question" /\
   r.2 = Ok {| Schemas.session_id := "s1";
               Schemas.status := "processing";
               Schemas.answer := None;
               Schemas.error := None;
               Schemas.current_step := None;
               Schemas.current_action := None |} /\
   (exists session',
       _sessions (manager r.1) !! "s1" = Some session' /\
       current_query session' = Some "second question") /\
   length (background_tasks r.1) = 2) /\
  ~ second_query_as_described.
Proof.
  assert (Hs : _sessions (manager Examples.busy_app) !! "s1" =
               Some Examples.busy_session) by apply lookup_singleton_eq.
  assert (He : is_expired 10 Examples.busy_session = Ok false) by reflexivity.
  pose proof (submit_live_eq 10 11 "s1"
                (Examples.a_request "second question") []
                Examples.busy_app Examples.busy_session Hs He) as Hq.
  cbv zeta in Hq. split.
  - cbv zeta. rewrite Hq. cbn [fst snd manager background_tasks].
    split; [reflexivity|]. split; [reflexivity|]. split; [reflexivity|].
    split; [|reflexivity].
    eexists. split; [apply lookup_insert_eq | reflexivity].
  - intros H.
    specialize (H 10%Z 11%Z "s1" (Examples.a_request "second question") []
                  Examples.busy_app Examples.busy_session Hs eq_refl
                  ltac:(vm_compute; discriminate)).
    cbv zeta in H. rewrite Hq in H. destruct H as [[e H] _].
    discriminate H.
Qed.

Lemma submit_overflow_eq (now_check now_touch : Z) (sid : string)
    (req : Schemas.QueryRequest) (items : list Item) (app : App)
    (session : SessionInfo) :
  _sessions (manager app) !! sid = Some session ->
  ~ timedelta_ok (timeout_minutes session) ->
  query_agent now_check now_touch sid req items app =
    (app, Raise OverflowError).
Proof.
  intros Hs He. unfold query_agent.
  rewrite (SessionFacts.lookup_overflow_eq _ _ _ _ _ Hs He).
  now destruct app.
Qed.

(** *** The terminal payloads *)

Lemma settled_created (o : Obj) : created o -> settled o.
Proof.
  intros (sid & pg & g & timeout & t1 & t2 & ->).
  left. split; [reflexivity|]. left. repeat split.
Qed.

Lemma settled_task (s : SessionInfo) (t : Task) :
  status s = "processing" -> result s = None -> error s = None ->
  settled {| record := (task_step t s).1;
             running := put_task 0 (task_step t s).2 [t] |}.
Proof.
  intros Hst Hres Herr. unfold task_step.
  destruct (stream t) as [|[event|msg] rest].
  - left. split; [reflexivity|]. right. left. split; [reflexivity|exact Herr].
  - pose proof (loop_body_frame (Schemas.max_steps (request t)) (step_count t)
                  event s) as Hf.
    destruct (loop_body (Schemas.max_steps (request t)) (step_count t) event s)
      as [s1 [n|final_answer|msg]];
      cbn [fst snd put_task] in *;
      destruct Hf as (_ & _ & _ & Hst1 & _ & Hres1 & Herr1 & _).
    + right. eexists. split; [reflexivity|]. cbn [record].
      split; [congruence|]. split; congruence.
    + left. split; [reflexivity|]. right. left.
      split; [reflexivity|]. cbn. congruence.
    + left. split; [reflexivity|]. right. right.
      split; [reflexivity|]. split; [eexists; reflexivity|].
      cbn. congruence.
  - left. split; [reflexivity|]. right. right.
    split; [reflexivity|]. split; [eexists; reflexivity|exact Hres].
Qed.

Lemma settled_step (o o' : Obj) : settled o -> serial_step o o' -> settled o'.
Proof.
  intros Hinv Hstep. destruct Hstep as [o t1 t2 _|o t1 t2 req items Hrun _|o i t Hi].
  - destruct Hinv as [[Hrun H]|(t & Hrun & H)]; [left|right; exists t];
      (split; [exact Hrun | exact H]).
  - right. eexists. split; [reflexivity|]. repeat split.
  - destruct Hinv as [[Hrun _]|(t0 & Hrun & Hst & Hres & Herr)];
      rewrite Hrun in Hi |- *.
    + discriminate Hi.
    + destruct i as [|i]; [|discriminate Hi].
      injection Hi as ->. now apply settled_task.
Qed.

Lemma settled_reachable (o : Obj) : serial_reachable o -> settled o.
Proof.
  intros (o0 & Hc & Hrtc). apply settled_created in Hc.
  induction Hrtc as [|o1 o2 o3 Hstep _ IH]; [exact Hc|].
  apply IH. eapply settled_step; eauto.
Qed.

Lemma fresh_created : created Examples.fresh.
Proof.
  exists "s1", (Some Examples.a_page), 0, 1%Z, 0%Z, 0%Z. reflexivity.
Qed.

Lemma answered_bare_steps : rtc serial_step Examples.fresh Examples.answered_bare.
Proof.
  pose (t := {| request := Examples.a_request "q"; step_count := 0;
                stream := [Examples.agent_event "ANSWER" Nodes.ArgsNone] |}).
  eapply rtc_l;
    [exact (serial_query Examples.fresh 5 5 (Examples.a_request "q")
              [Examples.agent_event "ANSWER" Nodes.ArgsNone] eq_refl eq_refl)|].
  apply rtc_once.
  exact (serial_task
           {| record := start_query "q"
                          (update_last_accessed 5 Examples.short_session);
              running := [t] |} 0 t eq_refl).
Qed.

Lemma serial_step_step (o o' : Obj) : serial_step o o' -> step o o'.
Proof.
  intros [o1 t1 t2 He|o1 t1 t2 req items Hrun He|o1 i t Hi].
  - now apply (step_lookup o1 t1 t2).
  - pose proof (step_query o1 t1 t2 req items He) as H.
    rewrite Hrun in H. exact H.
  - now apply step_task.
Qed.

Lemma serial_reachable_reachable (o : Obj) : serial_reachable o -> reachable o.
Proof.
  intros (o0 & Hc & Hrtc). exists o0. split; [exact Hc|]. clear Hc.
  induction Hrtc as [|o1 o2 o3 Hstep _ IH]; [apply rtc_refl|].
  eapply rtc_l; [apply serial_step_step; eauto | exact IH].
Qed.

Lemma answered_after_failure_steps :
  rtc step Examples.fresh Examples.answered_after_failure.
Proof.
  pose (ta := {| request := Examples.a_request "q1"; step_count := 0;
                 stream := [Fail "boom"] |}).
  pose (tb := {| request := Examples.a_request "q2"; step_count := 0;
                 stream := [Examples.agent_event "ANSWER" (Nodes.ArgsList ["x"])] |}).
  pose (r1 := start_query "q1" (update_last_accessed 5 Examples.short_session)).
  pose (r2 := start_query "q2" (update_last_accessed 6 r1)).
  eapply rtc_l;
    [exact (step_query Examples.fresh 5 5 (Examples.a_request "q1")
              [Fail "boom"] eq_refl)|].
  eapply rtc_l;
    [exact (step_query {| record := r1; running := [ta] |} 6 6
              (Examples.a_request "q2")
              [Examples.agent_event "ANSWER" (Nodes.ArgsList ["x"])] eq_refl)|].
  eapply rtc_l;
    [exact (step_task {| record := r2; running := [ta; tb] |} 0 ta eq_refl)|].
  apply rtc_once.
  exact (step_task {| record := fail "boom" r2; running := [tb] |} 0 tb eq_refl).
Qed.

(** C3, as the specification words it, fails. A query that the agent
    answers without arguments ends completed with neither [result] nor
    [error] set; and since a second query is accepted while the first one
    runs, a failed run followed by an answered one ends completed with
    both set. *)
Lemma payload_not_as_described :
  (reachable Examples.answered_bare /\
   status (record Examples.answered_bare) = "completed" /\
   result (record Examples.answered_bare) = None /\
   error (record Examples.answered_bare) = None) /\
  (reachable Examples.answered_after_failure /\
   status (record Examples.answered_after_failure) = "completed" /\
   result (record Examples.answered_after_failure) = Some "x" /\
   error (record Examples.answered_after_failure) = Some "boom") /\
  ~ payload_as_described.
Proof.
  assert (Hr : reachable Examples.answered_bare).
  { apply serial_reachable_reachable. exists Examples.fresh.
    split; [apply fresh_created | apply answered_bare_steps]. }
  split; [|split].
  - split; [exact Hr|]. repeat split.
  - split; [|repeat split]. exists Examples.fresh.
    split; [apply fresh_created | apply answered_after_failure_steps].
  - intros H. specialize (H Examples.answered_bare Hr (or_introl eq_refl)).
    destruct H as [[[x Hx] _]|[_ [x Hx]]]; discriminate Hx.
Qed.

(** In a record with status "error" the error is set, however the
    queries and the runs follow each other. *)
Lemma error_is_set (o : Obj) :
  reachable o -> status (record o) = "error" -> is_Some (error (record o)).
Proof.
  intros (o0 & Hc & Hrtc).
  assert (H0 : status (record o0) = "error" -> is_Some (error (record o0))).
  { destruct Hc as (sid & pg & g & timeout & t1 & t2 & ->). discriminate. }
  clear Hc. induction Hrtc as [|o1 o2 o3 Hstep _ IH]; [exact H0|].
  apply IH. clear IH.
  destruct Hstep as [o t1 t2 _|o t1 t2 req items _|o i t Hi];
    cbn [record]; [exact H0 | discriminate|].
  unfold task_step. destruct (stream t) as [|[event|msg] rest]; cbn [fst].
  - discriminate.
  - pose proof (loop_body_frame (Schemas.max_steps (request t)) (step_count t)
                  event (record o)) as Hf.
    destruct (loop_body (Schemas.max_steps (request t)) (step_count t) event
                (record o)) as [s1 [n|final_answer|msg]]; cbn [fst] in *.
    + destruct Hf as (_ & _ & _ & Hst & _ & _ & Herr & _).
      rewrite Hst, Herr. exact H0.
    + discriminate.
    + intros _. eexists. reflexivity.
  - intros _. eexists. reflexivity.
Qed.

(** The timeout of a session that has come to the status "processing"
    is one that [timedelta] takes: the lookup of the query has passed. *)
Lemma processing_timeout_ok (o : Obj) :
  reachable o -> status (record o) = "processing" ->
  timedelta_ok (timeout_minutes (record o)).
Proof.
  intros (o0 & Hc & Hrtc).
  assert (H0 : status (record o0) = "processing" ->
               timedelta_ok (timeout_minutes (record o0))).
  { destruct Hc as (sid & pg & g & timeout & t1 & t2 & ->). discriminate. }
  clear Hc. induction Hrtc as [|o1 o2 o3 Hstep _ IH]; [exact H0|].
  apply IH. clear IH.
  destruct Hstep as [o t1 t2 He|o t1 t2 req items He|o i t Hi]; cbn [record].
  - intros _. exact (proj1 (SessionFacts.is_expired_inv _ _ _ He)).
  - intros _. exact (proj1 (SessionFacts.is_expired_inv _ _ _ He)).
  - unfold task_step. destruct (stream t) as [|[event|msg] rest]; cbn [fst].
    + discriminate.
    + pose proof (loop_body_frame (Schemas.max_steps (request t)) (step_count t)
                    event (record o)) as Hf.
      destruct (loop_body (Schemas.max_steps (request t)) (step_count t) event
                  (record o)) as [s1 [n|final_answer|msg]]; cbn [fst] in *.
      * destruct Hf as (_ & _ & _ & Hst & _ & _ & _ & _ & _ & Ht).
        rewrite Hst, Ht. exact H0.
      * discriminate.
      * discriminate.
    + discriminate.
Qed.

(** C1, amended. For every registered, unexpired session whose status is
    "processing", a second query is accepted: [query_agent] answers with
    status "processing" and raises nothing; in the record the status
    stays "processing", [current_query] becomes the new question,
    [result] and [error] become null and [last_accessed] the current
    time, while [current_step], [current_action] and the other fields
    are not changed by the submission; and one more run of
    [process_query] is added for the session. This is so for every
    record that a created session can have come to, and for every record
    with a timeout that [timedelta] takes, which the timeout of a
    session that has come to the status "processing" is; with any other
    timeout the lookup raises OverflowError and nothing is changed. *)
Theorem query_agent_while_processing (now_check now_touch : Z) (sid : string)
    (req : Schemas.QueryRequest) (items : list Item) (app : App)
    (session : SessionInfo) :
  _sessions (manager app) !! sid = Some session ->
  status session = "processing" ->
  ~ idle_too_long now_check session ->
  let r := query_agent now_check now_touch sid req items app in
  let accepted :=
    r.2 = Ok {| Schemas.session_id := sid;
                Schemas.status := "processing";
                Schemas.answer := None;
                Schemas.error := None;
                Schemas.current_step := None;
                Schemas.current_action := None |} /\
    (exists session',
        _sessions (manager r.1) !! sid = Some session' /\
        status session' = "processing" /\
        current_query session' = Some (Schemas.question req) /\
        result session' = None /\
        error session' = None /\
        last_accessed session' = now_touch /\
        current_step session' = current_step session /\
        current_action session' = current_action session /\
        session_id session' = session_id session /\
        page session' = page session /\
        graph session' = graph session /\
        created_at session' = created_at session /\
        timeout_minutes session' = timeout_minutes session) /\
    (forall sid', sid' <> sid ->
        _sessions (manager r.1) !! sid' = _sessions (manager app) !! sid') /\
    background_tasks r.1 =
      background_tasks app ++
        [(sid, {| request := req; step_count := 0; stream := items |})] in
  ((exists o, reachable o /\ record o = session) -> accepted) /\
  (timedelta_ok (timeout_minutes session) -> accepted) /\
  (~ timedelta_ok (timeout_minutes session) ->
   r = (app, Raise OverflowError)).
Proof.
  intros Hs Hst He. cbv zeta.
  assert (Hacc : timedelta_ok (timeout_minutes session) ->
                 is_expired now_check session = Ok false)
    by (intros Hok; exact (SessionFacts.is_expired_false _ _ Hok He)).
  split; [|split].
  - intros (o & Hreach & <-).
    specialize (Hacc (processing_timeout_ok o Hreach Hst)).
    rewrite (submit_live_eq _ _ _ _ _ _ _ Hs Hacc).
    cbn [fst snd manager background_tasks with_sessions _sessions].
    split; [reflexivity|]. split; [|split; [|reflexivity]].
    + eexists. split; [apply lookup_insert_eq|]. repeat split.
    + intros sid' Hne. rewrite !lookup_insert_ne by congruence. reflexivity.
  - intros Hok. specialize (Hacc Hok).
    rewrite (submit_live_eq _ _ _ _ _ _ _ Hs Hacc).
    cbn [fst snd manager background_tasks with_sessions _sessions].
    split; [reflexivity|]. split; [|split; [|reflexivity]].
    + eexists. split; [apply lookup_insert_eq|]. repeat split.
    + intros sid' Hne. rewrite !lookup_insert_ne by congruence. reflexivity.
  - intros Hno. exact (submit_overflow_eq _ _ _ _ _ _ _ Hs Hno).
Qed.

Lemma query_agent_while_processing_witness :
  let r := query_agent 10 11 "s1" (Examples.a_request "second question") []
             Examples.busy_app in
  r.2 = Ok {| Schemas.session_id := "s1";
              Schemas.status := "processing";
              Schemas.answer := None;
              Schemas.error := None;
              Schemas.current_step := None;
              Schemas.current_action := None |} /\
  (exists session',
      _sessions (manager r.1) !! "s1" = Some session' /\
      status session' = "processing" /\
      current_query session' = Some "second question" /\
      result session' = None /\
      error session' = None /\
      last_accessed session' = 11%Z /\
      current_step session' = Some 3%Z /\
      current_action session' = Some "Click: ['14']" /\
      session_id session' = "s1" /\
      page session' = Some Examples.a_page /\
      graph session' = 0 /\
      created_at session' = 0%Z /\
      timeout_minutes session' = 1%Z) /\
  (forall sid', sid' <> "s1" ->
      _sessions (manager r.1) !! sid' =
      _sessions (manager Examples.busy_app) !! sid') /\
  background_tasks r.1 =
    background_tasks Examples.busy_app ++
      [("s1", {| request := Examples.a_request "second question";
                 step_count := 0; stream := [] |})].
Proof.
  apply (proj1 (proj2 (query_agent_while_processing 10 11 "s1"
                         (Examples.a_request "second question") []
                         Examples.busy_app Examples.busy_session
                         eq_refl eq_refl ltac:(vm_compute; discriminate)))).
  unfold timedelta_ok. cbn. lia.
Defined.

(** A run that ends with the status "completed" has got its answer, and
    the result is the first argument of that, or the stream has ended
    without an answer, and the result is null. *)
Lemma completed_result (max_steps : Z) (items : list Item) :
  forall (n : Z) (session : SessionInfo),
    let s' := process_query_from max_steps n items session in
    status s' = "completed" ->
    (exists pre event pred rest,
        items = pre ++ Yield event :: rest /\
        Forall no_answer pre /\
        agent event = Some {| prediction := Some pred |} /\
        contains "ANSWER" (Nodes.action pred) = true /\
        result s' = first_arg (Nodes.args pred)) \/
    (Forall no_answer items /\ result s' = None).
Proof.
  cbv zeta.
  induction items as [|[event|msg] items IH]; intros n session Hst.
  - right. split; [constructor | reflexivity].
  - cbn [process_query_from] in *. unfold loop_body in *.
    destruct (agent event) as [[[pred|]]|] eqn:He;
      cbn [prediction fmap option_fmap option_map] in *.
    + destruct (contains "ANSWER" (Nodes.action pred)) eqn:Ha.
      * left. exists [], event, pred, items.
        split; [reflexivity|]. split; [constructor|]. split; [exact He|].
        split; [exact Ha | reflexivity].
      * assert (Hno : no_answer (Yield event))
          by (unfold no_answer; rewrite He; exact Ha).
        destruct (max_steps <? n + 1)%Z; [discriminate Hst|].
        destruct (IH _ _ Hst)
          as [(pre & ev & pr & rest & -> & Hpre & Hev & Hans & Hres)|[Hall Hres]].
        -- left. exists (Yield event :: pre), ev, pr, rest.
           split; [reflexivity|]. split; [now constructor|]. auto.
        -- right. split; [now constructor | exact Hres].
    + discriminate Hst.
    + assert (Hno : no_answer (Yield event))
        by (unfold no_answer; now rewrite He).
      destruct (IH _ _ Hst)
        as [(pre & ev & pr & rest & -> & Hpre & Hev & Hans & Hres)|[Hall Hres]].
      * left. exists (Yield event :: pre), ev, pr, rest.
        split; [reflexivity|]. split; [now constructor|]. auto.
      * right. split; [now constructor | exact Hres].
  - discriminate Hst.
Qed.

(** C3, amended. In every reachable session record whose status is
    "error" the error is set. In every session record reached by a client
    that submits a query only when no run of an earlier one is left, a
    terminal status means that no run is left and that at most one of
    [result] and [error] is set: with status "error" the result is null,
    with status "completed" the error is null; the result can be null as
    well, as it is after an answer without arguments. A run that ends
    with the status "completed" leaves as result the first argument of
    its answer, or null when the answer has no argument or the stream has
    ended without an answer. Starting a new query sets both to null. *)
Theorem terminal_payload :
  (forall o,
      reachable o -> status (record o) = "error" ->
      is_Some (error (record o))) /\
  (forall o,
      serial_reachable o ->
      terminal (status (record o)) ->
      running o = [] /\
      (status (record o) = "error" -> result (record o) = None) /\
      (status (record o) = "completed" -> error (record o) = None) /\
      ~ (is_Some (result (record o)) /\ is_Some (error (record o)))) /\
  (exists o,
      serial_reachable o /\ status (record o) = "completed" /\
      result (record o) = None /\ error (record o) = None) /\
  (forall req items session,
      let s' := process_query req items session in
      status s' = "completed" ->
      (exists pre event pred rest,
          items = pre ++ Yield event :: rest /\
          Forall no_answer pre /\
          agent event = Some {| prediction := Some pred |} /\
          contains "ANSWER" (Nodes.action pred) = true /\
          result s' = first_arg (Nodes.args pred)) \/
      (Forall no_answer items /\ result s' = None)) /\
  (forall question session,
      result (start_query question session) = None /\
      error (start_query question session) = None).
Proof.
  split; [exact error_is_set|]. split; [|split; [|split]].
  - intros o Hreach Hterm. apply settled_reachable in Hreach.
    destruct Hreach as [[Hrun [(Hst & _)|[(Hst & Herr)|(Hst & Herr & Hres)]]]
                       |(t & _ & Hst & _)].
    + destruct Hterm as [H|H]; rewrite Hst in H; discriminate H.
    + split; [exact Hrun|]. split; [intros H; rewrite Hst in H; discriminate H|].
      split; [intros _; exact Herr|].
      intros [_ [x Hx]]. rewrite Herr in Hx. discriminate Hx.
    + split; [exact Hrun|]. split; [intros _; exact Hres|].
      split; [intros H; rewrite Hst in H; discriminate H|].
      intros [[x Hx] _]. rewrite Hres in Hx. discriminate Hx.
    + destruct Hterm as [H|H]; rewrite Hst in H; discriminate H.
  - exists Examples.answered_bare. split; [|repeat split].
    exists Examples.fresh.
    split; [apply fresh_created | apply answered_bare_steps].
  - intros req items session. unfold process_query. apply completed_result.
  - intros; split; reflexivity.
Qed.

Lemma terminal_payload_witness :
  running Examples.answered_bare = [] /\
  (status (record Examples.answered_bare) = "error" ->
   result (record Examples.answered_bare) = None) /\
  (status (record Examples.answered_bare) = "completed" ->
   error (record Examples.answered_bare) = None) /\
  ~ (is_Some (result (record Examples.answered_bare)) /\
     is_Some (error (record Examples.answered_bare))).
Proof.
  apply (proj1 (proj2 terminal_payload) Examples.answered_bare).
  - exists Examples.fresh.
    split; [apply fresh_created | apply answered_bare_steps].
  - left. reflexivity.
Defined.

End RoutesFacts.

(** ** More about the string methods *)

Module PyStrMore.
Import PyStr Spec PyStrFacts.

Lemma lstrip_idem (p : ascii -> bool) (s : string) :
  lstrip_with p (lstrip_with p s) = lstrip_with p s.
Proof.
  induction s as [|c s IH]; simpl; [reflexivity|].
  destruct (p c) eqn:Hc; [exact IH|]. simpl. now rewrite Hc.
Qed.

Lemma rstrip_idem (p : ascii -> bool) (s : string) :
  rstrip_with p (rstrip_with p s) = rstrip_with p s.
Proof.
  induction s as [|c s IH]; simpl; [reflexivity|].
  destruct (rstrip_with p s) as [|d r] eqn:Hr.
  - destruct (p c) eqn:Hc; simpl; [reflexivity | now rewrite Hc].
  - change (rstrip_with p (String c (String d r))) with
      (match rstrip_with p (String d r) with
       | EmptyString => if p c then EmptyString else String c EmptyString
       | r' => String c r'
       end).
    now rewrite IH.
Qed.

Lemma rstrip_lstrip (p : ascii -> bool) (s : string) :
  rstrip_with p s = s -> rstrip_with p (lstrip_with p s) = lstrip_with p s.
Proof.
  induction s as [|c s IH]; simpl; [reflexivity|].
  intros H. destruct (p c) eqn:Hc.
  - apply IH. destruct (rstrip_with p s) as [|d r]; [discriminate H|].
    now injection H.
  - simpl. rewrite Hc. exact H.
Qed.

Lemma strip_with_idem (p : ascii -> bool) (s : string) :
  strip_with p (strip_with p s) = strip_with p s.
Proof.
  unfold strip_with.
  rewrite (rstrip_lstrip p (rstrip_with p s) (rstrip_idem p s)).
  apply lstrip_idem.
Qed.

Lemma mem_lstrip (p : ascii -> bool) (c : ascii) (s : string) :
  mem c s = false -> mem c (lstrip_with p s) = false.
Proof.
  induction s as [|d s IH]; simpl; [reflexivity|].
  intros H. destruct (p d); [|exact H].
  apply orb_false_elim in H as [_ H]. exact (IH H).
Qed.

Lemma mem_rstrip (p : ascii -> bool) (c : ascii) (s : string) :
  mem c s = false -> mem c (rstrip_with p s) = false.
Proof.
  induction s as [|d s IH]; simpl; [reflexivity|].
  intros H. apply orb_false_elim in H as [Hd Hs]. specialize (IH Hs).
  destruct (rstrip_with p s) as [|e r].
  - destruct (p d); simpl; [reflexivity | now rewrite Hd].
  - simpl in *. now rewrite Hd, IH.
Qed.

Lemma mem_strip_with (p : ascii -> bool) (c : ascii) (s : string) :
  mem c s = false -> mem c (strip_with p s) = false.
Proof. intros H. unfold strip_with. now apply mem_lstrip, mem_rstrip. Qed.

(** What [strip] leaves is a part of the text. *)
Lemma mem_strip (c : ascii) (s : string) :
  mem c s = false -> mem c (strip s) = false.
Proof.
  intros H.
  destruct (strip_spec s) as (body & (trail & Hs & _) & (lead & Hb & _)).
  rewrite Hs, Hb, !mem_append in H.
  apply orb_false_elim in H as [H _]. now apply orb_false_elim in H as [_ H].
Qed.

Lemma not_ends_blank_suffix (lead core : string) :
  ~ ends_blank (lead +:+ core) -> ~ ends_blank core.
Proof.
  intros H (t & r & Hin & ->). apply H. exists t, (lead +:+ r).
  split; [exact Hin | now rewrite append_assoc].
Qed.

(** A stripped text has no whitespace around it. *)
Lemma stripped_fixed (text core : string) :
  stripped text core -> stripped core core.
Proof.
  intros (body & (trail & _ & _ & Hend) & (lead & -> & _ & Hstart)).
  exists core. split.
  - exists "". split; [now rewrite append_nil_r|]. split; [apply blank_nil|].
    exact (not_ends_blank_suffix _ _ Hend).
  - exists "". split; [reflexivity|]. split; [apply blank_nil | exact Hstart].
Qed.

Lemma strip_idem (s : string) : strip (strip s) = strip s.
Proof. apply strip_unique, (stripped_fixed s), strip_spec. Qed.

(** With a split allowed, the first piece has no separator in it. *)
Lemma split_limit_head (sep : ascii) (limit : option nat) (s : string)
    (a : string) (l : list string) :
  limit <> Some 0 ->
  split_limit sep limit s = a :: l -> mem sep a = false.
Proof.
  intros Hlim. revert a l. induction s as [|c s IH]; intros a l; simpl.
  - intros [= <- _]. reflexivity.
  - destruct (Ascii.eqb_spec c sep) as [->|Hne].
    + destruct limit as [[|k]|]; [congruence| |]; intros [= <- _]; reflexivity.
    + destruct (split_limit sep limit s) as [|b l'] eqn:E; simpl.
      * intros [= <- _]. simpl. rewrite orb_false_r.
        apply Ascii.eqb_neq. congruence.
      * intros [= <- _]. simpl. rewrite (IH b l' eq_refl), orb_false_r.
        apply Ascii.eqb_neq. congruence.
Qed.

(** No piece of a split without limit has the separator in it. *)
Lemma split_pieces (sep : ascii) (s : string) :
  Forall (fun piece => mem sep piece = false) (split sep s).
Proof.
  unfold split. induction s as [|c s IH]; simpl.
  - repeat constructor.
  - destruct (Ascii.eqb_spec c sep) as [->|Hne].
    + constructor; [reflexivity | exact IH].
    + destruct (split_limit sep None s) as [|b l]; simpl.
      * repeat constructor. simpl. rewrite orb_false_r.
        apply Ascii.eqb_neq. congruence.
      * inversion IH as [|? ? Hb Hl]; subst. constructor; [|exact Hl].
        simpl. rewrite Hb, orb_false_r. apply Ascii.eqb_neq. congruence.
Qed.

End PyStrMore.

(** ** More about the action parser *)

Module ParserFacts.
Import PyStr Spec Nodes PyStrFacts PyStrMore NodesFacts.

(** The three ways in which [parse] returns. *)
Lemma parse_cases (text : string) :
  parse text =
    Ok {| action := "retry";
          args := ArgsStr ("Could not parse LLM Output: " +:+ text) |} \/
  (exists a, mem space a = false /\
     parse text = Ok {| action := strip a; args := ArgsNone |}) \/
  (exists a b, mem space a = false /\
     parse text = Ok {| action := strip a; args := ArgsList (parse_args b) |}).
Proof.
  destruct (last_line_ok text) as [line Hl].
  destruct (startswith action_prefix line) eqn:Hp.
  - right. apply prefix_split in Hp. rewrite Hp in Hl.
    rewrite (parse_marked _ _ Hl).
    set (block := drop (String.length action_prefix) line).
    assert (Hhead : forall a l, split_max space 1 block = a :: l ->
                                mem space a = false).
    { intros a l. apply split_limit_head. discriminate. }
    destruct (split_output_shape block) as [[a Ha]|[a [b Ha]]]; rewrite Ha.
    + left. exists a. split; [exact (Hhead _ _ Ha) | reflexivity].
    + right. exists a, b. split; [exact (Hhead _ _ Ha) | reflexivity].
  - left. exact (parse_retry _ _ Hl Hp).
Qed.

(** X1. Whatever the text, the action that [parse] returns has no space
    in it and no whitespace at its ends. *)
Theorem parsed_action_is_one_word (text : string) (pred : Prediction) :
  parse text = Ok pred ->
  mem space (action pred) = false /\ strip (action pred) = action pred.
Proof.
  intros H.
  destruct (parse_cases text) as [E|[(a & Ha & E)|(a & b & Ha & E)]];
    rewrite E in H; injection H as <-; cbn [action].
  - split; reflexivity.
  - split; [now apply mem_strip | apply strip_idem].
  - split; [now apply mem_strip | apply strip_idem].
Qed.

Lemma parsed_action_is_one_word_witness :
  mem space "Click" = false /\ strip "Click" = "Click".
Proof.
  apply (parsed_action_is_one_word "Thought: press it
Action: Click   14" {| action := "Click"; args := ArgsList ["14"] |}).
  reflexivity.
Defined.

Lemma marker_not_blank (rest : string) :
  match_token whitespace (action_prefix +:+ rest) = None.
Proof. vm_compute. reflexivity. Qed.

(** X2. Only the last line of the stripped text counts: when that line
    starts with ["Action: "], the text is parsed as the line alone would
    be, whatever comes before it (the model's thoughts) and whatever
    whitespace comes after it. *)
Theorem parse_reads_last_line (text line : string) :
  last_line_stripped text line ->
  starts_with action_prefix line ->
  parse text = parse line.
Proof.
  intros Hv [block ->].
  pose proof (proj1 (last_line_stripped_iff _ _) Hv) as Ht.
  assert (Hline : last_line (action_prefix +:+ block) =
                  Ok (action_prefix +:+ block)).
  { apply last_line_stripped_iff.
    destruct Hv as (core & (body & (trail & _ & _ & Hend) & (lead & -> & _))
                    & Hn & Hcore).
    exists (action_prefix +:+ block). split; [|split; [exact Hn | now left]].
    exists (action_prefix +:+ block). split.
    - exists "". split; [now rewrite append_nil_r|]. split; [apply blank_nil|].
      apply not_ends_blank_suffix in Hend.
      destruct Hcore as [->|[before ->]]; [exact Hend|].
      apply (not_ends_blank_suffix (before +:+ String Edge.newline "")).
      rewrite append_assoc. exact Hend.
    - exists "". split; [reflexivity|]. split; [apply blank_nil|].
      intros (t & r & Hin & Hs).
      exact (proj1 (match_token_none _ _) (marker_not_blank block) t r Hin Hs). }
  now rewrite (parse_marked _ _ Ht), (parse_marked _ _ Hline).
Qed.

Lemma parse_reads_last_line_witness :
  parse "Thought: the box 14 is the search button; click it.
Action: Click [14]
 " = parse "Action: Click [14]".
Proof.
  apply parse_reads_last_line.
  - apply last_line_stripped_iff. reflexivity.
  - exists "Click [14]". reflexivity.
Defined.

(** X3. The arguments that [parse] returns: a list is never empty, none
    of its elements has a [";"] in it, and none begins or ends with a
    bracket; a string is returned only with the action ["retry"]. *)
Theorem parsed_args_shape (text : string) (pred : Prediction) :
  parse text = Ok pred ->
  (forall l, args pred = ArgsList l ->
     l <> [] /\
     Forall (fun a => mem semicolon a = false /\ bare a) l) /\
  (forall d, args pred = ArgsStr d ->
     action pred = "retry" /\
     d = "Could not parse LLM Output: " +:+ text).
Proof.
  intros H.
  destruct (parse_cases text) as [E|[(a & Ha & E)|(a & b & Ha & E)]];
    rewrite E in H; injection H as <-; cbn [action args];
    (split; [intros l [= <-] | intros d [= <-]]).
  - split; reflexivity.
  - unfold parse_args. split.
    + pose proof (split_limit_nonempty semicolon None (strip b)) as Hne.
      unfold split. destruct (split_limit semicolon None (strip b));
        [congruence | discriminate].
    + apply Forall_map.
      eapply Forall_impl; [apply split_pieces|]. intros piece Hp. split.
      * unfold strip_chars. now apply mem_strip_with, mem_strip.
      * exact (strip_with_bare (fun c => mem c "[]") (strip piece)).
Qed.

Lemma parsed_args_shape_witness :
  (forall l, ArgsList ["3"; "hello world"] = ArgsList l ->
     l <> [] /\
     Forall (fun a => mem semicolon a = false /\ bare a) l) /\
  (forall d, ArgsList ["3"; "hello world"] = ArgsStr d ->
     "Type" = "retry" /\
     d = "Could not parse LLM Output: " +:+ "Action: Type [3]; hello world").
Proof.
  apply (parsed_args_shape "Action: Type [3]; hello world"
           {| action := "Type"; args := ArgsList ["3"; "hello world"] |}).
  reflexivity.
Defined.

End ParserFacts.

(** ** Routing, and the scratchpad over a run *)

Module RouterFacts.
Import PyStr Spec Nodes Edge Router PyStrFacts NodesFacts EdgeFacts.

(** X4. Whatever the model writes, routing its output raises nothing; and
    an output whose last line, the output stripped of the whitespace
    around it, does not start with ["Action: "] is routed back to the
    node ["agent"]. *)
Theorem unparsable_output_returns_to_agent (text : string) :
  (exists node, route_output text = Ok node) /\
  (forall line,
      last_line_stripped text line ->
      ~ starts_with action_prefix line ->
      route_output text = Ok "agent").
Proof.
  split.
  - unfold route_output.
    destruct (ParserFacts.parse_cases text)
      as [E|[(a & _ & E)|(a & b & _ & E)]];
      rewrite E; cbn [mbind outcome_bind select_tool action];
      repeat match goal with |- context [String.eqb ?x ?y] =>
               destruct (String.eqb x y) end; eauto.
  - intros line Hl Hp. unfold route_output.
    apply last_line_stripped_iff in Hl. apply not_starts_with in Hp.
    now rewrite (parse_retry _ _ Hl Hp).
Qed.

Lemma unparsable_output_returns_to_agent_witness :
  route_output "I am not sure what to do next." = Ok "agent".
Proof.
  apply (proj2 (unparsable_output_returns_to_agent
                  "I am not sure what to do next.")
               "I am not sure what to do next.").
  - apply last_line_stripped_iff. reflexivity.
  - intros [rest H]. discriminate H.
Defined.

(** X5. The router and the engine agree on the end: whenever
    [select_tool] ends the graph for a prediction (whose action is not the
    name of the end node itself), the engine's loop, on the event that
    carries this prediction, stops with the prediction's first argument
    as the answer. *)
Theorem end_of_graph_ends_loop (pred : Prediction) (max_steps n : Z)
    (session : Session.SessionInfo) :
  select_tool (Some pred) = Ok END ->
  action pred <> END ->
  (Routes.loop_body max_steps n
     {| Routes.agent := Some {| Routes.prediction := Some pred |} |} session).2 =
    Routes.Break (Routes.first_arg (args pred)).
Proof.
  unfold select_tool. intros H Hne.
  destruct (String.eqb_spec (action pred) "ANSWER") as [Ha|_].
  - rewrite (RoutesFacts.loop_body_answer max_steps n
               {| Routes.agent := Some {| Routes.prediction := Some pred |} |}
               pred session eq_refl);
      [reflexivity|]. now rewrite Ha.
  - destruct (String.eqb (action pred) "retry"); [discriminate H|].
    injection H as H. contradiction.
Qed.

Lemma end_of_graph_ends_loop_witness :
  (Routes.loop_body 150 4
     {| Routes.agent := Some {| Routes.prediction :=
          Some {| action := "ANSWER"; args := ArgsList ["42"] |} |} |}
     Examples.busy_session).2 =
    Routes.Break (Some "42").
Proof.
  apply (end_of_graph_ends_loop
           {| action := "ANSWER"; args := ArgsList ["42"] |} 150 4
           Examples.busy_session).
  - reflexivity.
  - discriminate.
Defined.

Lemma entry_last_line (txt obs : string) (k : Z) :
  mem newline obs = false -> (0 <= k)%Z -> within_limit k ->
  is_last_line (txt +:+ entry k obs) (of_int k +:+ ". " +:+ obs) /\
  begins_with_parsable_int (of_int k +:+ ". " +:+ obs) k.
Proof.
  intros Hobs Hk Hlim. destruct (numbered_line k obs Hk Hlim) as [Hb Hnl].
  split; [|exact Hb]. split; [|right; exists txt; reflexivity].
  rewrite !mem_append. rewrite Hnl, Hobs. reflexivity.
Qed.

Lemma observe_next (rest : list string) :
  forall (obs txt : string) (more : list string) (line : string) (n : Z)
         (o : string),
    Forall (fun ob => mem newline ob = false) (obs :: rest) ->
    is_last_line txt line ->
    begins_with_parsable_int line n ->
    within_limit (n + Z.of_nat (length (obs :: rest))) ->
    exists o',
      observe {| scratchpad := Some (txt :: more); observation := o |}
              (obs :: rest) =
        Ok {| scratchpad := Some [txt +:+ numbered (n + 1) (obs :: rest)];
              observation := o' |}.
Proof.
  induction rest as [|obs' rest IH];
    intros obs txt more line n o Hall Hl Hb Hlim;
    assert (Hn : (0 <= n)%Z)
      by (destruct Hb as (ds & _ & _ & ->); apply number_nonneg);
    assert (Hlim1 : within_limit (n + 1))
      by (apply (within_limit_mono (n + 1) _) in Hlim;
          [exact Hlim | cbn [length]; lia]).
  - cbn [observe scratchpad].
    rewrite (update_scratchpad_next txt more obs line n
               (last_line_found txt line Hl) Hb Hlim1).
    exists obs. cbn [mbind outcome_bind observe numbered].
    now rewrite append_nil_r.
  - inversion Hall as [|? ? Hobs Hrest]; subst.
    change (observe ?st (obs :: obs' :: rest)) with
      (st' ← update_scratchpad
               {| scratchpad := scratchpad st; observation := obs |};
       observe st' (obs' :: rest)).
    cbn [scratchpad].
    rewrite (update_scratchpad_next txt more obs line n
               (last_line_found txt line Hl) Hb Hlim1).
    cbn [mbind outcome_bind].
    destruct (entry_last_line txt obs (n + 1) Hobs ltac:(lia) Hlim1)
      as [Hl' Hb'].
    destruct (IH obs' (txt +:+ entry (n + 1) obs) [] _ (n + 1)%Z obs
                Hrest Hl' Hb') as [o' ->].
    + replace (n + 1 + Z.of_nat (length (obs' :: rest)))%Z
        with (n + Z.of_nat (length (obs :: obs' :: rest)))%Z
        by (cbn [length]; lia).
      exact Hlim.
    + exists o'. cbn [numbered]. now rewrite append_assoc.
Qed.

(** X7. The numbering of the scratchpad over a run: from a state without
    history, the results of one tool after the other, none of them with a
    line break in it, leave the fixed header followed by one line for each
    result, in their order and numbered 1, 2, 3 and so on, as long as the
    numbers stay within the limit of 4300 digits. *)
Theorem observations_are_numbered (obs : string) (rest : list string)
    (old : option (list string)) (o : string) :
  Forall (fun ob => mem newline ob = false) (obs :: rest) ->
  old = None \/ old = Some [] ->
  within_limit (Z.of_nat (length (obs :: rest))) ->
  exists o',
    observe {| scratchpad := old; observation := o |} (obs :: rest) =
      Ok {| scratchpad := Some [header +:+ numbered 1 (obs :: rest)];
            observation := o' |}.
Proof.
  intros Hall Hold Hlim. inversion Hall as [|? ? Hobs Hrest]; subst.
  destruct rest as [|obs' rest].
  - exists obs. cbn [observe scratchpad].
    rewrite (update_scratchpad_fresh old obs Hold).
    cbn [mbind outcome_bind observe numbered]. now rewrite append_nil_r.
  - change (observe ?st (obs :: obs' :: rest)) with
      (st' ← update_scratchpad
               {| scratchpad := scratchpad st; observation := obs |};
       observe st' (obs' :: rest)).
    cbn [scratchpad]. rewrite (update_scratchpad_fresh old obs Hold).
    cbn [mbind outcome_bind].
    assert (Hone : within_limit 1)
      by (apply (within_limit_mono 1 _) in Hlim;
          [exact Hlim | cbn [length]; lia]).
    destruct (entry_last_line header obs 1 Hobs ltac:(lia) Hone) as [Hl Hb].
    destruct (observe_next rest obs' (header +:+ entry 1 obs) [] _ 1%Z obs
                Hrest Hl Hb) as [o' ->].
    + replace (1 + Z.of_nat (length (obs' :: rest)))%Z
        with (Z.of_nat (length (obs :: obs' :: rest)))
        by (cbn [length]; lia).
      exact Hlim.
    + exists o'. cbn [numbered]. now rewrite append_assoc.
Qed.

Lemma observations_are_numbered_witness :
  exists o',
    observe {| scratchpad := Some []; observation := "" |}
            ["Clicked 14"; "Typed weather and submitted"; "Waited for 5s."] =
      Ok {| scratchpad := Some ["Previous action observations:

1. Clicked 14
2. Typed weather and submitted
3. Waited for 5s."];
            observation := o' |}.
Proof.
  apply (observations_are_numbered "Clicked 14"
           ["Typed weather and submitted"; "Waited for 5s."] (Some []) "").
  - repeat constructor.
  - right. reflexivity.
  - unfold within_limit. vm_compute. lia.
Defined.

End RouterFacts.

(** ** The descriptions of the bounding boxes *)

Module DescriptionsFacts.
Import PyStr Spec Descriptions PyStrFacts NodesFacts.

Lemma blank_or_not (s : string) : blank s \/ ~ blank s.
Proof.
  destruct (strip s) eqn:E.
  - left. now apply blank_strip.
  - right. intros H. apply blank_strip in H. congruence.
Qed.

Lemma label_ok (i : nat) (bbox : BBox) :
  describable bbox ->
  exists l, label i bbox = Ok l /\
            startswith (of_int (Z.of_nat i) +:+ " (<") l = true.
Proof.
  intros Hd. unfold label.
  assert (Ht : exists t,
             match strip (match ariaLabel bbox with
                          | Some a => a | None => EmptyString end) with
             | EmptyString =>
                 match text bbox with
                 | Some t => Ok t
                 | None => Raise KeyError
                 end
             | _ => Ok (match ariaLabel bbox with
                        | Some a => a | None => EmptyString end)
             end = Ok t).
  { destruct Hd as [(a & Ha & Hnb)|Hd].
    - rewrite Ha. destruct (strip a) eqn:E; [|eauto].
      destruct Hnb. now apply blank_strip.
    - destruct (strip _); [|eauto].
      destruct (text bbox); [eauto | congruence]. }
  destruct Ht as [t ->]. cbn [mbind outcome_bind].
  eexists. split; [reflexivity|].
  unfold startswith. rewrite <- append_assoc. apply prefix_append.
Qed.

Lemma label_missing (i : nat) (bbox : BBox) :
  ~ describable bbox -> label i bbox = Raise KeyError.
Proof.
  intros Hd. unfold label, describable in *.
  assert (Hs : strip (match ariaLabel bbox with
                      | Some a => a | None => EmptyString end) = EmptyString).
  { destruct (ariaLabel bbox) as [a|]; [|reflexivity].
    destruct (blank_or_not a) as [Hb|Hb]; [now apply blank_strip|].
    destruct Hd. left. now exists a. }
  rewrite Hs. destruct (text bbox) eqn:Ht; [|reflexivity].
  destruct Hd. right. discriminate.
Qed.

Lemma describable_or_not (bbox : BBox) : describable bbox \/ ~ describable bbox.
Proof.
  unfold describable. destruct (text bbox) as [t|].
  - left. right. discriminate.
  - destruct (ariaLabel bbox) as [a|].
    + destruct (blank_or_not a) as [Hb|Hb].
      * right. intros [(a' & [= <-] & Hn)|H]; [now apply Hn | congruence].
      * left. left. now exists a.
    + right. intros [(a' & H & _)|H]; [discriminate H | congruence].
Qed.

Lemma labels_from_ok (bboxes : list BBox) :
  Forall describable bboxes ->
  forall i, exists labels,
    labels_from i bboxes = Ok labels /\
    length labels = length bboxes /\
    forall k l, labels !! k = Some l ->
                startswith (of_int (Z.of_nat (i + k)) +:+ " (<") l = true.
Proof.
  induction 1 as [|bbox bboxes Hb _ IH]; intros i.
  - exists []. split; [reflexivity|]. split; [reflexivity|].
    intros k l Hk. discriminate Hk.
  - destruct (label_ok i bbox Hb) as (l0 & Hl0 & Hp0).
    destruct (IH (S i)) as (ls & Hls & Hlen & Hnum).
    exists (l0 :: ls). cbn [labels_from]. rewrite Hl0, Hls.
    split; [reflexivity|]. split; [simpl; now rewrite Hlen|].
    intros [|k] l Hk; simpl in Hk.
    + injection Hk as <-. now rewrite Nat.add_0_r.
    + specialize (Hnum k l Hk).
      now replace (i + S k) with (S i + k) by lia.
Qed.

Lemma labels_from_missing (bboxes : list BBox) :
  Exists (fun bbox => ~ describable bbox) bboxes ->
  forall i, labels_from i bboxes = Raise KeyError.
Proof.
  induction 1 as [bbox bboxes Hb|bbox bboxes _ IH]; intros i; cbn [labels_from].
  - now rewrite (label_missing i bbox Hb).
  - destruct (describable_or_not bbox) as [Hd|Hd].
    + destruct (label_ok i bbox Hd) as (l0 & -> & _).
      cbn [mbind outcome_bind]. now rewrite IH.
    + now rewrite (label_missing i bbox Hd).
Qed.

(** X6. [format_descriptions] succeeds exactly when every box has an
    ["ariaLabel"] that is not blank or a ["text"]: then the description is
    the heading followed by one label for each box, joined by line breaks,
    the label of the box at position [k] beginning with [k]; a box with
    neither makes it raise KeyError. No boxes give the heading alone. *)
Theorem format_descriptions_labels (bboxes : list BBox) :
  (Forall describable bboxes ->
   exists labels,
     format_descriptions bboxes =
       Ok (heading +:+ Routes.join (String Nodes.newline "") labels) /\
     length labels = length bboxes /\
     forall k l, labels !! k = Some l ->
                 startswith (of_int (Z.of_nat k) +:+ " (<") l = true) /\
  (Exists (fun bbox => ~ describable bbox) bboxes ->
   format_descriptions bboxes = Raise KeyError) /\
  (bboxes = [] -> format_descriptions bboxes = Ok heading).
Proof.
  split; [|split].
  - intros Hall. destruct (labels_from_ok bboxes Hall 0) as (ls & Hls & Hlen & Hnum).
    exists ls. unfold format_descriptions. rewrite Hls.
    split; [reflexivity|]. split; [exact Hlen | exact Hnum].
  - intros Hex. unfold format_descriptions.
    now rewrite (labels_from_missing bboxes Hex 0).
  - intros ->. reflexivity.
Qed.

Lemma format_descriptions_labels_witness :
  (exists labels,
     format_descriptions [Samples.labelled; Samples.unlabelled] =
       Ok (heading +:+ Routes.join (String Nodes.newline "") labels) /\
     length labels = 2 /\
     forall k l, labels !! k = Some l ->
                 startswith (of_int (Z.of_nat k) +:+ " (<") l = true) /\
  format_descriptions [Samples.labelled; Samples.blank_label] = Raise KeyError.
Proof.
  split.
  - apply (proj1 (format_descriptions_labels
                    [Samples.labelled; Samples.unlabelled])).
    constructor; [|constructor; [right; discriminate | constructor]].
    left. exists "Search". split; [reflexivity|].
    intros Hb. apply blank_strip in Hb. vm_compute in Hb. discriminate Hb.
  - apply (proj1 (proj2 (format_descriptions_labels
                           [Samples.labelled; Samples.blank_label]))).
    apply Exists_cons_tl, Exists_cons_hd.
    intros [(a & [= <-] & Hn)|H]; [|now apply H].
    apply Hn, blank_strip. vm_compute. reflexivity.
Defined.

End DescriptionsFacts.

(** ** More about the session registry *)

Module RegistryFacts.
Import Spec Session Registry SessionFacts.

Lemma cleanup_sessions (sid : string) (w : SessionManager) :
  _sessions (_cleanup_session sid w) = delete sid (_sessions w) /\
  created_tasks (_cleanup_session sid w) = created_tasks w.
Proof.
  destruct (_sessions w !! sid) as [session|] eqn:Hs.
  - destruct (cleanup_removes sid w session Hs) as (H1 & H2 & _). auto.
  - unfold _cleanup_session, close_session. rewrite Hs. cbn [fst].
    now rewrite delete_id.
Qed.

Lemma cleanup_pages (sid : string) (w : SessionManager) (pg : Page) :
  pg ∈ closed_pages (_cleanup_session sid w) <->
  pg ∈ closed_pages w \/
  exists session, _sessions w !! sid = Some session /\ page session = Some pg.
Proof.
  destruct (_sessions w !! sid) as [session|] eqn:Hs.
  - destruct (cleanup_removes sid w session Hs) as (_ & _ & ->).
    rewrite elem_of_app. destruct (page session) as [pg'|] eqn:Hp.
    + rewrite list_elem_of_singleton. split.
      * intros [H| ->]; [now left | right; exists session; auto].
      * intros [H|(s & [= <-] & H)]; [now left | right; congruence].
    + split.
      * intros [H|H]; [now left | inversion H].
      * intros [H|(s & [= <-] & H)]; [now left | congruence].
  - unfold _cleanup_session, close_session. rewrite Hs. cbn [fst]. split.
    + now left.
    + intros [H|(s & H & _)]; [exact H | discriminate H].
Qed.

Lemma close_each_sessions (ids : list string) :
  forall (w : SessionManager) (sid : string),
    _sessions (close_each ids w) !! sid =
      if decide (sid ∈ ids) then None else _sessions w !! sid.
Proof.
  unfold close_each.
  induction ids as [|id ids IH]; intros w sid; cbn [foldl].
  - case_decide as H; [inversion H | reflexivity].
  - rewrite IH. destruct (cleanup_sessions id w) as [-> _].
    destruct (decide (sid = id)) as [->|Hne].
    + rewrite lookup_delete_eq.
      rewrite (decide_True (P := id ∈ id :: ids)) by apply list_elem_of_here.
      now case_decide.
    + rewrite lookup_delete_ne by congruence.
      destruct (decide (sid ∈ ids)) as [Hin|Hin].
      * now rewrite decide_True by now apply list_elem_of_further.
      * rewrite decide_False; [reflexivity|].
        intros H. apply elem_of_cons in H as [H|H]; congruence.
Qed.

Lemma close_each_tasks (ids : list string) :
  forall w : SessionManager, created_tasks (close_each ids w) = created_tasks w.
Proof.
  unfold close_each. induction ids as [|id ids IH]; intros w; cbn [foldl].
  - reflexivity.
  - rewrite IH. now destruct (cleanup_sessions id w) as [_ ->].
Qed.

Lemma close_each_pages (ids : list string) :
  forall (w : SessionManager) (pg : Page),
    pg ∈ closed_pages (close_each ids w) <->
    pg ∈ closed_pages w \/
    exists sid session,
      sid ∈ ids /\ _sessions w !! sid = Some session /\ page session = Some pg.
Proof.
  unfold close_each. induction ids as [|id ids IH]; intros w pg; cbn [foldl].
  - split; [now left|]. intros [H|(sid & s & H & _)]; [exact H | inversion H].
  - rewrite IH, cleanup_pages. destruct (cleanup_sessions id w) as [Hs _].
    split.
    + intros [[H|(s & H1 & H2)]|(sid & s & Hin & H1 & H2)].
      * now left.
      * right. exists id, s. split; [apply list_elem_of_here | auto].
      * right. exists sid, s. split; [now apply list_elem_of_further|].
        rewrite Hs in H1.
        destruct (decide (sid = id)) as [->|Hne].
        -- rewrite lookup_delete_eq in H1. discriminate H1.
        -- rewrite lookup_delete_ne in H1 by congruence. auto.
    + intros [H|(sid & s & Hin & H1 & H2)]; [now left; left|].
      destruct (decide (sid = id)) as [->|Hne].
      * left. right. eauto.
      * right. exists sid, s. apply elem_of_cons in Hin as [Hin|Hin];
          [congruence|].
        split; [exact Hin|]. rewrite Hs.
        rewrite lookup_delete_ne by congruence. auto.
Qed.

Lemma collect_expired_ok (clock : string -> Z)
    (items : list (string * SessionInfo)) :
  Forall (fun kv => timedelta_ok (timeout_minutes kv.2)) items ->
  exists ids,
    collect_expired clock items = Ok ids /\
    forall sid,
      sid ∈ ids <->
      exists session,
        (sid, session) ∈ items /\ idle_too_long (clock sid) session.
Proof.
  induction 1 as [|[k s] items Hok _ (ids & IH1 & IH2)].
  - exists []. split; [reflexivity|]. intros sid. split.
    + intros H. inversion H.
    + intros (session & H & _). inversion H.
  - cbn [collect_expired]. cbn [snd] in Hok. rewrite IH1.
    destruct (idle_or_not (clock k) s) as [Hi|Hi].
    + rewrite (is_expired_true _ _ Hok Hi). cbn [mbind outcome_bind].
      exists (k :: ids). split; [reflexivity|]. intros sid.
      rewrite elem_of_cons, IH2. split.
      * intros [->|(session & Hin & He)].
        -- exists s. split; [apply list_elem_of_here | exact Hi].
        -- exists session. split; [now apply list_elem_of_further | exact He].
      * intros (session & Hin & He). apply elem_of_cons in Hin as [[= -> ->]|Hin].
        -- now left.
        -- right. eauto.
    + rewrite (is_expired_false _ _ Hok Hi). cbn [mbind outcome_bind].
      exists ids. split; [reflexivity|]. intros sid. rewrite IH2. split.
      * intros (session & Hin & He).
        exists session. split; [now apply list_elem_of_further | exact He].
      * intros (session & Hin & He). apply elem_of_cons in Hin as [[= -> ->]|Hin].
        -- contradiction.
        -- eauto.
Qed.

Lemma collect_expired_overflow (clock : string -> Z)
    (items : list (string * SessionInfo)) :
  Exists (fun kv => ~ timedelta_ok (timeout_minutes kv.2)) items ->
  collect_expired clock items = Raise OverflowError.
Proof.
  induction 1 as [[k s] items Hno|[k s] items _ IH]; cbn [collect_expired].
  - cbn [snd] in Hno. now rewrite (is_expired_overflow _ _ Hno).
  - destruct (is_expired (clock k) s) as [b|e] eqn:E.
    + cbn [mbind outcome_bind]. now rewrite IH.
    + now rewrite (is_expired_raise _ _ _ E).
Qed.

Lemma expired_ids_ok (clock : string -> Z) (w : SessionManager) :
  (forall sid session,
      _sessions w !! sid = Some session ->
      timedelta_ok (timeout_minutes session)) ->
  exists ids,
    expired_ids clock w = Ok ids /\
    forall sid,
      sid ∈ ids <->
      exists session,
        _sessions w !! sid = Some session /\
        idle_too_long (clock sid) session.
Proof.
  intros Hok. unfold expired_ids.
  destruct (collect_expired_ok clock (map_to_list (_sessions w)))
    as (ids & Hids & Hin).
  - apply Forall_forall. intros [k s] Hks.
    apply elem_of_map_to_list in Hks. exact (Hok k s Hks).
  - exists ids. split; [exact Hids|]. intros sid. rewrite Hin.
    split; intros (session & Hs & He); exists session;
      (split; [now apply elem_of_map_to_list | exact He]).
Qed.

Lemma expired_ids_overflow (clock : string -> Z) (w : SessionManager)
    (sid : string) (session : SessionInfo) :
  _sessions w !! sid = Some session ->
  ~ timedelta_ok (timeout_minutes session) ->
  expired_ids clock w = Raise OverflowError.
Proof.
  intros Hs Hno. apply collect_expired_overflow, Exists_exists.
  exists (sid, session). split; [now apply elem_of_map_to_list | exact Hno].
Qed.

Lemma elem_of_keys (w : SessionManager) (sid : string) :
  sid ∈ (map_to_list (_sessions w)).*1 <-> is_Some (_sessions w !! sid).
Proof.
  rewrite list_elem_of_fmap. split.
  - intros ([k s] & -> & Hin). apply elem_of_map_to_list in Hin. eauto.
  - intros [s Hs]. exists (sid, s). split; [reflexivity|].
    now apply elem_of_map_to_list.
Qed.

Lemma same_but_last_accessed_trans (s1 s2 s3 : SessionInfo) :
  same_but_last_accessed s1 s2 -> same_but_last_accessed s2 s3 ->
  same_but_last_accessed s1 s3.
Proof.
  unfold same_but_last_accessed. intros H1 H2.
  repeat match goal with H : _ /\ _ |- _ => destruct H end.
  repeat split; congruence.
Qed.

(** X8. A session that has been created, with a timeout that
    [timedelta] takes, is found: a lookup of its id that comes no later
    than the timeout after the creation returns the record as it was
    created, status "active", touched at the time of the lookup; the
    creation leaves the sessions of other ids as they were, and with an
    id that was free the count goes up by one. *)
Theorem created_session_is_found (sid : string) (pg : Page) (g : nat)
    (timeout t1 t2 now_check now_touch : Z) (w : SessionManager) :
  timedelta_ok timeout ->
  (now_check - t2 <= timeout * 60000000)%Z ->
  let c := create_session sid pg g timeout t1 t2 w in
  (get_session now_check now_touch sid c.1).2 =
    Ok (update_last_accessed now_touch (new_session sid (Some pg) g timeout t1 t2)) /\
  c.2 = new_session sid (Some pg) g timeout t1 t2 /\
  (forall sid', sid' <> sid -> _sessions c.1 !! sid' = _sessions w !! sid') /\
  (_sessions w !! sid = None ->
   get_session_count c.1 = S (get_session_count w)).
Proof.
  intros Hok Hle. cbv zeta. unfold create_session. cbn [fst snd].
  split; [|split; [reflexivity|split]].
  - rewrite (lookup_live_eq now_check now_touch sid _
               (new_session sid (Some pg) g timeout t1 t2)).
    + reflexivity.
    + apply lookup_insert_eq.
    + apply is_expired_false; [exact Hok|]. unfold idle_too_long. cbn. lia.
  - intros sid' Hne. cbn. now apply lookup_insert_ne.
  - intros Hfree. unfold get_session_count. cbn.
    now apply map_size_insert_None.
Qed.

Lemma created_session_is_found_witness :
  let c := create_session "s3" Examples.a_page 0 30 100 101
             Samples.two_sessions in
  (get_session 1800000101 1800000102 "s3" c.1).2 =
    Ok (update_last_accessed 1800000102
          (new_session "s3" (Some Examples.a_page) 0 30 100 101)) /\
  c.2 = new_session "s3" (Some Examples.a_page) 0 30 100 101 /\
  (forall sid', sid' <> "s3" ->
     _sessions c.1 !! sid' = _sessions Samples.two_sessions !! sid') /\
  (_sessions Samples.two_sessions !! "s3" = None ->
   get_session_count c.1 = S (get_session_count Samples.two_sessions)).
Proof.
  apply (created_session_is_found "s3" Examples.a_page 0 30 100 101
           1800000101 1800000102 Samples.two_sessions).
  - unfold timedelta_ok. lia.
  - vm_compute. discriminate.
Defined.

(** X9. [create_session] takes any timeout. A session created with a
    timeout of zero or less, down to the least that [timedelta] takes, is
    lost at once: every lookup that comes after its creation, however
    soon, raises "Session expired". *)
Theorem nonpositive_timeout_expires (sid : string) (pg : Page) (g : nat)
    (timeout t1 t2 now_check now_touch : Z) (w : SessionManager) :
  (-1439999998560 <= timeout <= 0)%Z ->
  (t2 < now_check)%Z ->
  (get_session now_check now_touch sid
     (create_session sid pg g timeout t1 t2 w).1).2 =
    Raise (HTTPException 404 "Session expired").
Proof.
  intros Ht Hnow. unfold create_session. cbn [fst].
  rewrite (lookup_expired_eq now_check now_touch sid _
             (new_session sid (Some pg) g timeout t1 t2)).
  - reflexivity.
  - apply lookup_insert_eq.
  - apply is_expired_true; [unfold timedelta_ok; cbn; lia|].
    unfold idle_too_long. cbn. lia.
Qed.

Lemma nonpositive_timeout_expires_witness :
  (get_session 102 102 "s3"
     (create_session "s3" Examples.a_page 0 0 100 101 Samples.empty_manager).1).2 =
    Raise (HTTPException 404 "Session expired").
Proof.
  apply (nonpositive_timeout_expires "s3" Examples.a_page 0 0 100 101 102 102
           Samples.empty_manager); lia.
Defined.

(** X10. Closing twice: the first [close_session] of a registered session
    returns True, closes its page and removes its record; a second one
    then returns False and changes nothing. *)
Theorem close_twice (sid : string) (w : SessionManager) (session : SessionInfo) :
  _sessions w !! sid = Some session ->
  let r := close_session sid w in
  r.2 = Ok true /\
  _sessions r.1 = delete sid (_sessions w) /\
  closed_pages r.1 =
    closed_pages w ++ match page session with Some pg => [pg] | None => [] end /\
  close_session sid r.1 = (r.1, Ok false).
Proof.
  intros Hs. cbv zeta.
  destruct (cleanup_removes sid w session Hs) as (H1 & _ & H3).
  unfold _cleanup_session in H1, H3.
  assert (Hr : (close_session sid w).2 = Ok true).
  { unfold close_session. rewrite Hs. unfold del_session, close_page.
    destruct (page session); cbn [_sessions]; rewrite Hs; reflexivity. }
  split; [exact Hr|]. split; [exact H1|]. split; [exact H3|].
  unfold close_session at 1. rewrite H1, lookup_delete_eq. reflexivity.
Qed.

Lemma close_twice_witness :
  let r := close_session "s1" Samples.two_sessions in
  r.2 = Ok true /\
  _sessions r.1 = delete "s1" (_sessions Samples.two_sessions) /\
  closed_pages r.1 =
    closed_pages Samples.two_sessions ++
      match page Examples.short_session with Some pg => [pg] | None => [] end /\
  close_session "s1" r.1 = (r.1, Ok false).
Proof.
  apply (close_twice "s1" Samples.two_sessions Examples.short_session).
  reflexivity.
Defined.

(** X11. Creating a session under a free id and closing it again gives the
    sessions back as they were before; the page that had been opened for
    it is closed. *)
Theorem create_then_close (sid : string) (pg : Page) (g : nat)
    (timeout t1 t2 : Z) (w : SessionManager) :
  _sessions w !! sid = None ->
  let r := close_session sid (create_session sid pg g timeout t1 t2 w).1 in
  r.2 = Ok true /\
  _sessions r.1 = _sessions w /\
  closed_pages r.1 = closed_pages w ++ [pg] /\
  created_tasks r.1 = created_tasks w.
Proof.
  intros Hfree. cbv zeta.
  set (w1 := (create_session sid pg g timeout t1 t2 w).1).
  assert (Hs : _sessions w1 !! sid =
               Some (new_session sid (Some pg) g timeout t1 t2))
    by apply lookup_insert_eq.
  destruct (cleanup_removes sid w1 _ Hs) as (H1 & H2 & H3).
  unfold _cleanup_session in H1, H2, H3.
  split; [|split; [|split]].
  - unfold close_session. rewrite Hs. unfold del_session, close_page.
    cbn [page new_session _sessions]. rewrite Hs. reflexivity.
  - rewrite H1. unfold w1, create_session. cbn.
    now apply delete_insert_id.
  - exact H3.
  - exact H2.
Qed.

Lemma create_then_close_witness :
  let r := close_session "s3"
             (create_session "s3" Examples.a_page 0 30 100 101
                Samples.two_sessions).1 in
  r.2 = Ok true /\
  _sessions r.1 = _sessions Samples.two_sessions /\
  closed_pages r.1 = closed_pages Samples.two_sessions ++ [Examples.a_page] /\
  created_tasks r.1 = created_tasks Samples.two_sessions.
Proof.
  apply (create_then_close "s3" Examples.a_page 0 30 100 101
           Samples.two_sessions).
  reflexivity.
Defined.

(** X12. Two closes of one session that overlap: when both have looked the
    session up and called [close()] on its page before either deletes the
    record, the page is closed twice, the first [del] removes the record
    and the second raises KeyError. *)
Theorem overlapping_closes (sid : string) (w : SessionManager)
    (session : SessionInfo) (pg : Page) :
  _sessions w !! sid = Some session ->
  page session = Some pg ->
  exists w3,
    del_session sid (close_page session (close_page session w)) = Ok w3 /\
    del_session sid w3 = Raise KeyError /\
    closed_pages w3 = closed_pages w ++ [pg; pg] /\
    _sessions w3 = delete sid (_sessions w).
Proof.
  intros Hs Hp. unfold close_page. rewrite Hp. unfold del_session.
  cbn [_sessions]. rewrite Hs. eexists. split; [reflexivity|].
  cbn [with_sessions _sessions closed_pages]. rewrite lookup_delete_eq.
  split; [reflexivity|]. split; [|reflexivity].
  now rewrite <- app_assoc.
Qed.

Lemma overlapping_closes_witness :
  exists w3,
    del_session "s1"
      (close_page Examples.short_session
         (close_page Examples.short_session Samples.two_sessions)) = Ok w3 /\
    del_session "s1" w3 = Raise KeyError /\
    closed_pages w3 =
      closed_pages Samples.two_sessions ++ [Examples.a_page; Examples.a_page] /\
    _sessions w3 = delete "s1" (_sessions Samples.two_sessions).
Proof.
  apply (overlapping_closes "s1" Samples.two_sessions Examples.short_session
           Examples.a_page); reflexivity.
Defined.

(** X13. One round of the periodic cleanup, when every registered
    session has a timeout that [timedelta] takes, removes exactly the
    sessions that are expired when it examines them: an expired session
    is gone afterwards, any other session is kept as it is, the pages
    closed are those of the expired sessions, and no task is created.
    When one registered session has a timeout that [timedelta] does not
    take, the scan raises and the round changes nothing. *)
Theorem sweep_removes_expired (clock : string -> Z) (w : SessionManager) :
  ((forall sid session,
       _sessions w !! sid = Some session ->
       timedelta_ok (timeout_minutes session)) ->
   (forall sid session,
       _sessions w !! sid = Some session ->
       (idle_too_long (clock sid) session ->
        _sessions (sweep clock w) !! sid = None) /\
       (~ idle_too_long (clock sid) session ->
        _sessions (sweep clock w) !! sid = Some session)) /\
   (forall sid,
       _sessions w !! sid = None -> _sessions (sweep clock w) !! sid = None) /\
   (forall pg,
       pg ∈ closed_pages (sweep clock w) <->
       pg ∈ closed_pages w \/
       pages_where (fun sid session => idle_too_long (clock sid) session) w pg) /\
   created_tasks (sweep clock w) = created_tasks w) /\
  (forall sid session,
      _sessions w !! sid = Some session ->
      ~ timedelta_ok (timeout_minutes session) ->
      sweep clock w = w).
Proof.
  unfold sweep. split.
  - intros Hok. destruct (expired_ids_ok clock w Hok) as (ids & -> & Hin).
    split; [|split; [|split]].
    + intros sid session Hs. rewrite close_each_sessions. split; intros He.
      * rewrite decide_True; [reflexivity|]. apply Hin. eauto.
      * rewrite decide_False; [exact Hs|].
        intros H. apply Hin in H as (s' & Hs' & He'). congruence.
    + intros sid Hs. rewrite close_each_sessions. now case_decide.
    + intros pg. rewrite close_each_pages. unfold pages_where. split.
      * intros [H|(sid & s & Hi & Hs & Hp)]; [now left|]. right.
        apply Hin in Hi as (s' & Hs' & He).
        exists sid, s. split; [exact Hs|]. split; [congruence | exact Hp].
      * intros [H|(sid & s & Hs & He & Hp)]; [now left|]. right.
        exists sid, s. split; [|auto]. apply Hin. eauto.
    + apply close_each_tasks.
  - intros sid session Hs Hno.
    now rewrite (expired_ids_overflow clock w sid session Hs Hno).
Qed.

Lemma sweep_removes_expired_witness :
  ((idle_too_long 3660000000 Examples.short_session ->
    _sessions (sweep (fun _ => 3660000000%Z) Samples.two_sessions) !! "s1" =
      None) /\
   (~ idle_too_long 3660000000 Examples.short_session ->
    _sessions (sweep (fun _ => 3660000000%Z) Samples.two_sessions) !! "s1" =
      Some Examples.short_session)) /\
  sweep (fun _ => 3660000000%Z) Samples.endless_manager =
    Samples.endless_manager.
Proof.
  split.
  - apply (proj1 (proj1 (sweep_removes_expired (fun _ => 3660000000%Z)
                           Samples.two_sessions)
                    ltac:(intros sid session Hs;
                          unfold Samples.two_sessions in Hs;
                          cbn [_sessions] in Hs;
                          apply lookup_insert_Some in Hs
                            as [[_ <-]|[_ Hs]];
                          [|apply lookup_singleton_Some in Hs as [_ <-]];
                          unfold timedelta_ok; cbn; lia))
             "s1" Examples.short_session).
    reflexivity.
  - apply (proj2 (sweep_removes_expired (fun _ => 3660000000%Z)
                    Samples.endless_manager)
             "s9" Samples.endless_session).
    + reflexivity.
    + unfold timedelta_ok. cbn. lia.
Defined.

(** X14. [close_all_sessions] leaves no session: whatever the registry
    held, it is empty afterwards, the count is 0, and the pages closed are
    those of the sessions it held. *)
Theorem close_all_empties (w : SessionManager) :
  _sessions (close_all_sessions w) = ∅ /\
  get_session_count (close_all_sessions w) = 0 /\
  (forall pg,
      pg ∈ closed_pages (close_all_sessions w) <->
      pg ∈ closed_pages w \/ pages_where (fun _ _ => True) w pg).
Proof.
  assert (He : _sessions (close_all_sessions w) = ∅).
  { apply map_eq. intros sid. unfold close_all_sessions.
    rewrite close_each_sessions, lookup_empty.
    case_decide as H; [reflexivity|].
    destruct (_sessions w !! sid) eqn:Hs; [|reflexivity].
    exfalso. apply H, elem_of_keys. rewrite Hs. eauto. }
  split; [exact He|]. split.
  - unfold get_session_count. rewrite He. apply map_size_empty.
  - intros pg. unfold close_all_sessions. rewrite close_each_pages.
    unfold pages_where. split.
    + intros [H|(sid & s & _ & Hs & Hp)]; [now left|]. right. eauto.
    + intros [H|(sid & s & Hs & _ & Hp)]; [now left|]. right.
      exists sid, s. split; [|auto]. apply elem_of_keys. rewrite Hs. eauto.
Qed.

Lemma close_all_empties_witness :
  _sessions (close_all_sessions Samples.two_sessions) = ∅ /\
  get_session_count (close_all_sessions Samples.two_sessions) = 0 /\
  (forall pg,
      pg ∈ closed_pages (close_all_sessions Samples.two_sessions) <->
      pg ∈ closed_pages Samples.two_sessions \/
      pages_where (fun _ _ => True) Samples.two_sessions pg).
Proof. exact (close_all_empties Samples.two_sessions). Defined.

(** X15. Polling keeps a session alive: when every lookup of a registered
    session, whose timeout is one that [timedelta] takes, comes no later
    than that timeout after the touch before it (the first one after the
    last access so far), every lookup succeeds; the record ends touched
    at the time of the last lookup and otherwise as it was, and no
    cleanup is ever scheduled. *)
Theorem polling_keeps_alive (sid : string) (times : list (Z * Z))
    (w : SessionManager) (session : SessionInfo) :
  _sessions w !! sid = Some session ->
  timedelta_ok (timeout_minutes session) ->
  in_time (timeout_minutes session * 60000000) (last_accessed session) times ->
  let r := lookups sid times w in
  Forall (fun o => exists s', o = Ok s') r.2 /\
  length r.2 = length times /\
  created_tasks r.1 = created_tasks w /\
  exists s',
    _sessions r.1 !! sid = Some s' /\
    same_but_last_accessed session s' /\
    last_accessed s' = last_touch (last_accessed session) times.
Proof.
  intros Hs Hok Hin. cbv zeta. revert w session Hs Hok Hin.
  induction times as [|[now_check now_touch] times IH];
    intros w session Hs Hok Hin.
  - cbn. split; [constructor|]. split; [reflexivity|]. split; [reflexivity|].
    exists session. split; [exact Hs|]. split; [repeat split | reflexivity].
  - destruct Hin as [Hle Hin]. cbn [lookups].
    assert (He : is_expired now_check session = Ok false)
      by (apply (is_expired_false _ _ Hok); unfold idle_too_long; lia).
    rewrite (lookup_live_eq now_check now_touch sid w session Hs He).
    set (s1 := update_last_accessed now_touch session).
    set (w1 := with_sessions (<[sid:=s1]> (_sessions w)) w).
    assert (Hs1 : _sessions w1 !! sid = Some s1) by apply lookup_insert_eq.
    destruct (IH w1 s1 Hs1 Hok Hin)
      as (Hall & Hlen & Htasks & s' & Hs' & Hsame & Hlast).
    destruct (lookups sid times w1) as [w2 rs]. cbn [fst snd] in *.
    split; [constructor; eauto|]. split; [simpl; now rewrite Hlen|].
    split; [exact Htasks|]. exists s'. split; [exact Hs'|]. split; [|exact Hlast].
    eapply same_but_last_accessed_trans; [|exact Hsame]. repeat split.
Qed.

Lemma polling_keeps_alive_witness :
  let r := lookups "s1" [(50000000, 50000001); (110000000, 110000002)]%Z
             Examples.one_session in
  Forall (fun o => exists s', o = Ok s') r.2 /\
  length r.2 = 2 /\
  created_tasks r.1 = created_tasks Examples.one_session /\
  exists s',
    _sessions r.1 !! "s1" = Some s' /\
    same_but_last_accessed Examples.short_session s' /\
    last_accessed s' = 110000002%Z.
Proof.
  apply (polling_keeps_alive "s1"
           [(50000000, 50000001); (110000000, 110000002)]%Z
           Examples.one_session Examples.short_session).
  - reflexivity.
  - unfold timedelta_ok. cbn. lia.
  - vm_compute. repeat split; discriminate.
Defined.

(** X16. A lookup that finds the session expired does not touch it, so an
    expired session (its timeout one that [timedelta] takes) that has not
    been cleaned up yet stays expired: each further lookup raises
    "Session expired" again and creates one more cleanup task for the
    same session, the registry staying as it is. *)
Theorem expired_lookups_pile_up (sid : string) (times : list (Z * Z))
    (w : SessionManager) (session : SessionInfo) :
  _sessions w !! sid = Some session ->
  timedelta_ok (timeout_minutes session) ->
  Forall (fun t => idle_too_long t.1 session) times ->
  let r := lookups sid times w in
  r.2 = replicate (length times) (Raise (HTTPException 404 "Session expired")) /\
  _sessions r.1 = _sessions w /\
  created_tasks r.1 = created_tasks w ++ replicate (length times) sid /\
  closed_pages r.1 = closed_pages w.
Proof.
  intros Hs Hok Hall. cbv zeta.
  assert (E : lookups sid times w =
      ({| _sessions := _sessions w;
          created_tasks := created_tasks w ++ replicate (length times) sid;
          closed_pages := closed_pages w |},
       replicate (length times) (Raise (HTTPException 404 "Session expired")))).
  { revert w Hs.
    induction times as [|[now_check now_touch] times IH]; intros w Hs.
    - cbn. rewrite app_nil_r. now destruct w.
    - inversion Hall as [|? ? He Hrest]; subst. cbn [lookups].
      apply (is_expired_true _ _ Hok) in He. cbn [fst] in He.
      rewrite (lookup_expired_eq now_check now_touch sid w session Hs He).
      rewrite (IH Hrest
                 {| _sessions := _sessions w;
                    created_tasks := created_tasks w ++ [sid];
                    closed_pages := closed_pages w |} Hs).
      cbn [_sessions created_tasks closed_pages length replicate].
      now rewrite <- app_assoc. }
  rewrite E. repeat split.
Qed.

Lemma expired_lookups_pile_up_witness :
  let r := lookups "s1" [(3660000000, 3660000000); (3670000000, 3670000000)]%Z
             Examples.one_session in
  r.2 = replicate 2 (Raise (HTTPException 404 "Session expired")) /\
  _sessions r.1 = _sessions Examples.one_session /\
  created_tasks r.1 = created_tasks Examples.one_session ++ replicate 2 "s1" /\
  closed_pages r.1 = closed_pages Examples.one_session.
Proof.
  apply (expired_lookups_pile_up "s1"
           [(3660000000, 3660000000); (3670000000, 3670000000)]%Z
           Examples.one_session Examples.short_session).
  - reflexivity.
  - unfold timedelta_ok. cbn. lia.
  - repeat constructor.
Defined.

(** X23. [create_session] checks no timeout. A session created with a
    timeout that [timedelta] does not take cannot be looked up: every
    lookup of it, at any time, raises OverflowError and changes nothing,
    so that the session is never touched and never found expired; and
    as long as it is registered a round of the periodic cleanup changes
    nothing at all. [close_session] still closes its page and removes
    it. *)
Theorem timeout_out_of_range (sid : string) (pg : Page) (g : nat)
    (timeout t1 t2 : Z) (w : SessionManager) :
  ~ timedelta_ok timeout ->
  let w1 := (create_session sid pg g timeout t1 t2 w).1 in
  (forall now_check now_touch,
      get_session now_check now_touch sid w1 = (w1, Raise OverflowError)) /\
  (forall clock, sweep clock w1 = w1) /\
  (close_session sid w1).2 = Ok true /\
  _sessions (close_session sid w1).1 = delete sid (_sessions w) /\
  closed_pages (close_session sid w1).1 = closed_pages w ++ [pg].
Proof.
  intros Hno. cbv zeta. unfold create_session. cbn [fst].
  set (session := new_session sid (Some pg) g timeout t1 t2).
  set (w1 := with_sessions (<[sid:=session]> (_sessions w)) w).
  assert (Hs : _sessions w1 !! sid = Some session) by apply lookup_insert_eq.
  split; [|split].
  - intros now_check now_touch.
    exact (lookup_overflow_eq now_check now_touch sid w1 session Hs Hno).
  - intros clock. unfold sweep.
    now rewrite (expired_ids_overflow clock w1 sid session Hs Hno).
  - unfold close_session. rewrite Hs. unfold del_session, close_page.
    cbn [page session new_session _sessions]. fold session.
    change (_sessions w1) with (<[sid:=session]> (_sessions w)).
    rewrite lookup_insert_eq. cbn [fst snd _sessions closed_pages].
    split; [reflexivity|]. split; [|reflexivity].
    apply delete_insert_eq.
Qed.

Lemma timeout_out_of_range_witness :
  let w1 := (create_session "s9" Examples.a_page 0 1440000000000 0 0
               Samples.empty_manager).1 in
  (forall now_check now_touch,
      get_session now_check now_touch "s9" w1 = (w1, Raise OverflowError)) /\
  (forall clock, sweep clock w1 = w1) /\
  (close_session "s9" w1).2 = Ok true /\
  _sessions (close_session "s9" w1).1 =
    delete "s9" (_sessions Samples.empty_manager) /\
  closed_pages (close_session "s9" w1).1 =
    closed_pages Samples.empty_manager ++ [Examples.a_page].
Proof.
  apply (timeout_out_of_range "s9" Examples.a_page 0 1440000000000 0 0
           Samples.empty_manager).
  unfold timedelta_ok. lia.
Defined.

End RegistryFacts.

(** ** More about the query engine *)

Module EngineFacts.
Import PyStr Spec Session Routes PyStrFacts SessionFacts RoutesFacts.

(** What a run does to the record, from any point on. *)
Lemma run_effect (max_steps : Z) (items : list Item) :
  forall (n : Z) (s : SessionInfo),
    let s' := process_query_from max_steps n items s in
    terminal (status s') /\
    (session_id s' = session_id s /\ page s' = page s /\ graph s' = graph s /\
     current_query s' = current_query s /\ created_at s' = created_at s /\
     last_accessed s' = last_accessed s /\
     timeout_minutes s' = timeout_minutes s) /\
    (status s' = "completed" -> error s' = error s) /\
    (status s' = "error" -> result s' = result s /\ is_Some (error s')).
Proof.
  induction items as [|[event|msg] items IH]; intros n s; cbv zeta;
    cbn [process_query_from].
  - split; [left; reflexivity|]. split; [repeat split|].
    split; [reflexivity | discriminate].
  - pose proof (loop_body_frame max_steps n event s) as Hf.
    destruct (loop_body max_steps n event s) as [s1 [n1|fa|m]];
      cbn [fst] in Hf;
      destruct Hf as (H1 & H2 & H3 & H4 & H5 & H6 & H7 & H8 & H9 & H10).
    + specialize (IH n1 s1). cbv zeta in IH.
      destruct IH as (Ht & (F1 & F2 & F3 & F4 & F5 & F6 & F7) & Hc & He).
      split; [exact Ht|]. split; [repeat split; congruence|].
      split; [intros H; rewrite (Hc H); exact H7|].
      intros H. destruct (He H) as [Hr Hs]. split; [congruence | exact Hs].
    + split; [left; reflexivity|]. split; [repeat split; assumption|].
      split; [intros _; exact H7 | discriminate].
    + split; [right; reflexivity|]. split; [repeat split; assumption|].
      split; [discriminate|]. intros _. split; [exact H6 | eexists; reflexivity].
  - split; [right; reflexivity|]. split; [repeat split|].
    split; [discriminate|]. intros _. split; [reflexivity | eexists; reflexivity].
Qed.

(** X17. Whatever the stream delivers, a run of [process_query] ends with
    the status "completed" or "error"; with "error" the error is set and
    the result is the one from before, with "completed" the error is the
    one from before. The run never changes the id, the page, the graph,
    the current query, the time of creation, the timeout, or the time of
    the last access: running a query does not keep the session from
    expiring. *)
Theorem run_ends_terminal (req : Schemas.QueryRequest) (items : list Item)
    (session : SessionInfo) :
  let s' := process_query req items session in
  terminal (status s') /\
  (session_id s' = session_id session /\ page s' = page session /\
   graph s' = graph session /\
   current_query s' = current_query session /\
   created_at s' = created_at session /\
   last_accessed s' = last_accessed session /\
   timeout_minutes s' = timeout_minutes session) /\
  (status s' = "completed" -> error s' = error session) /\
  (status s' = "error" -> result s' = result session /\ is_Some (error s')) /\
  (forall now, is_expired now s' = is_expired now session).
Proof.
  cbv zeta. unfold process_query.
  destruct (run_effect (Schemas.max_steps req) items 0 session)
    as (Ht & F & Hc & He).
  split; [exact Ht|]. split; [exact F|]. split; [exact Hc|]. split; [exact He|].
  intros now. unfold is_expired.
  destruct F as (_ & _ & _ & _ & _ & -> & ->). reflexivity.
Qed.

Lemma run_ends_terminal_witness :
  let s' := process_query (Examples.a_request "q") [Fail "boom"]
              (start_query "q" Examples.short_session) in
  terminal (status s') /\
  (session_id s' = "s1" /\ page s' = Some Examples.a_page /\
   graph s' = 0 /\
   current_query s' = Some "q" /\
   created_at s' = 0%Z /\
   last_accessed s' = 0%Z /\
   timeout_minutes s' = 1%Z) /\
  (status s' = "completed" -> error s' = None) /\
  (status s' = "error" -> result s' = None /\ is_Some (error s')) /\
  (forall now, is_expired now s' =
               is_expired now (start_query "q" Examples.short_session)).
Proof.
  exact (run_ends_terminal (Examples.a_request "q") [Fail "boom"]
           (start_query "q" Examples.short_session)).
Defined.

Lemma step_bound (max_steps : Z) (items : list Item) :
  forall (n : Z) (s : SessionInfo),
    (0 <= n <= max_steps)%Z ->
    current_step (process_query_from max_steps n items s) = current_step s \/
    exists k, current_step (process_query_from max_steps n items s) = Some k /\
              (n + 1 <= k <= max_steps + 1)%Z.
Proof.
  induction items as [|[event|msg] items IH]; intros n s Hn;
    cbn [process_query_from].
  - left. reflexivity.
  - unfold loop_body. destruct (agent event) as [out|].
    + destruct (Nodes.action <$> prediction out) as [a|].
      * destruct (contains "ANSWER" a).
        -- right. exists (n + 1)%Z. split; [reflexivity | lia].
        -- destruct (Z.ltb_spec max_steps (n + 1)) as [Hlt|Hge].
           ++ right. exists (n + 1)%Z. split; [reflexivity | lia].
           ++ right.
              match goal with |- context [process_query_from _ _ _ ?s1] =>
                destruct (IH (n + 1)%Z s1 ltac:(lia)) as [H|(k & H & Hk)]
              end.
              ** exists (n + 1)%Z. split; [rewrite H; reflexivity | lia].
              ** exists k. split; [exact H | lia].
      * right. exists (n + 1)%Z. split; [reflexivity | lia].
    + apply IH, Hn.
  - left. reflexivity.
Qed.

(** X18. The step shown is bounded: with a bound [max_steps] that is not
    negative, [current_step] after a run is what it was before (no event
    of the agent came) or a number from 1 to [max_steps + 1]; the step
    that goes over the bound is still shown. *)
Theorem current_step_bounded (req : Schemas.QueryRequest) (items : list Item)
    (session : SessionInfo) :
  (0 <= Schemas.max_steps req)%Z ->
  current_step (process_query req items session) = current_step session \/
  exists k, current_step (process_query req items session) = Some k /\
            (1 <= k <= Schemas.max_steps req + 1)%Z.
Proof.
  intros H. unfold process_query.
  destruct (step_bound (Schemas.max_steps req) items 0 session ltac:(lia))
    as [E|(k & E & Hk)]; [now left|].
  right. exists k. split; [exact E | lia].
Qed.

Lemma current_step_bounded_witness :
  current_step (process_query (Examples.a_request "q") Examples.clicks_151
                  (start_query "q" Examples.short_session)) =
    current_step (start_query "q" Examples.short_session) \/
  exists k, current_step (process_query (Examples.a_request "q")
                            Examples.clicks_151
                            (start_query "q" Examples.short_session)) = Some k /\
            (1 <= k <= 150 + 1)%Z.
Proof.
  apply (current_step_bounded (Examples.a_request "q") Examples.clicks_151
           (start_query "q" Examples.short_session)).
  vm_compute. discriminate.
Defined.

(** X19. A failure of the stream is recorded: when the stream raises after
    events that are no answers and whose steps are within the bound, the
    run ends with status "error" and the raised message as the error; the
    result stays as it was. *)
Theorem upstream_failure_recorded (req : Schemas.QueryRequest)
    (pre rest : list Item) (msg : string) (session : SessionInfo) :
  Forall no_answer pre ->
  (agent_steps pre = 0 \/ agent_steps pre <= Schemas.max_steps req)%Z ->
  let s' := process_query req (pre ++ Fail msg :: rest) session in
  status s' = "error" /\ error s' = Some msg /\ result s' = result session.
Proof.
  intros Hpre Hle. cbv zeta. unfold process_query.
  destruct (run_prefix (Schemas.max_steps req) pre (Fail msg :: rest)
              Hpre 0%Z session) as (s1 & Hf & ->); [lia|].
  cbn [process_query_from].
  destruct Hf as (_ & _ & _ & _ & _ & Hres & _).
  split; [reflexivity|]. split; [reflexivity | exact Hres].
Qed.

Lemma upstream_failure_recorded_witness :
  let s' := process_query (Examples.a_request "q")
              ([Examples.agent_event "Click" (Nodes.ArgsList ["14"])] ++
               Fail "Timeout 30000ms exceeded." :: [])
              (start_query "q" Examples.short_session) in
  status s' = "error" /\ error s' = Some "Timeout 30000ms exceeded." /\
  result s' = None.
Proof.
  apply (upstream_failure_recorded (Examples.a_request "q")
           [Examples.agent_event "Click" (Nodes.ArgsList ["14"])] []
           "Timeout 30000ms exceeded."
           (start_query "q" Examples.short_session)).
  - repeat constructor.
  - right. vm_compute. discriminate.
Defined.

(** X20. A stream that ends without an answer is not an error: when all
    its events are no answers and their steps are within the bound, the
    run ends with status "completed" and a null result; the error stays
    as it was. *)
Theorem stream_end_completes (req : Schemas.QueryRequest) (items : list Item)
    (session : SessionInfo) :
  Forall no_answer items ->
  (agent_steps items = 0 \/ agent_steps items <= Schemas.max_steps req)%Z ->
  let s' := process_query req items session in
  status s' = "completed" /\ result s' = None /\ error s' = error session.
Proof.
  intros Hall Hle. cbv zeta. unfold process_query.
  destruct (run_prefix (Schemas.max_steps req) items [] Hall 0%Z session)
    as (s1 & Hf & Hrun); [lia|].
  rewrite app_nil_r in Hrun. rewrite Hrun. cbn [process_query_from].
  destruct Hf as (_ & _ & _ & _ & _ & _ & Herr & _).
  split; [reflexivity|]. split; [reflexivity | exact Herr].
Qed.

Lemma stream_end_completes_witness :
  let s' := process_query (Examples.a_request "q")
              [Examples.agent_event "Click" (Nodes.ArgsList ["14"]);
               Yield {| agent := None |}]
              (start_query "q" Examples.short_session) in
  status s' = "completed" /\ result s' = None /\ error s' = None.
Proof.
  apply (stream_end_completes (Examples.a_request "q")
           [Examples.agent_event "Click" (Nodes.ArgsList ["14"]);
            Yield {| agent := None |}]
           (start_query "q" Examples.short_session)).
  - repeat constructor.
  - right. vm_compute. discriminate.
Defined.

(** X21. A query for a session that cannot be looked up starts nothing:
    for an unknown id [query_agent] raises the 404 "Session not found" and
    changes nothing; for an expired session, its timeout one that
    [timedelta] takes, it raises the 404 "Session expired", the record is
    not reset (its status does not become "processing") and no run is
    added, only the cleanup task of the lookup; for a session whose
    timeout [timedelta] does not take it raises OverflowError and changes
    nothing. *)
Theorem query_for_lost_session (now_check now_touch : Z) (sid : string)
    (req : Schemas.QueryRequest) (items : list Item) (app : App) :
  (_sessions (manager app) !! sid = None ->
   query_agent now_check now_touch sid req items app =
     (app, Raise (HTTPException 404 "Session not found"))) /\
  (forall session,
      _sessions (manager app) !! sid = Some session ->
      timedelta_ok (timeout_minutes session) ->
      idle_too_long now_check session ->
      let r := query_agent now_check now_touch sid req items app in
      r.2 = Raise (HTTPException 404 "Session expired") /\
      _sessions (manager r.1) = _sessions (manager app) /\
      background_tasks r.1 = background_tasks app /\
      created_tasks (manager r.1) = created_tasks (manager app) ++ [sid]) /\
  (forall session,
      _sessions (manager app) !! sid = Some session ->
      ~ timedelta_ok (timeout_minutes session) ->
      query_agent now_check now_touch sid req items app =
        (app, Raise OverflowError)).
Proof.
  split; [|split].
  - intros Hs. unfold query_agent, get_session. rewrite Hs. now destruct app.
  - intros session Hs Hok He. apply (is_expired_true _ _ Hok) in He. cbv zeta.
    unfold query_agent.
    rewrite (lookup_expired_eq _ _ _ _ _ Hs He). repeat split.
  - intros session Hs Hno.
    exact (RoutesFacts.submit_overflow_eq _ _ _ _ _ _ _ Hs Hno).
Qed.

Lemma query_for_lost_session_witness :
  let r := query_agent 3660000000 3660000000 "s1" (Examples.a_request "q") []
             {| manager := Examples.one_session; background_tasks := [] |} in
  r.2 = Raise (HTTPException 404 "Session expired") /\
  _sessions (manager r.1) = _sessions Examples.one_session /\
  background_tasks r.1 = [] /\
  created_tasks (manager r.1) = created_tasks Examples.one_session ++ ["s1"].
Proof.
  apply (proj1 (proj2 (query_for_lost_session 3660000000 3660000000 "s1"
                         (Examples.a_request "q") []
                         {| manager := Examples.one_session;
                            background_tasks := [] |}))
               Examples.short_session).
  - reflexivity.
  - unfold timedelta_ok. cbn. lia.
  - vm_compute. reflexivity.
Defined.

(** X22. Queries that overlap share the record: when a second question is
    submitted while the run of the first is still going, and that run then
    gets its answer, the record shows the status "completed" and the
    answer of the first question under the second question as
    [current_query]. *)
Theorem first_answer_under_second_question (max_steps n : Z)
    (pre rest : list Item) (event : Event) (pred : Nodes.Prediction)
    (question : string) (now_touch : Z) (session : SessionInfo) :
  Forall no_answer pre ->
  (agent_steps pre = 0 \/ n + agent_steps pre <= max_steps)%Z ->
  agent event = Some {| prediction := Some pred |} ->
  contains "ANSWER" (Nodes.action pred) = true ->
  let s2 := start_query question (update_last_accessed now_touch session) in
  let s3 := process_query_from max_steps n (pre ++ Yield event :: rest) s2 in
  status s3 = "completed" /\
  current_query s3 = Some question /\
  result s3 = first_arg (Nodes.args pred).
Proof.
  intros Hpre Hle He Ha. cbv zeta.
  destruct (run_prefix max_steps pre (Yield event :: rest) Hpre n
              (start_query question (update_last_accessed now_touch session)))
    as (s1 & Hf & ->); [exact Hle|].
  cbn [process_query_from]. rewrite (loop_body_answer _ _ _ _ _ He Ha).
  destruct Hf as (_ & _ & _ & _ & Hq & _).
  split; [reflexivity|]. split; [exact Hq | reflexivity].
Qed.

Lemma first_answer_under_second_question_witness :
  let s2 := start_query "second question"
              (update_last_accessed 11 Examples.busy_session) in
  let s3 := process_query_from 150 3
              ([] ++ Yield {| agent := Some {| prediction :=
                   Some {| Nodes.action := "ANSWER";
                           Nodes.args := Nodes.ArgsList ["42"] |} |} |} :: [])
              s2 in
  status s3 = "completed" /\
  current_query s3 = Some "second question" /\
  result s3 = Some "42".
Proof.
  apply (first_answer_under_second_question 150 3 [] []
           {| agent := Some {| prediction :=
                Some {| Nodes.action := "ANSWER";
                        Nodes.args := Nodes.ArgsList ["42"] |} |} |}
           {| Nodes.action := "ANSWER"; Nodes.args := Nodes.ArgsList ["42"] |}
           "second question" 11 Examples.busy_session).
  - constructor.
  - left. reflexivity.
  - reflexivity.
  - reflexivity.
Defined.

End EngineFacts.
